(** * simplecoin/utils.py: share aggregation and signed settings commands

    A shallow embedding of [src/simplecoin/utils.py].

    Conventions of the embedding:
    - a naive [datetime] is the number of microseconds since the epoch, a
      [timedelta] is a number of microseconds, and its attributes
      [days], [seconds] and [microseconds] are the normalised parts
      Python keeps;
    - Python [int]s are [Z], and so are the share values, which the code
      converts with [float()] where it divides; a Python [float] is a
      rational, and every float operation rounds its exact result with a
      rounding [rnd] that is a parameter of the development (overflow is
      not modelled);
    - all readings of the clock within one call see the same instant
      [now], and the memoising decorators are left out: every function
      is what a cache miss computes;
    - Python dicts are [gmap]s, lists are [list]s, database queries are
      filters over lists of rows;
    - exceptions are the [Raise] branch of [result];
    - what lives outside the module ([models.py], the flask
      configuration, the coin daemon, the database, the [decimal] and
      [datetime] libraries) is either a [Section] variable or a
      documented model of the library's behaviour;
    - a global name that the module uses and neither defines nor
      imports is unbound, and using it raises [NameError]. *)

From Stdlib Require Import ZArith QArith Qround String Ascii List Lia Permutation.
From stdpp Require Import gmap strings list fin_maps sorting.

Local Open Scope Z_scope.
Local Open Scope string_scope.

(** ** Exceptions *)

Inductive exn : Type :=
  | CommandException (msg : string)
  | IndexError
  | ValueError
  | TypeError
  | KeyError
  | NameError
  | InvalidOperation
  | ZeroDivisionError
  | SQLAlchemyError.

Inductive result (A : Type) : Type :=
  | Ok (a : A)
  | Raise (e : exn).
Arguments Ok {A} a.
Arguments Raise {A} e.

Definition bind {A B : Type} (r : result A) (k : A -> result B) : result B :=
  match r with
  | Ok a => k a
  | Raise e => Raise e
  end.

Notation "'do' x <- r ; k" := (bind r (fun x => k))
  (at level 10, x pattern, r at level 100, k at level 200).

(** ** Time *)

(** A naive [datetime.datetime], in microseconds since the epoch, and a
    [datetime.timedelta], in microseconds. *)
Definition datetime := Z.
Definition timedelta := Z.

Definition us_per_second : Z := 1000000.
Definition us_per_day : Z := 86400 * us_per_second.

(** The attributes of a [timedelta]. Python keeps it normalised:
    [0 <= seconds < 86400] and [0 <= microseconds < 1000000], the sign is
    carried by [days]. *)
Definition td_days (td : timedelta) : Z := td / us_per_day.
Definition td_seconds (td : timedelta) : Z := (td mod us_per_day) / us_per_second.
Definition td_microseconds (td : timedelta) : Z := td mod us_per_second.

Definition minutes (n : Z) : timedelta := n * 60 * us_per_second.
Definition hours (n : Z) : timedelta := n * 3600 * us_per_second.
Definition days (n : Z) : timedelta := n * us_per_day.

(** [calendar.timegm(dt.utctimetuple())]: whole seconds since the epoch. *)
Definition timegm (dt : datetime) : Z := dt / us_per_second.

(** [dt.replace(second=0, microsecond=0)] *)
Definition floor_minute (dt : datetime) : datetime := dt - dt mod minutes 1.

(** ** Numbers *)

(** A Python number as the statistics functions return it. *)
Inductive pynum : Type :=
  | PyInt (z : Z)
  | PyFloat (q : Q).

(** The rounding of a real number to the float that represents it. *)
Class Rounding : Type := rnd : Q -> Q.

(** What the statements use of rounding to nearest: it is monotone, and
    0, 1 and 100 are floats. *)
Class RoundingLaws {R : Rounding} : Prop := {
  rnd_mono : forall x y : Q, (x <= y)%Q -> (rnd x <= rnd y)%Q;
  rnd_0 : (rnd 0 == 0)%Q;
  rnd_1 : (rnd 1 == 1)%Q;
  rnd_100 : (rnd 100 == 100)%Q
}.

(** Arithmetic without rounding error. *)
Definition exact_rounding {R : Rounding} : Prop := forall x : Q, (rnd x == x)%Q.

(** The rounding that rounds nothing. *)
Definition exact : Rounding := fun x => x.

(** A rounding that has an error: to the nearest multiple of 1/1024. *)
Definition grid : Rounding :=
  fun x => (Qfloor (x * 1024 + (1 # 2)) # 1024)%Q.

Section Floats.

Context {R : Rounding}.

(** [float(z)] *)
Definition float (z : Z) : Q := rnd (inject_Z z).

(** [x * y] and [x / y] on floats; the divisor is not zero. *)
Definition fmul (x y : Q) : Q := rnd (x * y)%Q.
Definition fquot (x y : Q) : Q := rnd (x / y)%Q.

(** [x / z] for a float [x] and an int [z]: [z] is converted, and a zero
    divisor raises. *)
Definition float_div (x : Q) (z : Z) : result Q :=
  if Z.eqb z 0 then Raise ZeroDivisionError else Ok (fquot x (float z)).

End Floats.

(** ** Share records and the record store *)

(** The six time-slice tables of [models.py]. *)
Inductive slice_typ : Type :=
  | OneMinuteShare | FiveMinuteShare | OneHourShare
  | OneMinuteReject | FiveMinuteReject | OneHourReject.

Record Slice : Type := mk_slice {
  slc_user : string;
  slc_worker : string;
  slc_device : string;
  slc_typ : string;
  slc_time : datetime;
  slc_value : Z
}.

(** [db.session.query(typ)]: the rows of a table, in the order the store
    yields them. *)
Definition database := slice_typ -> list Slice.

(** [sum([row.value for row in rows])] *)
Definition sum_values (rows : list Slice) : Z :=
  fold_left (fun acc r => acc + slc_value r) rows 0.

(** [dict.setdefault(k, d)] *)
Definition setdefault {K : Type} `{Countable K} {V : Type}
    (k : K) (d : V) (m : gmap K V) : gmap K V :=
  match m !! k with
  | Some _ => m
  | None => <[k := d]> m
  end.

(** ** Configuration *)

(** The keys of [current_app.config] this module reads; [None] is a key
    that is not set. *)
Record Config : Type := mk_config {
  cfg_message_expiry : option Z;
  cfg_site_title : option string;
  cfg_hashes_per_share : option Q;
  cfg_monitor_addrs : option (gmap string (gmap string string))
}.

Definition default_config : Config :=
  {| cfg_message_expiry := None;
     cfg_site_title := None;
     cfg_hashes_per_share := None;
     cfg_monitor_addrs := None |}.

Definition shares_to_hashes {R : Rounding} (cfg : Config) (shares : Z) : Q :=
  fmul (rnd (default 65536%Q (cfg_hashes_per_share cfg))) (float shares).

(** ** Worker statistics *)

(** The per-worker dict while it is accumulated. [w_server] is [None]
    for the template's empty dict. *)
Record worker_acc : Type := mk_worker_acc {
  w_accepted : Z;
  w_rejected : Z;
  w_last_10_shares : Z;
  w_online : bool;
  w_server : option string
}.

Definition def_worker : worker_acc :=
  {| w_accepted := 0; w_rejected := 0; w_last_10_shares := 0;
     w_online := false; w_server := None |}.

(** The per-worker dict as it is returned. [ws_efficiency] is [None]
    when the code stores [None]. *)
Record worker_stat : Type := mk_worker_stat {
  ws_name : string;
  ws_accepted : Z;
  ws_rejected : Z;
  ws_last_10_shares : Z;
  ws_online : bool;
  ws_server : option string;
  ws_last_10_hashrate : Q;
  ws_efficiency : option Q
}.

Definition name_le (a b : worker_stat) : Prop :=
  String.leb (ws_name a) (ws_name b) = true.

#[global] Instance name_le_dec a b : Decision (name_le a b).
Proof. unfold name_le. apply _. Defined.

(** The part of the dict [collect_user_stats] returns that is computed
    from the share records and the settings row; the ledger items, the
    wall-clock payout times and the fee are not modelled. *)
Record user_stats : Type := mk_user_stats {
  us_workers : list worker_stat;
  us_donation_perc : Q;
  us_last_10_shares : Z;
  us_last_10_hashrate : Q
}.

Fixpoint mapM {A B : Type} (f : A -> result B) (l : list A) : result (list B) :=
  match l with
  | [] => Ok []
  | a :: l' => do b <- f a; do bs <- mapM f l'; Ok (b :: bs)
  end.

Section Aggregation.

(** Attributes of the model classes, defined in [models.py]:
    [typ.floor_time], [typ.upper.floor_time] and [typ.window]. *)
Variable floor_time : slice_typ -> datetime -> datetime.
Variable upper_floor_time : slice_typ -> datetime -> datetime.
Variable window : slice_typ -> timedelta.
Context {R : Rounding}.

(** [filter_by(attr=v)], applied only when [v] is not [None]. *)
Definition opt_eqb (o : option string) (s : string) : bool :=
  match o with
  | None => true
  | Some a => String.eqb s a
  end.

Definition get_typ (db : database) (now : datetime) (typ : slice_typ)
    (address : option string) (window_open : bool)
    (worker : option string) (q_typ : option string) : list Slice :=
  let base :=
    List.filter (fun r => opt_eqb address (slc_user r)
                          && opt_eqb worker (slc_worker r)
                          && opt_eqb q_typ (slc_typ r)) (db typ) in
  if negb window_open then base
  else
    let grab := floor_time typ now - window typ in
    List.filter (fun r => Z.leb grab (slc_time r)) base.

(** *** compress_typ *)

Definition compress_key (worker : option string) (slc : Slice) : string :=
  match worker with
  | Some _ => slc_device slc
  | None => slc_worker slc
  end.

Definition compress_stamp (typ : slice_typ) (worker : option string)
    (slc : Slice) : Z :=
  match worker with
  | Some _ => timegm (floor_time typ (slc_time slc))
  | None => timegm (upper_floor_time typ (slc_time slc))
  end.

(** One iteration of the loop: two [setdefault]s and the [+=]. *)
Definition compress_step (typ : slice_typ) (worker : option string)
    (workers : gmap string (gmap Z Z)) (slc : Slice)
    : gmap string (gmap Z Z) :=
  let key := compress_key worker slc in
  let stamp := compress_stamp typ worker slc in
  let workers1 := setdefault key ∅ workers in
  let workers2 := alter (setdefault stamp 0) key workers1 in
  alter (alter (fun total => total + slc_value slc) stamp) key workers2.

Definition compress_rows (typ : slice_typ) (worker : option string)
    (rows : list Slice) (workers : gmap string (gmap Z Z))
    : gmap string (gmap Z Z) :=
  fold_left (compress_step typ worker) rows workers.

Definition compress_typ (db : database) (now : datetime) (typ : slice_typ)
    (workers : gmap string (gmap Z Z)) (address worker : option string)
    : gmap string (gmap Z Z) :=
  compress_rows typ worker (get_typ db now typ address false worker None)
    workers.

(** *** Pool totals *)

Definition get_pool_acc_rej (db : database) (now : datetime)
    (td : option timedelta) : Z * Z :=
  let td := default (days 30) td in
  let '(rej_typ, acc_typ) :=
    if Z.leb td (days 1) then (FiveMinuteReject, FiveMinuteShare)
    else (OneHourReject, OneHourShare) in
  let one_month_ago := now - td in
  let rejects :=
    List.filter (fun r => String.eqb (slc_user r) "pool_stale")
      (List.filter (fun r => Z.leb one_month_ago (slc_time r)) (db rej_typ)) in
  let accepts :=
    List.filter (fun r => String.eqb (slc_user r) "pool")
      (List.filter (fun r => Z.leb one_month_ago (slc_time r)) (db acc_typ)) in
  (sum_values rejects, sum_values accepts).

Definition get_pool_eff (db : database) (now : datetime)
    (td : option timedelta) : result pynum :=
  let '(rej, acc) := get_pool_acc_rej db now td in
  if Z.eqb rej 0 && Z.eqb acc 0 then Ok (PyInt 100)
  else
    do q <- float_div (float acc) (acc + rej);
    Ok (PyFloat (fmul q 100)).

Definition get_pool_hashrate (db : database) (now : datetime) : Q :=
  let twelve_ago := now - minutes 12 in
  let two_ago := now - minutes 2 in
  let ten_min :=
    List.filter (fun r => Z.leb twelve_ago (slc_time r)
                          && Z.leb (slc_time r) two_ago)
      (List.filter (fun r => String.eqb (slc_user r) "pool")
         (db OneMinuteShare)) in
  fquot (float (sum_values ten_min)) 600000.

Definition last_10_shares (db : database) (now : datetime)
    (user : string) : Z :=
  let twelve_ago := now - minutes 12 in
  let two_ago := now - minutes 2 in
  let minutes :=
    List.filter (fun r => Z.ltb twelve_ago (slc_time r)
                          && Z.ltb (slc_time r) two_ago)
      (List.filter (fun r => String.eqb (slc_user r) user)
         (db OneMinuteShare)) in
  sum_values minutes.

(** *** collect_user_stats *)

(** The loop over accepted shares. *)
Definition accept_step (twelve_ago two_ago : datetime)
    (workers : gmap string worker_acc) (m : Slice)
    : gmap string worker_acc :=
  let workers1 := setdefault (slc_worker m) def_worker workers in
  let workers2 :=
    alter (fun w => {| w_accepted := w_accepted w + slc_value m;
                       w_rejected := w_rejected w;
                       w_last_10_shares := w_last_10_shares w;
                       w_online := w_online w;
                       w_server := w_server w |}) (slc_worker m) workers1 in
  if Z.leb twelve_ago (slc_time m) && Z.ltb (slc_time m) two_ago then
    alter (fun w => {| w_accepted := w_accepted w;
                       w_rejected := w_rejected w;
                       w_last_10_shares := w_last_10_shares w + slc_value m;
                       w_online := w_online w;
                       w_server := w_server w |}) (slc_worker m) workers2
  else workers2.

(** The loop over rejected shares. *)
Definition reject_step (workers : gmap string worker_acc) (m : Slice)
    : gmap string worker_acc :=
  let workers1 := setdefault (slc_worker m) def_worker workers in
  alter (fun w => {| w_accepted := w_accepted w;
                     w_rejected := w_rejected w + slc_value m;
                     w_last_10_shares := w_last_10_shares w;
                     w_online := w_online w;
                     w_server := w_server w |}) (slc_worker m) workers1.

(** [current_app.config['monitor_addrs'][host]['stratum']], with the
    [KeyError] handler's empty string. *)
Definition stratum_of (cfg : Config) (host : string) : string :=
  default "" (cfg_monitor_addrs cfg ≫= fun addrs =>
              addrs !! host ≫= fun entry => entry !! "stratum").

(** The loop over the online feed. *)
Definition online_step (cfg : Config) (workers : gmap string worker_acc)
    (entry : string * string) : gmap string worker_acc :=
  let '(name, host) := entry in
  let workers1 := setdefault name def_worker workers in
  let workers2 :=
    alter (fun w => {| w_accepted := w_accepted w;
                       w_rejected := w_rejected w;
                       w_last_10_shares := w_last_10_shares w;
                       w_online := true;
                       w_server := w_server w |}) name workers1 in
  alter (fun w => {| w_accepted := w_accepted w;
                     w_rejected := w_rejected w;
                     w_last_10_shares := w_last_10_shares w;
                     w_online := w_online w;
                     w_server := Some (stratum_of cfg host) |}) name workers2.

(** The [efficiency] entry. *)
Definition efficiency (accepted rejected : Z) : result (option Q) :=
  if negb (Z.eqb accepted 0) || negb (Z.eqb rejected 0) then
    do q <- float_div (float accepted) (accepted + rejected);
    Ok (Some (fmul 100 q))
  else Ok None.

(** The loop that pre-calculates [last_10_hashrate] and [efficiency],
    and the loop that stores the name. *)
Definition finish_worker (cfg : Config) (entry : string * worker_acc)
    : result worker_stat :=
  let '(name, w) := entry in
  let hashrate :=
    fquot (fquot (shares_to_hashes cfg (w_last_10_shares w)) 1000000) 600 in
  do eff <- efficiency (w_accepted w) (w_rejected w);
  Ok {| ws_name := name;
        ws_accepted := w_accepted w;
        ws_rejected := w_rejected w;
        ws_last_10_shares := w_last_10_shares w;
        ws_online := w_online w;
        ws_server := w_server w;
        ws_last_10_hashrate := hashrate;
        ws_efficiency := eff |}.

(** The accumulated [workers] dict, before the derived entries. *)
Definition collect_workers (cfg : Config) (db : database) (now : datetime)
    (online : list (string * string)) (address : string)
    : gmap string worker_acc :=
  let now0 := floor_minute now in
  let twelve_ago := now0 - minutes 12 in
  let two_ago := now0 - minutes 2 in
  let workers1 :=
    fold_left (accept_step twelve_ago two_ago)
      (get_typ db now FiveMinuteShare (Some address) true None None
       ++ get_typ db now OneMinuteShare (Some address) true None None) ∅ in
  let workers2 :=
    fold_left reject_step
      (get_typ db now FiveMinuteReject (Some address) true None None
       ++ get_typ db now OneMinuteReject (Some address) true None None)
      workers1 in
  fold_left (online_step cfg) online workers2.

(** [cache_get] is [cache.get]; [hr_perc] is the [hr_perc] column of
    the address's [UserSettings] row, if there is one. *)
Definition collect_user_stats (cfg : Config) (db : database)
    (now : datetime) (cache_get : string -> option (list (string * string)))
    (hr_perc : string -> option Q) (address : string)
    : result user_stats :=
  let online := default [] (cache_get ("addr_online_" +:+ address)) in
  let workers := collect_workers cfg db now online address in
  do stats <- mapM (finish_worker cfg) (map_to_list workers);
  let new_workers := merge_sort name_le stats in
  let perc := default 0%Q (hr_perc address) in
  let user_last_10_shares := last_10_shares db now address in
  let last_10_hashrate :=
    fquot (fquot (shares_to_hashes cfg user_last_10_shares) 1000000) 600 in
  Ok {| us_workers := new_workers;
        us_donation_perc := perc;
        us_last_10_shares := user_last_10_shares;
        us_last_10_hashrate := last_10_hashrate |}.

End Aggregation.

(** ** decimal.Decimal

    A model of the part of Python's [decimal] module that
    [validate_message_vals] uses, under the default context (precision
    28, [ROUND_HALF_EVEN], [InvalidOperation] trapped). *)

(** [DFinite neg c e] is [(-1)^neg * c * 10^e]. *)
Inductive Decimal : Type :=
  | DFinite (neg : bool) (coeff : N) (exp : Z)
  | DInfinity (neg : bool)
  | DNaN (signaling : bool).

Definition decimal_prec : Z := 28.
Definition decimal_Emax : Z := 999999999.

Definition is_digit (c : ascii) : bool :=
  (N.leb 48 (N_of_ascii c) && N.leb (N_of_ascii c) 57)%bool.

Definition digit_val (c : ascii) : N := (N_of_ascii c - 48)%N.

(** [int(ds)] for a string of digits; the empty string counts 0. *)
Definition digits_value (ds : list ascii) : N :=
  fold_left (fun acc c => (acc * 10 + digit_val c)%N) ds 0%N.

(** The longest prefix of digits, and what follows it. *)
Fixpoint span_digits (l : list ascii) : list ascii * list ascii :=
  match l with
  | c :: l' =>
      if is_digit c then
        let '(ds, rest) := span_digits l' in (c :: ds, rest)
      else ([], l)
  | [] => ([], [])
  end.

Definition is_space (c : ascii) : bool :=
  let n := N_of_ascii c in
  (N.eqb n 32 || (N.leb 9 n && N.leb n 13))%bool.

Fixpoint lstrip (l : list ascii) : list ascii :=
  match l with
  | c :: l' => if is_space c then lstrip l' else l
  | [] => []
  end.

(** [s.strip()] *)
Definition strip (l : list ascii) : list ascii :=
  rev (lstrip (rev (lstrip l))).

Definition lower (c : ascii) : ascii :=
  let n := N_of_ascii c in
  if (N.leb 65 n && N.leb n 90)%bool then ascii_of_N (n + 32) else c.

Definition lower_string (s : string) : string :=
  string_of_list_ascii (List.map lower (list_ascii_of_string s)).

(** An optional sign: is it [-], and what follows it. *)
Definition take_sign (l : list ascii) : bool * list ascii :=
  match l with
  | "-"%char :: l' => (true, l')
  | "+"%char :: l' => (false, l')
  | _ => (false, l)
  end.

(** The exponent part [(E[-+]?\d+)?] up to the end of the string. *)
Definition parse_exponent (l : list ascii) : option Z :=
  match l with
  | [] => Some 0
  | c :: l' =>
      if Ascii.eqb (lower c) "e" then
        let '(neg, l'') := take_sign l' in
        match span_digits l'' with
        | (d :: ds, []) =>
            let v := Z.of_N (digits_value (d :: ds)) in
            Some (if neg then - v else v)
        | _ => None
        end
      else None
  end.

(** The numeric alternative of the module's regular expression:
    digits with at least one digit before or after an optional point,
    then an optional exponent. *)
Definition parse_number (neg : bool) (l : list ascii) : option Decimal :=
  let '(intpart, rest) := span_digits l in
  let '(fracpart, rest') :=
    match rest with
    | "."%char :: r => span_digits r
    | _ => ([], rest)
    end in
  match (intpart ++ fracpart)%list with
  | [] => None
  | digits =>
      match parse_exponent rest' with
      | Some e =>
          Some (DFinite neg (digits_value digits)
                  (e - Z.of_nat (List.length fracpart)))
      | None => None
      end
  end.

(** The other two alternatives: [Inf(inity)?] and [s?NaN\d*]. *)
Definition parse_special (neg : bool) (l : list ascii) : option Decimal :=
  let s := string_of_list_ascii (List.map lower l) in
  if String.eqb s "inf" || String.eqb s "infinity" then Some (DInfinity neg)
  else
    match List.map lower l with
    | "n"%char :: "a"%char :: "n"%char :: diag =>
        match span_digits diag with
        | (_, []) => Some (DNaN false)
        | _ => None
        end
    | "s"%char :: "n"%char :: "a"%char :: "n"%char :: diag =>
        match span_digits diag with
        | (_, []) => Some (DNaN true)
        | _ => None
        end
    | _ => None
    end.

(** The parser behind [Decimal(str)]; [None] is a string the regular
    expression does not match. *)
Definition parse_decimal (s : string) : option Decimal :=
  let '(neg, l) := take_sign (strip (list_ascii_of_string s)) in
  match parse_number neg l with
  | Some d => Some d
  | None => parse_special neg l
  end.

(** A value of the message dict. *)
Inductive pyval : Type :=
  | VNone
  | VBool (b : bool)
  | VInt (z : Z)
  | VStr (s : string).

(** [Decimal(v)]: a malformed string signals [InvalidOperation]
    ([ConversionSyntax]), a value of another type raises [TypeError]. *)
Definition Decimal_new (v : pyval) : result Decimal :=
  match v with
  | VStr s =>
      match parse_decimal s with
      | Some d => Ok d
      | None => Raise InvalidOperation
      end
  | VInt z => Ok (DFinite (Z.ltb z 0) (Z.abs_N z) 0)
  | VBool b => Ok (DFinite false (if b then 1 else 0)%N 0)
  | VNone => Raise TypeError
  end.

Fixpoint count_digits (fuel : nat) (n : N) : Z :=
  match fuel with
  | O => 0
  | S fuel' => if N.eqb n 0 then 0 else 1 + count_digits fuel' (n / 10)%N
  end.

(** [len(str(n))] *)
Definition num_digits (n : N) : Z :=
  if N.eqb n 0 then 1 else count_digits (N.size_nat n) n.

(** The coefficient at exponent [-2], rounded half to even. *)
Definition rescale_hundredths (c : N) (e : Z) : N :=
  if Z.leb (-2) e then (c * 10 ^ Z.to_N (e + 2))%N
  else
    let p := (10 ^ Z.to_N (- 2 - e))%N in
    let q := (c / p)%N in
    let r := (c mod p)%N in
    match (2 * r ?= p)%N with
    | Gt => (q + 1)%N
    | Eq => if N.odd q then (q + 1)%N else q
    | Lt => q
    end.

(** [d.quantize(Decimal('0.01'))] *)
Definition quantize_hundredths (d : Decimal) : result Decimal :=
  match d with
  | DNaN false => Ok (DNaN false)
  | DNaN true => Raise InvalidOperation
  | DInfinity _ => Raise InvalidOperation
  | DFinite neg c e =>
      if N.eqb c 0 then Ok (DFinite neg 0 (-2))
      else
        let adjusted := e + num_digits c - 1 in
        if Z.ltb decimal_Emax adjusted then Raise InvalidOperation
        else if Z.ltb decimal_prec (adjusted + 2 + 1) then Raise InvalidOperation
        else
          let c' := rescale_hundredths c e in
          if Z.ltb decimal_prec (num_digits c') then Raise InvalidOperation
          else Ok (DFinite neg c' (-2))
  end.

Definition strip_zero (d : N * Z) : N * Z :=
  let '(c, e) := d in
  if N.eqb (c mod 10) 0 then ((c / 10)%N, e + 1) else (c, e).

(** [d / 100] for a [d] whose coefficient is within the precision, as
    [quantize] leaves it: the quotient is exact, and its exponent is
    brought as close to [d]'s as the coefficient allows. *)
Definition decimal_div_100 (d : Decimal) : result Decimal :=
  match d with
  | DNaN false => Ok (DNaN false)
  | DNaN true => Raise InvalidOperation
  | DInfinity neg => Ok (DInfinity neg)
  | DFinite neg c e =>
      if N.eqb c 0 then Ok (DFinite neg 0 e)
      else
        let '(c', e') := strip_zero (strip_zero (c, e - 2)) in
        Ok (DFinite neg c' e')
  end.

Definition decimal_value (neg : bool) (c : N) (e : Z) : Q :=
  ((if neg then -1 else 1) * inject_Z (Z.of_N c) * 10 ^ e)%Q.

Definition Qlt_bool (x y : Q) : bool := negb (Qle_bool y x).

(** [d > q] and [d < q]; an ordering comparison with a NaN signals. *)
Definition decimal_gt (d : Decimal) (q : Q) : result bool :=
  match d with
  | DNaN _ => Raise InvalidOperation
  | DInfinity neg => Ok (negb neg)
  | DFinite neg c e => Ok (Qlt_bool q (decimal_value neg c e))
  end.

Definition decimal_lt (d : Decimal) (q : Q) : result bool :=
  match d with
  | DNaN _ => Raise InvalidOperation
  | DInfinity neg => Ok neg
  | DFinite neg c e => Ok (Qlt_bool (decimal_value neg c e) q)
  end.

(** The value of a finite decimal, [None] otherwise. *)
Definition decimal_to_Q (d : Decimal) : option Q :=
  match d with
  | DFinite neg c e => Some (decimal_value neg c e)
  | _ => None
  end.

(** ** Message validation and verification *)

(** [update_dict], the parsed command. *)
Record update_dict : Type := mk_update_dict {
  SETADDR : gmap string string;
  DELADDR : list string;
  MAKEANON : pyval;
  SETDONATE : pyval
}.

(** What [check_valid_currency] returns: [False] or a currency. *)
Inductive currency_check : Type :=
  | CheckFalse
  | CheckCurrency (name : string).

Definition msg_invalid_address : string :=
  "Invalid currency address passed!".
Definition msg_donate_convert : string :=
  "Donate percentage unable to be converted to python Decimal!".
Definition msg_donate_bounds : string :=
  "Donate percentage was out of bounds!".
Definition msg_invalid_command : string :=
  "Invalid command given! Generate a new message & try again.".
Definition msg_invalid_information : string :=
  "Invalid information provided in the message field. This could be the fault of the bug with IE11, or the generated message has an error".
Definition msg_no_stamp : string :=
  "Time stamp not found in message! Generate a new message & try again.".
Definition msg_too_old : string :=
  "Signature/Message is too old to be accepted! Generate a new message & try again.".
Definition msg_invalid_website : string :=
  "Invalid website! Generate a new message & try again.".
Definition msg_rpc_rejected (reason : string) : string :=
  "Rejected by RPC server for reason " +:+ reason +:+ "!".
Definition msg_no_coinserver : string :=
  "Unable to communicate with coinserver!".
Definition msg_save_error : string :=
  "Error saving new settings to the database!".
Definition msg_invalid_signature : string :=
  "Invalid signature! Coinserver returned False".

(** The tuple [validate_message_vals] returns. *)
Record message_vals : Type := mk_message_vals {
  mv_set_addrs : gmap string string;
  mv_del_addrs : list string;
  mv_donate_perc : Decimal;
  mv_anon : pyval
}.

(** The global name [check_valid_currency] of the module. The source
    neither defines nor imports it: in the module as it is written the
    name is unbound, and calling it raises [NameError]. [Some helper] is
    the module with a function supplied under that name. *)
Definition global_name : Type := option (string -> currency_check).

(** The module as it is written. *)
Definition unbound : global_name := None.

Section Validation.

Variable check_valid_currency : global_name.

(** The loop over [set_addrs.iteritems()]: the call comes first, the
    two tests after it. *)
Fixpoint check_addrs (items : list (string * string)) : result unit :=
  match items with
  | [] => Ok tt
  | (_, addr) :: items' =>
      match check_valid_currency with
      | None => Raise NameError
      | Some helper =>
          let curr := helper addr in
          if negb (Nat.eqb (String.length addr) 34)
             || match curr with
                | CheckFalse => true
                | CheckCurrency _ => false
                end
          then Raise (CommandException msg_invalid_address)
          else check_addrs items'
      end
  end.

(** The [try] block around the conversion. *)
Definition convert_donate_perc (donate_perc : pyval) : result Decimal :=
  match (do d <- Decimal_new donate_perc;
         do d' <- quantize_hundredths d;
         decimal_div_100 d') with
  | Raise TypeError => Raise (CommandException msg_donate_convert)
  | r => r
  end.

Definition validate_message_vals (kwargs : update_dict)
    : result message_vals :=
  let set_addrs := SETADDR kwargs in
  let del_addrs := DELADDR kwargs in
  let anon := MAKEANON kwargs in
  do _ <- check_addrs (map_to_list set_addrs);
  do donate_perc <- convert_donate_perc (SETDONATE kwargs);
  do above <- decimal_gt donate_perc 100;
  do out_of_bounds <- (if above then Ok true else decimal_lt donate_perc 0);
  if out_of_bounds then Raise (CommandException msg_donate_bounds)
  else Ok {| mv_set_addrs := set_addrs;
             mv_del_addrs := del_addrs;
             mv_donate_perc := donate_perc;
             mv_anon := anon |}.

End Validation.

(** [s.split(sep)] for a one-character separator. *)
Fixpoint split (sep : ascii) (s : string) : list string :=
  match s with
  | EmptyString => [""]
  | String c s' =>
      if Ascii.eqb c sep then "" :: split sep s'
      else
        match split sep s' with
        | p :: ps => String c p :: ps
        | [] => [String c ""]
        end
  end.

(** [parts[i]] *)
Definition index (parts : list string) (i : nat) : result string :=
  match parts !! i with
  | Some p => Ok p
  | None => Raise IndexError
  end.

(** The locals of [verify_message] that the parsing loop assigns;
    [None] is the initial [False] of [stamp] and [site]. *)
Record parse_state : Type := mk_parse_state {
  ps_dict : update_dict;
  ps_stamp : option datetime;
  ps_site : option string
}.

Definition initial_parse_state : parse_state :=
  {| ps_dict := {| SETADDR := ∅; DELADDR := []; MAKEANON := VBool false;
                   SETDONATE := VInt 0 |};
     ps_stamp := None;
     ps_site := None |}.

(** The external world of one [verify_message] call. *)
Inductive oracle_reply : Type :=
  | Verified (res : bool)
  | CoinRPCException (reason : string)
  | OtherFault.

Section Verification.

(** [datetime.datetime.strptime(time, '%Y-%m-%d %H:%M:%S.%f %Z')];
    [None] is a [ValueError]. *)
Variable strptime : string -> option datetime.
Variable check_valid_currency : global_name.

(** The body of the loop over the lines of the message. *)
Definition parse_line (st : parse_state) (line : string)
    : result parse_state :=
  let parts := split " " line in
  do p0 <- index parts 0;
  let d := ps_dict st in
  if String.eqb p0 "SETADDR" then
    do p2 <- index parts 2;
    do p1 <- index parts 1;
    Ok {| ps_dict := {| SETADDR := <[p1 := p2]> (SETADDR d);
                        DELADDR := DELADDR d;
                        MAKEANON := MAKEANON d;
                        SETDONATE := SETDONATE d |};
          ps_stamp := ps_stamp st; ps_site := ps_site st |}
  else if String.eqb p0 "DELADDR" then
    do p1 <- index parts 1;
    Ok {| ps_dict := {| SETADDR := SETADDR d;
                        DELADDR := (DELADDR d ++ [p1])%list;
                        MAKEANON := MAKEANON d;
                        SETDONATE := SETDONATE d |};
          ps_stamp := ps_stamp st; ps_site := ps_site st |}
  else if String.eqb p0 "MAKEANON" then
    do p1 <- index parts 1;
    Ok {| ps_dict := {| SETADDR := SETADDR d;
                        DELADDR := DELADDR d;
                        MAKEANON := VStr p1;
                        SETDONATE := SETDONATE d |};
          ps_stamp := ps_stamp st; ps_site := ps_site st |}
  else if String.eqb p0 "SETDONATE" then
    do p1 <- index parts 1;
    Ok {| ps_dict := {| SETADDR := SETADDR d;
                        DELADDR := DELADDR d;
                        MAKEANON := MAKEANON d;
                        SETDONATE := VStr p1 |};
          ps_stamp := ps_stamp st; ps_site := ps_site st |}
  else if String.eqb p0 "Only" then
    do p3 <- index parts 3;
    Ok {| ps_dict := d; ps_stamp := ps_stamp st; ps_site := Some p3 |}
  else if String.eqb p0 "Generated" then
    do p2 <- index parts 2;
    do p3 <- index parts 3;
    do p4 <- index parts 4;
    let time := p2 +:+ " " +:+ p3 +:+ " " +:+ p4 in
    match strptime time with
    | Some stamp =>
        Ok {| ps_dict := d; ps_stamp := Some stamp; ps_site := ps_site st |}
    | None => Raise ValueError
    end
  else Raise (CommandException msg_invalid_command).

Fixpoint parse_lines (st : parse_state) (lines : list string)
    : result parse_state :=
  match lines with
  | [] => Ok st
  | line :: lines' => do st' <- parse_line st line; parse_lines st' lines'
  end.

(** The [try] block: the loop, and the handler of [IndexError] and
    [ValueError]. *)
Definition parse_message (message : string) : result parse_state :=
  match parse_lines initial_parse_state (split "009" message) with
  | Raise IndexError | Raise ValueError =>
      Raise (CommandException msg_invalid_information)
  | r => r
  end.

(** [abs((now - stamp).seconds) > message_expiry] *)
Definition too_old (cfg : Config) (now stamp : datetime) : bool :=
  Z.ltb (default 90660 (cfg_message_expiry cfg))
        (Z.abs (td_seconds (now - stamp))).

(** [not site or site != current_app.config['site_title']]; reading a
    title that is not configured is a [KeyError]. *)
Definition check_site (cfg : Config) (site : option string) : result unit :=
  match site with
  | None => Raise (CommandException msg_invalid_website)
  | Some s =>
      if String.eqb s "" then Raise (CommandException msg_invalid_website)
      else
        match cfg_site_title cfg with
        | None => Raise KeyError
        | Some title =>
            if String.eqb s title then Ok tt
            else Raise (CommandException msg_invalid_website)
        end
  end.

(** The checks of [verify_message] that come before the coin daemon is
    asked. *)
Definition check_message (cfg : Config) (now : datetime) (message : string)
    : result update_dict :=
  do st <- parse_message message;
  match ps_stamp st with
  | None => Raise (CommandException msg_no_stamp)
  | Some stamp =>
      if too_old cfg now stamp then Raise (CommandException msg_too_old)
      else
        do _ <- check_site cfg (ps_site st);
        Ok (ps_dict st)
  end.

(** The store of settings rows, as the database holds it ([committed])
    and as the open session sees it ([pending]). *)
Variable Settings : Type.

Record db_session : Type := mk_db_session {
  committed : Settings;
  pending : Settings
}.

(** [curr.coinserv.verifymessage(address, signature, message)], the
    escape-decoding of its last argument included: a fault of the
    decoding is a fault other than [CoinRPCException]. *)
Variable verifymessage : string -> string -> string -> oracle_reply.

(** [UserSettings.update(address, *args)] on the open session: the
    session as the call leaves it, and whether it raised. *)
Variable UserSettings_update :
  string -> message_vals -> Settings -> result unit * Settings.

(** What the database answers when it is asked to commit the pending
    rows: it takes them, or it raises. *)
Variable commit_outcome : Settings -> result unit.

(** [db.session.commit()]: a commit that raises leaves the committed
    rows as they were. *)
Definition commit (s : db_session) : result unit * db_session :=
  match commit_outcome (pending s) with
  | Ok _ => (Ok tt, {| committed := pending s; pending := pending s |})
  | Raise e => (Raise e, s)
  end.

(** [db.session.rollback()] *)
Definition rollback (s : db_session) : db_session :=
  {| committed := committed s; pending := committed s |}.

Definition verify_message (cfg : Config) (now : datetime)
    (address message signature : string) (s : db_session)
    : result unit * db_session :=
  match check_message cfg now message with
  | Raise e => (Raise e, s)
  | Ok update_dict =>
      match verifymessage address signature message with
      | CoinRPCException reason =>
          (Raise (CommandException (msg_rpc_rejected reason)), s)
      | OtherFault => (Raise (CommandException msg_no_coinserver), s)
      | Verified false => (Raise (CommandException msg_invalid_signature), s)
      | Verified true =>
          match validate_message_vals check_valid_currency update_dict with
          | Raise e => (Raise e, s)
          | Ok args =>
              match UserSettings_update address args (pending s) with
              | (Raise SQLAlchemyError, p) =>
                  (Raise (CommandException msg_save_error),
                   rollback {| committed := committed s; pending := p |})
              | (Raise e, p) =>
                  (Raise e, {| committed := committed s; pending := p |})
              | (Ok _, p) =>
                  commit {| committed := committed s; pending := p |}
              end
          end
      end
  end.

End Verification.

Arguments mk_db_session {Settings} _ _.
Arguments committed {Settings} _.
Arguments pending {Settings} _.
Arguments commit {Settings} _ _.
Arguments rollback {Settings} _.
Arguments verify_message _ _ {Settings} _ _ _ _ _ _ _ _ _.

(** ** A model of [strptime]

    [datetime.strptime] for the format ['%Y-%m-%d %H:%M:%S.%f %Z'], on
    zero-padded fields and the zone names UTC and GMT. It is one possible
    value of the [strptime] variable above, used to run the functions on
    concrete messages. *)

Definition all_digits (s : string) : bool :=
  forallb is_digit (list_ascii_of_string s).

Definition string_value (s : string) : Z :=
  Z.of_N (digits_value (list_ascii_of_string s)).

(** A field of exactly [width] digits. *)
Definition fixed_field (width : nat) (s : string) : option Z :=
  if Nat.eqb (String.length s) width && all_digits s
  then Some (string_value s) else None.

(** [%f]: one to six digits, padded with zeros on the right. *)
Definition fraction_field (s : string) : option Z :=
  let n := String.length s in
  if Nat.leb 1 n && Nat.leb n 6 && all_digits s
  then Some (string_value s * 10 ^ Z.of_nat (6 - n)) else None.

Definition is_leap (y : Z) : bool :=
  Z.eqb (y mod 4) 0 && (negb (Z.eqb (y mod 100) 0) || Z.eqb (y mod 400) 0).

Definition days_in_month (y m : Z) : Z :=
  if Z.eqb m 2 then (if is_leap y then 29 else 28)
  else if Z.eqb m 4 || Z.eqb m 6 || Z.eqb m 9 || Z.eqb m 11 then 30
  else 31.

(** Days from 1970-01-01 to the given date of the proleptic Gregorian
    calendar. *)
Definition days_from_civil (y m d : Z) : Z :=
  let y' := if Z.leb m 2 then y - 1 else y in
  let era := y' / 400 in
  let yoe := y' - era * 400 in
  let doy := (153 * (if Z.ltb 2 m then m - 3 else m + 9) + 2) / 5 + d - 1 in
  let doe := yoe * 365 + yoe / 4 - yoe / 100 + doy in
  era * 146097 + doe - 719468.

Definition in_range (lo hi x : Z) : bool := Z.leb lo x && Z.leb x hi.

Definition strptime_utc (time : string) : option datetime :=
  match split " " time with
  | [date; clock; zone] =>
      match split "-" date, split ":" clock with
      | [ys; ms; ds], [Hs; Ms; Sfs] =>
          match split "." Sfs with
          | [Ss; fs] =>
              y ← fixed_field 4 ys;
              m ← fixed_field 2 ms;
              d ← fixed_field 2 ds;
              H ← fixed_field 2 Hs;
              M ← fixed_field 2 Ms;
              S ← fixed_field 2 Ss;
              f ← fraction_field fs;
              if in_range 1 9999 y && in_range 1 12 m
                 && in_range 1 (days_in_month y m) d
                 && in_range 0 23 H && in_range 0 59 M && in_range 0 59 S
                 && (String.eqb (lower_string zone) "utc"
                     || String.eqb (lower_string zone) "gmt")
              then Some (days (days_from_civil y m d) + hours H + minutes M
                         + S * us_per_second + f)
              else None
          | _ => None
          end
      | _, _ => None
      end
  | _ => None
  end.

(** ** Vocabulary of the statements *)

(** The total held in a bucket; a missing worker or bucket counts 0. *)
Definition bucket_total (workers : gmap string (gmap Z Z))
    (key : string) (stamp : Z) : Z :=
  default 0 (workers !! key ≫= fun inner => inner !! stamp).

(** What one record does to the buckets of its worker. *)
Definition add_to_bucket (stamp value : Z) (inner : gmap Z Z) : gmap Z Z :=
  <[stamp := default 0 (inner !! stamp) + value]> inner.

Section Buckets.

Variable floor_time : slice_typ -> datetime -> datetime.
Variable upper_floor_time : slice_typ -> datetime -> datetime.

(** The records that land in bucket [stamp] of worker [key]. *)
Definition in_bucket (typ : slice_typ) (worker : option string)
    (key : string) (stamp : Z) (slc : Slice) : bool :=
  String.eqb (compress_key worker slc) key
  && Z.eqb (compress_stamp floor_time upper_floor_time typ worker slc) stamp.

End Buckets.

(** The sum of the pool's one-minute shares stamped in [[lo, hi]]. *)
Definition pool_shares_between (db : database) (lo hi : datetime) : Z :=
  sum_values
    (List.filter (fun r => String.eqb (slc_user r) "pool"
                           && Z.leb lo (slc_time r) && Z.leb (slc_time r) hi)
       (db OneMinuteShare)).

(** The pool hash rate as the per-user rate is computed: the shares
    stamped in [[now - 12min, now - 2min)], converted to hashes, per
    million and per second of the ten minutes. *)
Definition per_user_style_pool_hashrate {R : Rounding} (cfg : Config)
    (db : database) (now : datetime) : Q :=
  let shares :=
    sum_values
      (List.filter (fun r => String.eqb (slc_user r) "pool"
                             && Z.leb (now - minutes 12) (slc_time r)
                             && Z.ltb (slc_time r) (now - minutes 2))
         (db OneMinuteShare)) in
  fquot (fquot (shares_to_hashes cfg shares) 1000000) 600.

(** An address entry that passes both tests of the address loop. *)
Definition address_passes (check : string -> currency_check)
    (addr : string) : Prop :=
  String.length addr = 34%nat /\ check addr <> CheckFalse.

(** *** A small world to run the functions in *)

(** Modelled from the spec: [floor_time] of [models.py] rounds a
    timestamp down to the start of its bucket of one minute, five
    minutes or one hour. *)
Definition slice_width (typ : slice_typ) : timedelta :=
  match typ with
  | OneMinuteShare | OneMinuteReject => minutes 1
  | FiveMinuteShare | FiveMinuteReject => minutes 5
  | OneHourShare | OneHourReject => hours 1
  end.

Definition spec_floor_time (typ : slice_typ) (dt : datetime) : datetime :=
  dt - dt mod slice_width typ.

(** Modelled from the spec: the coarser type a type is compressed into. *)
Definition spec_upper (typ : slice_typ) : slice_typ :=
  match typ with
  | OneMinuteShare => FiveMinuteShare
  | OneMinuteReject => FiveMinuteReject
  | _ => match typ with
         | FiveMinuteShare | OneHourShare => OneHourShare
         | _ => OneHourReject
         end
  end.

Definition spec_upper_floor_time (typ : slice_typ) (dt : datetime) : datetime :=
  spec_floor_time (spec_upper typ) dt.

(** Modelled from the spec: the lookback span of a type, larger for the
    coarser types. *)
Definition spec_window (typ : slice_typ) : timedelta :=
  match typ with
  | OneMinuteShare | OneMinuteReject => hours 1
  | FiveMinuteShare | FiveMinuteReject => days 1
  | OneHourShare | OneHourReject => days 30
  end.

(** 2024-01-01 00:00:00 UTC *)
Definition t0 : datetime := 1704067200 * us_per_second.

Definition share (user worker : string) (time : datetime) (value : Z) : Slice :=
  {| slc_user := user; slc_worker := worker; slc_device := "gpu0";
     slc_typ := "acc"; slc_time := time; slc_value := value |}.

Definition example_minutes : list Slice :=
  [ share "addr1" "rig1" (t0 - minutes 7) 5;
    share "addr1" "rig2" (t0 - minutes 6) 7;
    share "addr1" "rig1" (t0 - minutes 7 + 30 * us_per_second) 11;
    share "pool" "" (t0 - minutes 5) 600;
    share "pool" "" (t0 - minutes 2) 60 ].

Definition example_rejects : list Slice :=
  [ share "addr1" "rig1" (t0 - minutes 7) 4;
    share "pool_stale" "" (t0 - minutes 5) 200 ].

Definition example_db : database :=
  fun typ =>
    match typ with
    | OneMinuteShare => example_minutes
    | OneMinuteReject => example_rejects
    | OneHourShare => [share "pool" "" (t0 - hours 3) 600]
    | OneHourReject => [share "pool_stale" "" (t0 - hours 3) 200]
    | _ => []
    end.

(** The same store, yielding the one-minute shares in reverse. *)
Definition example_db_rev : database :=
  fun typ =>
    match typ with
    | OneMinuteShare => rev example_minutes
    | _ => example_db typ
    end.

(** Share values are counts: no record of the store is negative. *)
Definition nonneg_store (db : database) : Prop :=
  forall typ, Forall (fun r => 0 <= slc_value r) (db typ).

Definition nonneg_worker (w : worker_acc) : Prop :=
  0 <= w_accepted w /\ 0 <= w_rejected w.

Definition nonneg_workers (ws : gmap string worker_acc) : Prop :=
  forall k w, ws !! k = Some w -> nonneg_worker w.

(** The online feed of the example: one worker that has no shares. *)
Definition example_cache (key : string) : option (list (string * string)) :=
  if String.eqb key "addr_online_addr1" then Some [("rig3", "host1")] else None.

Definition example_rig1 : worker_stat :=
  {| ws_name := "rig1"; ws_accepted := 16; ws_rejected := 4;
     ws_last_10_shares := 16; ws_online := false; ws_server := None;
     ws_last_10_hashrate := 1048576 # 600000000;
     ws_efficiency := Some (1600 # 20) |}.

Definition example_rig2 : worker_stat :=
  {| ws_name := "rig2"; ws_accepted := 7; ws_rejected := 0;
     ws_last_10_shares := 7; ws_online := false; ws_server := None;
     ws_last_10_hashrate := 458752 # 600000000;
     ws_efficiency := Some (700 # 7) |}.

Definition example_rig3 : worker_stat :=
  {| ws_name := "rig3"; ws_accepted := 0; ws_rejected := 0;
     ws_last_10_shares := 0; ws_online := true; ws_server := Some "";
     ws_last_10_hashrate := 0 # 600000000;
     ws_efficiency := None |}.

Definition example_stats : user_stats :=
  {| us_workers := [example_rig1; example_rig2; example_rig3];
     us_donation_perc := 0;
     us_last_10_shares := 23;
     us_last_10_hashrate := 1507328 # 600000000 |}.

(** *** A small world to verify messages in *)

Definition tab : string := String "009" "".

(** The message of the specification's end-to-end example. *)
Definition example_message : string :=
  "SETADDR BTC 1A1zP1eP5QGefi2DMPTfTL5SLmv7DivfNa" +:+ tab
  +:+ "Generated at 2024-01-01 00:00:00.000 UTC" +:+ tab
  +:+ "Only valid for PoolSite".

(** The same message with a donation that is not a number. *)
Definition example_message_bad_donation : string :=
  "SETDONATE abc" +:+ tab
  +:+ "Generated at 2024-01-01 00:00:00.000 UTC" +:+ tab
  +:+ "Only valid for PoolSite".

Definition example_config : Config :=
  {| cfg_message_expiry := None;
     cfg_site_title := Some "PoolSite";
     cfg_hashes_per_share := None;
     cfg_monitor_addrs := None |}.

(** A store that logs the updates it is sent. *)
Definition example_settings : Type := list (string * message_vals).

Definition example_update (address : string) (args : message_vals)
    (p : example_settings) : result unit * example_settings :=
  (Ok tt, (p ++ [(address, args)])%list).

(** An update that writes to the session and then fails. *)
Definition example_failing_update (address : string) (args : message_vals)
    (p : example_settings) : result unit * example_settings :=
  (Raise SQLAlchemyError, (p ++ [(address, args)])%list).

Definition example_session : db_session example_settings :=
  {| committed := []; pending := [] |}.

Definition oracle_accepts (address signature message : string) : oracle_reply :=
  Verified true.

Definition oracle_refuses (address signature message : string) : oracle_reply :=
  Verified false.

Definition every_address_valid (addr : string) : currency_check :=
  CheckCurrency "BTC".

(** The dict of a message that only sets the donation. *)
Definition donation_only (v : pyval) : update_dict :=
  {| SETADDR := ∅; DELADDR := []; MAKEANON := VBool false; SETDONATE := v |}.

(** The dict of a message that only sets one address. *)
Definition address_only (curr addr : string) : update_dict :=
  {| SETADDR := {[ curr := addr ]}; DELADDR := []; MAKEANON := VBool false;
     SETDONATE := VInt 0 |}.

(** A configuration with a maximum age of one hour. *)
Definition one_hour_config : Config :=
  {| cfg_message_expiry := Some 3600;
     cfg_site_title := Some "PoolSite";
     cfg_hashes_per_share := None;
     cfg_monitor_addrs := None |}.

(** A database that takes every commit, and one that takes none. *)
Definition database_accepts (p : example_settings) : result unit := Ok tt.

Definition database_refuses (p : example_settings) : result unit :=
  Raise SQLAlchemyError.

(** A message that sets the donation and no address. *)
Definition example_message_donation : string :=
  "SETDONATE 5" +:+ tab
  +:+ "Generated at 2024-01-01 00:00:00.000 UTC" +:+ tab
  +:+ "Only valid for PoolSite".

(** What that message commits for [addr1]. *)
Definition example_donation_commit : example_settings :=
  [("addr1",
    {| mv_set_addrs := ∅;
       mv_del_addrs := [];
       mv_donate_perc := DFinite false 5 (-2);
       mv_anon := VBool false |})].

(** What the example message commits for [addr1]. *)
Definition example_commit : example_settings :=
  [("addr1",
    {| mv_set_addrs := {[ "BTC" := "1A1zP1eP5QGefi2DMPTfTL5SLmv7DivfNa" ]};
       mv_del_addrs := [];
       mv_donate_perc := DFinite false 0 (-2);
       mv_anon := VBool false |})].

(** ** Vocabulary of the further statements *)

(** *** Worker statistics *)

Section WorkerRows.

Variable floor_time : slice_typ -> datetime -> datetime.
Variable window : slice_typ -> timedelta.

(** The rows the first loop of [collect_user_stats] chains, and the
    rows the second loop chains. *)
Definition accept_rows (db : database) (now : datetime) (address : string)
    : list Slice :=
  (get_typ floor_time window db now FiveMinuteShare (Some address) true None None
   ++ get_typ floor_time window db now OneMinuteShare (Some address) true None
        None)%list.

Definition reject_rows (db : database) (now : datetime) (address : string)
    : list Slice :=
  (get_typ floor_time window db now FiveMinuteReject (Some address) true None
     None
   ++ get_typ floor_time window db now OneMinuteReject (Some address) true None
        None)%list.

End WorkerRows.

(** The rows of one worker. *)
Definition of_worker (name : string) (rows : list Slice) : list Slice :=
  List.filter (fun r => String.eqb (slc_worker r) name) rows.

(** The ten-minute window of [collect_user_stats]. *)
Definition in_last_10 (now : datetime) (r : Slice) : bool :=
  Z.leb (floor_minute now - minutes 12) (slc_time r)
  && Z.ltb (slc_time r) (floor_minute now - minutes 2).

(** The hosts the online feed reports for a worker, in feed order. *)
Definition feed_hosts (name : string) (online : list (string * string))
    : list string :=
  List.map snd (List.filter (fun e => String.eqb (fst e) name) online).

(** The dict of a worker, the template when it has none yet. *)
Definition view (workers : gmap string worker_acc) (name : string) : worker_acc :=
  default def_worker (workers !! name).

Definition name_lt (a b : worker_stat) : Prop :=
  String.ltb (ws_name a) (ws_name b) = true.

(** What the loops of [collect_user_stats] do to the dict of the
    worker they touch. *)
Definition accept_update (twelve_ago two_ago : datetime) (m : Slice)
    (w : worker_acc) : worker_acc :=
  {| w_accepted := w_accepted w + slc_value m;
     w_rejected := w_rejected w;
     w_last_10_shares :=
       w_last_10_shares w
       + (if Z.leb twelve_ago (slc_time m) && Z.ltb (slc_time m) two_ago
          then slc_value m else 0);
     w_online := w_online w;
     w_server := w_server w |}.

Definition reject_update (m : Slice) (w : worker_acc) : worker_acc :=
  {| w_accepted := w_accepted w;
     w_rejected := w_rejected w + slc_value m;
     w_last_10_shares := w_last_10_shares w;
     w_online := w_online w;
     w_server := w_server w |}.

Definition online_update (cfg : Config) (host : string) (w : worker_acc)
    : worker_acc :=
  {| w_accepted := w_accepted w;
     w_rejected := w_rejected w;
     w_last_10_shares := w_last_10_shares w;
     w_online := true;
     w_server := Some (stratum_of cfg host) |}.

(** The dict [collect_user_stats] accumulates for a worker, read off the
    rows and the feed. *)
Definition worker_summary (cfg : Config) (accepts rejects : list Slice)
    (lo hi : datetime) (online : list (string * string)) (name : string)
    : worker_acc :=
  {| w_accepted := sum_values (of_worker name accepts);
     w_rejected := sum_values (of_worker name rejects);
     w_last_10_shares :=
       sum_values
         (List.filter (fun r => Z.leb lo (slc_time r) && Z.ltb (slc_time r) hi)
            (of_worker name accepts));
     w_online := negb (Nat.eqb (List.length (feed_hosts name online)) 0);
     w_server :=
       match List.last (List.map Some (feed_hosts name online)) None with
       | Some host => Some (stratum_of cfg host)
       | None => None
       end |}.


(** *** Pool windows *)

(** The pool's one-minute shares stamped exactly twelve or exactly two
    minutes before [now]. *)
Definition pool_boundary_shares (db : database) (now : datetime) : Z :=
  sum_values
    (List.filter
       (fun r => String.eqb (slc_user r) "pool"
                 && (Z.eqb (slc_time r) (now - minutes 12)
                     || Z.eqb (slc_time r) (now - minutes 2)))
       (db OneMinuteShare)).

(** The two record types [get_pool_acc_rej] reads for a span. *)
Definition fine_span (td : option timedelta) : bool :=
  Z.leb (default (days 30) td) (days 1).

(** A store of the pool's hour and five-minute records, of several
    ages, with a record of a user among them. *)
Definition example_pool_db : database :=
  fun typ =>
    match typ with
    | OneHourShare =>
        [ share "pool" "" (t0 - days 2) 600;
          share "addr1" "rig1" (t0 - days 2) 50;
          share "pool" "" (t0 - days 10) 300 ]
    | OneHourReject =>
        [ share "pool_stale" "" (t0 - days 2) 20;
          share "pool_stale" "" (t0 - days 10) 5 ]
    | FiveMinuteShare =>
        [ share "pool" "" (t0 - hours 1) 40;
          share "pool" "" (t0 - hours 5) 70 ]
    | FiveMinuteReject =>
        [ share "pool_stale" "" (t0 - hours 1) 2;
          share "pool_stale" "" (t0 - hours 5) 3 ]
    | _ => []
    end.


(** ** Blocks *)

(** The columns of [Block] that this module reads. *)
Record Block : Type := mk_block {
  blk_user : string;
  blk_merged_type : option string;
  blk_algo : option string;
  blk_height : Z;
  blk_found_at : datetime;
  blk_last_share_id : option Z
}.

(** [filter_by(column=v)]: [None] selects the rows where the column is
    null. *)
Definition column_eqb (column v : option string) : bool :=
  match column, v with
  | None, None => true
  | Some a, Some b => String.eqb a b
  | _, _ => false
  end.

Definition height_ge (a b : Block) : Prop := blk_height b <= blk_height a.

#[global] Instance height_ge_dec a b : Decision (height_ge a b).
Proof. unfold height_ge. apply _. Defined.

Definition time_le (a b : Slice) : Prop := slc_time a <= slc_time b.

#[global] Instance time_le_dec a b : Decision (time_le a b).
Proof. unfold time_le. apply _. Defined.

(** [query.order_by(Block.height.desc()).first()] *)
Definition first_by_height_desc (blocks : list Block) : option Block :=
  head (merge_sort height_ge blocks).

(** [query.order_by(typ.time).first()] *)
Definition first_by_time (rows : list Slice) : option Slice :=
  head (merge_sort time_le rows).

Definition last_block_time_nocache (blocks : list Block) (db : database)
    (now : datetime) (algo merged_type : option string) : datetime :=
  match first_by_height_desc
          (List.filter
             (fun b => column_eqb (blk_merged_type b) merged_type
                       && column_eqb (blk_algo b) algo) blocks) with
  | Some last_block => blk_found_at last_block
  | None =>
      match first_by_time (db OneHourShare) with
      | Some hour => slc_time hour
      | None =>
          match first_by_time (db FiveMinuteShare) with
          | Some five => slc_time five
          | None =>
              match first_by_time (db OneMinuteShare) with
              | Some minute => slc_time minute
              | None => now
              end
          end
      end
  end.

Definition last_block_share_id_nocache (blocks : list Block)
    (algorithm merged_type : option string) : Z :=
  match first_by_height_desc
          (List.filter (fun b => column_eqb (blk_merged_type b) merged_type)
             blocks) with
  | None => 0
  | Some last_block =>
      match blk_last_share_id last_block with
      | None => 0
      | Some id => if Z.eqb id 0 then 0 else id
      end
  end.

Definition last_block_found (blocks : list Block)
    (algorithm merged_type : option string) : option Block :=
  first_by_height_desc
    (List.filter (fun b => column_eqb (blk_merged_type b) merged_type) blocks).

Definition last_blockheight (blocks : list Block)
    (merged_type : option string) : Z :=
  match last_block_found blocks None merged_type with
  | None => 0
  | Some last => blk_height last
  end.

(** The earliest stamp of the first of the three share tables that is
    not empty. *)
Definition earliest_in (rows : list Slice) (t : datetime) : Prop :=
  (exists r, r ∈ rows /\ slc_time r = t)
  /\ forall r, r ∈ rows -> t <= slc_time r.

(** A store of blocks to run the functions on. *)
Definition example_blocks : list Block :=
  [ {| blk_user := "addr1"; blk_merged_type := None; blk_algo := Some "x11";
       blk_height := 100; blk_found_at := t0 - hours 5;
       blk_last_share_id := Some 4000 |};
    {| blk_user := "addr2"; blk_merged_type := None; blk_algo := Some "x11";
       blk_height := 102; blk_found_at := t0 - hours 1;
       blk_last_share_id := Some 4200 |};
    {| blk_user := "addr1"; blk_merged_type := Some "DOGE";
       blk_algo := Some "scrypt";
       blk_height := 7000; blk_found_at := t0 - hours 2;
       blk_last_share_id := None |} ].


(** ** CurrencyKeeper *)

(** The attributes of a currency object that the keeper reads;
    [exchangeable] is [None] on an object without that attribute. *)
Record Currency : Type := mk_currency {
  currency_name : string;
  address_version : list Z;
  exchangeable : option bool
}.

#[global] Instance Currency_eq_dec : EqDecision Currency.
Proof. solve_decision. Defined.

(** The keeper: the items of the dict, the instance attributes that
    [setattr] writes, and [version_lut]. Currency names are taken not to
    clash with the attributes the object has of its own. *)
Record CurrencyKeeper : Type := mk_keeper {
  ck_items : gmap string Currency;
  ck_attrs : gmap string Currency;
  version_lut : gmap Z Currency
}.

(** [CurrencyKeeper()] *)
Definition empty_keeper : CurrencyKeeper :=
  {| ck_items := ∅; ck_attrs := ∅; version_lut := ∅ |}.

Definition setcurr (self : CurrencyKeeper) (val : Currency) : CurrencyKeeper :=
  {| ck_attrs := <[currency_name val := val]> (ck_attrs self);
     ck_items := <[currency_name val := val]> (ck_items self);
     version_lut :=
       fold_left (fun lut ver => <[ver := val]> lut) (address_version val)
         (version_lut self) |}.

(** [self.name]: the instance attribute, and through [__getattr__] the
    item of the dict. *)
Definition keeper_getattr (self : CurrencyKeeper) (name : string)
    : option Currency :=
  match ck_attrs self !! name with
  | Some c => Some c
  | None => ck_items self !! name
  end.

Definition payout_currencies (self : CurrencyKeeper) : list Currency :=
  List.filter (fun c => match exchangeable c with
                        | Some true => true
                        | _ => false
                        end)
    (List.map snd (map_to_list (ck_items self))).

(** The two [AttributeError]s of the lookups, told apart by their
    text. *)
Inductive keeper_error : Type :=
  | VersionNotAvailable
  | AddressNotConfigured.

Definition lookup_version (self : CurrencyKeeper) (version : Z)
    : Currency + keeper_error :=
  match version_lut self !! version with
  | Some c => inl c
  | None => inr VersionNotAvailable
  end.

(** [available_versions] *)
Definition available_versions (self : CurrencyKeeper) : gmap Z string :=
  currency_name <$> version_lut self.

Section Keeper.

(** [cryptokit.base58.address_version], the version byte of an
    address. *)
Variable base58_address_version : string -> Z.

Definition lookup_address (self : CurrencyKeeper) (address : string)
    : Currency + keeper_error :=
  let ver := base58_address_version address in
  match lookup_version self ver with
  | inl c => inl c
  | inr _ => inr AddressNotConfigured
  end.

End Keeper.

(** Does the currency list the version. *)
Definition lists_version (ver : Z) (c : Currency) : bool :=
  bool_decide (ver ∈ address_version c).

(** The keeper after a sequence of [setcurr] calls. *)
Definition register (self : CurrencyKeeper) (vals : list Currency)
    : CurrencyKeeper :=
  fold_left setcurr vals self.

Definition example_btc : Currency :=
  {| currency_name := "BTC"; address_version := [0; 5];
     exchangeable := Some true |}.

Definition example_btc_new : Currency :=
  {| currency_name := "BTC"; address_version := [0];
     exchangeable := None |}.

Definition example_ltc : Currency :=
  {| currency_name := "LTC"; address_version := [48; 5];
     exchangeable := Some true |}.


(** ** resort_recent_visit *)

(** [sorted(items, key=lambda x: x[1], reverse=True)]: the sort is
    stable, entries with equal visits keep the order of the dict. *)
Fixpoint insert_desc (x : string * Z) (l : list (string * Z))
    : list (string * Z) :=
  match l with
  | [] => [x]
  | y :: l' => if Z.leb (snd y) (snd x) then x :: l else y :: insert_desc x l'
  end.

Definition sorted_desc (items : list (string * Z)) : list (string * Z) :=
  fold_right insert_desc [] items.

(** The [recent] dict, as the list of its items in iteration order, and
    [session['recent_users']]. *)
Record visit_state : Type := mk_visit_state {
  vs_recent : list (string * Z);
  vs_recent_users : list (string * pynum)
}.

Definition sum_visits (l : list (string * Z)) : Z :=
  fold_left (fun acc t => acc + snd t) l 0.

Definition resort_recent_visit {R : Rounding} (recent : list (string * Z))
    : result unit * visit_state :=
  let ranked := sorted_desc recent in
  let kept := take 21 ranked in
  let dropped := drop 21 ranked in
  let recent' :=
    List.filter
      (fun e => negb (existsb (String.eqb (fst e)) (List.map fst dropped)))
      recent in
  let total := sum_visits kept in
  match mapM (fun t => do q <- float_div (float (snd t)) total;
                       Ok (fst t, PyFloat q)) kept with
  | Ok fractions =>
      (Ok tt, {| vs_recent := recent'; vs_recent_users := fractions |})
  | Raise e =>
      (Raise e,
       {| vs_recent := recent';
          vs_recent_users := List.map (fun t => (fst t, PyInt (snd t))) kept |})
  end.

(** The number a session entry holds. *)
Definition entry_value (e : string * pynum) : Q :=
  match snd e with
  | PyInt z => inject_Z z
  | PyFloat q => q
  end.

Definition sum_entries (l : list (string * pynum)) : Q :=
  fold_right (fun e acc => (entry_value e + acc)%Q) 0%Q l.

Definition visits_ge (a b : string * Z) : Prop := snd b <= snd a.

Definition example_recent : list (string * Z) :=
  [("addrA", 3); ("addrB", 1); ("addrC", 4)].

(** Twenty-two addresses: one more than the function keeps. *)
Definition example_crowd : list (string * Z) :=
  [("addr_a", 5); ("addr_b", 3); ("addr_c", 9); ("addr_d", 1);
   ("addr_e", 7); ("addr_f", 2); ("addr_g", 8); ("addr_h", 4);
   ("addr_i", 6); ("addr_j", 10); ("addr_k", 12); ("addr_l", 11);
   ("addr_m", 15); ("addr_n", 14); ("addr_o", 13); ("addr_p", 20);
   ("addr_q", 19); ("addr_r", 18); ("addr_s", 17); ("addr_t", 16);
   ("addr_u", 21); ("addr_v", 22)].


(** ** Vocabulary of the message statements *)

(** [line.split(" ")[0]], the word the parsing loop dispatches on. *)
Definition first_word (line : string) : string :=
  hd "" (split " " line).

(** The message has a line whose first word is [word]. *)
Definition has_line (word message : string) : Prop :=
  exists line, line ∈ split "009" message /\ first_word line = word.

(** * Theorems *)

(** ** Sums *)

Lemma sum_values_from (rows : list Slice) (a : Z) :
  fold_left (fun acc r => acc + slc_value r) rows a = a + sum_values rows.
Proof.
  unfold sum_values. revert a.
  induction rows as [|r rows IH]; intros a; simpl; [lia|].
  rewrite (IH (a + slc_value r)), (IH (0 + slc_value r)). lia.
Qed.

Lemma sum_values_cons (r : Slice) (rows : list Slice) :
  sum_values (r :: rows) = slc_value r + sum_values rows.
Proof. unfold sum_values at 1. simpl. rewrite sum_values_from. lia. Qed.

Lemma sum_values_nonneg (rows : list Slice) :
  Forall (fun r => 0 <= slc_value r) rows -> 0 <= sum_values rows.
Proof.
  induction 1 as [|r rows Hr _ IH]; [unfold sum_values; simpl; lia|].
  rewrite sum_values_cons. lia.
Qed.

Lemma filter_perm {A : Type} (p : A -> bool) (l l' : list A) :
  Permutation l l' -> Permutation (List.filter p l) (List.filter p l').
Proof.
  induction 1 as [|x l l' _ IH|x y l|l l' l'' _ IH1 _ IH2]; simpl.
  - constructor.
  - destruct (p x); [constructor|]; exact IH.
  - destruct (p x), (p y); try apply Permutation_refl. apply perm_swap.
  - eapply Permutation_trans; eauto.
Qed.

(** ** compress_typ *)

Section CompressFacts.

Variable floor_time : slice_typ -> datetime -> datetime.
Variable upper_floor_time : slice_typ -> datetime -> datetime.
Variable window : slice_typ -> timedelta.

Abbreviation step := (compress_step floor_time upper_floor_time).
Abbreviation stamp_of := (compress_stamp floor_time upper_floor_time).
Abbreviation rows_of := (get_typ floor_time window).

(** One iteration touches the dict of the record's worker only, and
    there it adds the value to the record's bucket. *)
Lemma compress_step_lookup typ worker (w : gmap string (gmap Z Z)) slc k :
  step typ worker w slc !! k =
    if decide (k = compress_key worker slc)
    then Some (add_to_bucket (stamp_of typ worker slc) (slc_value slc)
                 (default ∅ (w !! k)))
    else w !! k.
Proof.
  unfold compress_step, setdefault, add_to_bucket.
  set (key := compress_key worker slc). set (stamp := stamp_of typ worker slc).
  destruct (decide (k = key)) as [->|Hne].
  - destruct (w !! key) as [inner|] eqn:Hw.
    + rewrite !lookup_alter_eq, Hw. simpl. f_equal.
      destruct (inner !! stamp) as [t|] eqn:Hi.
      * apply map_eq. intros s. destruct (decide (s = stamp)) as [->|Hs].
        -- rewrite lookup_alter_eq, lookup_insert_eq, Hi. reflexivity.
        -- rewrite lookup_alter_ne, lookup_insert_ne by congruence. reflexivity.
      * apply map_eq. intros s. destruct (decide (s = stamp)) as [->|Hs].
        -- rewrite lookup_alter_eq, !lookup_insert_eq. reflexivity.
        -- rewrite lookup_alter_ne, !lookup_insert_ne by congruence. reflexivity.
    + rewrite !lookup_alter_eq, lookup_insert_eq. simpl. f_equal.
      rewrite lookup_empty.
      apply map_eq. intros s. destruct (decide (s = stamp)) as [->|Hs].
      * rewrite lookup_alter_eq, !lookup_insert_eq. reflexivity.
      * rewrite lookup_alter_ne, !lookup_insert_ne by congruence. reflexivity.
  - rewrite !lookup_alter_ne by congruence.
    destruct (w !! key); [reflexivity|].
    rewrite lookup_insert_ne by congruence. reflexivity.
Qed.

Lemma add_to_bucket_comm s1 v1 s2 v2 (inner : gmap Z Z) :
  add_to_bucket s1 v1 (add_to_bucket s2 v2 inner) =
  add_to_bucket s2 v2 (add_to_bucket s1 v1 inner).
Proof.
  unfold add_to_bucket. apply map_eq. intros s.
  destruct (decide (s1 = s2)) as [->|H12].
  - rewrite !lookup_insert_eq. simpl.
    destruct (decide (s = s2)) as [->|Hs].
    + rewrite !lookup_insert_eq. f_equal. lia.
    + rewrite !lookup_insert_ne by congruence. reflexivity.
  - rewrite (lookup_insert_ne _ s2 s1), (lookup_insert_ne _ s1 s2) by congruence.
    destruct (decide (s = s1)) as [->|Hs1].
    + rewrite lookup_insert_eq, lookup_insert_ne, lookup_insert_eq by congruence.
      reflexivity.
    + rewrite (lookup_insert_ne _ s1 s) by congruence.
      destruct (decide (s = s2)) as [->|Hs2].
      * rewrite !lookup_insert_eq. reflexivity.
      * rewrite !lookup_insert_ne by congruence. reflexivity.
Qed.

(** Two iterations commute. *)
Lemma compress_step_comm typ worker (w : gmap string (gmap Z Z)) a b :
  step typ worker (step typ worker w a) b =
  step typ worker (step typ worker w b) a.
Proof.
  apply map_eq. intros k. rewrite !compress_step_lookup.
  destruct (decide (k = compress_key worker a)) as [Ha|Ha];
    destruct (decide (k = compress_key worker b)) as [Hb|Hb];
    simpl; try reflexivity.
  f_equal. apply add_to_bucket_comm.
Qed.

Lemma compress_rows_perm typ worker (rows rows' : list Slice) :
  Permutation rows rows' ->
  forall w, compress_rows floor_time upper_floor_time typ worker rows w =
            compress_rows floor_time upper_floor_time typ worker rows' w.
Proof.
  unfold compress_rows.
  induction 1 as [|x l l' _ IH|x y l|l l' l'' _ IH1 _ IH2]; intros w; simpl.
  - reflexivity.
  - apply IH.
  - rewrite compress_step_comm. reflexivity.
  - rewrite IH1. apply IH2.
Qed.

Lemma compress_step_total typ worker (w : gmap string (gmap Z Z)) slc key stamp :
  bucket_total (step typ worker w slc) key stamp =
  bucket_total w key stamp
  + (if in_bucket floor_time upper_floor_time typ worker key stamp slc
     then slc_value slc else 0).
Proof.
  unfold bucket_total, in_bucket. rewrite compress_step_lookup.
  destruct (decide (key = compress_key worker slc)) as [->|Hk].
  - rewrite String.eqb_refl. simpl. unfold add_to_bucket.
    destruct (Z.eqb_spec (stamp_of typ worker slc) stamp) as [->|Hs].
    + rewrite lookup_insert_eq. simpl.
      destruct (w !! compress_key worker slc) as [inner|]; simpl;
        [reflexivity | rewrite lookup_empty; reflexivity].
    + rewrite lookup_insert_ne by congruence.
      destruct (w !! compress_key worker slc) as [inner|]; simpl;
        [lia | rewrite lookup_empty; simpl; lia].
  - destruct (String.eqb_spec (compress_key worker slc) key) as [E|_];
      [congruence|]. simpl. lia.
Qed.

(** Every bucket ends at its old total plus the values of the records
    that land in it. *)
Lemma compress_rows_total typ worker rows :
  forall (w : gmap string (gmap Z Z)) key stamp,
  bucket_total (compress_rows floor_time upper_floor_time typ worker rows w)
    key stamp =
  bucket_total w key stamp
  + sum_values
      (List.filter (in_bucket floor_time upper_floor_time typ worker key stamp)
         rows).
Proof.
  unfold compress_rows.
  induction rows as [|r rows IH]; intros w key stamp; simpl.
  - unfold sum_values. simpl. lia.
  - rewrite IH, compress_step_total.
    destruct (in_bucket floor_time upper_floor_time typ worker key stamp r);
      [rewrite sum_values_cons|]; lia.
Qed.

(** A bucket that exists is never dropped. *)
Lemma compress_step_keeps typ worker (w : gmap string (gmap Z Z)) slc key stamp :
  is_Some (w !! key ≫= fun inner => inner !! stamp) ->
  is_Some (step typ worker w slc !! key ≫= fun inner => inner !! stamp).
Proof.
  intros [t Ht]. rewrite compress_step_lookup.
  destruct (w !! key) as [inner|] eqn:Hw; simpl in Ht; [|discriminate].
  destruct (decide (key = compress_key worker slc)) as [_|_]; simpl.
  - unfold add_to_bucket.
    destruct (decide (stamp = stamp_of typ worker slc)) as [->|Hs].
    + rewrite lookup_insert_eq. eauto.
    + rewrite lookup_insert_ne by congruence. eauto.
  - eauto.
Qed.

Lemma get_typ_perm (db db' : database) now typ address wopen worker q_typ :
  Permutation (db typ) (db' typ) ->
  Permutation (rows_of db now typ address wopen worker q_typ)
              (rows_of db' now typ address wopen worker q_typ).
Proof.
  intros Hp. unfold get_typ.
  destruct (negb wopen); repeat apply filter_perm; exact Hp.
Qed.

(** C9: [compress_typ] only ever adds: each bucket of the [workers]
    mapping ends at the total it had before plus the values of the
    matching records; and when two stores hold the same records of the
    type in a different order, the resulting mappings are identical. *)
Theorem compress_typ_additive_order_independent
    (db db' : database) (now : datetime) (typ : slice_typ)
    (workers : gmap string (gmap Z Z)) (address worker : option string)
    (Hperm : Permutation (db typ) (db' typ)) :
  (forall key stamp,
      bucket_total
        (compress_typ floor_time upper_floor_time window db now typ workers
           address worker) key stamp =
      bucket_total workers key stamp
      + sum_values
          (List.filter
             (in_bucket floor_time upper_floor_time typ worker key stamp)
             (get_typ floor_time window db now typ address false worker
                None)))
  /\ compress_typ floor_time upper_floor_time window db' now typ workers
       address worker =
     compress_typ floor_time upper_floor_time window db now typ workers
       address worker.
Proof.
  split.
  - intros key stamp. unfold compress_typ. apply compress_rows_total.
  - unfold compress_typ. apply compress_rows_perm.
    apply get_typ_perm. apply Permutation_sym. exact Hperm.
Qed.

End CompressFacts.

Lemma compress_typ_order_witness :
  Permutation (example_db OneMinuteShare) (example_db_rev OneMinuteShare)
  /\ compress_typ spec_floor_time spec_upper_floor_time spec_window
       example_db_rev t0 OneMinuteShare ∅ (Some "addr1") None =
     compress_typ spec_floor_time spec_upper_floor_time spec_window
       example_db t0 OneMinuteShare ∅ (Some "addr1") None.
Proof.
  split.
  - apply Permutation_rev.
  - apply (compress_typ_additive_order_independent
             spec_floor_time spec_upper_floor_time spec_window
             example_db example_db_rev t0 OneMinuteShare ∅ (Some "addr1") None).
    apply Permutation_rev.
Defined.

(** The buckets of the example: both records of [rig1] fall into the
    same five-minute bucket. *)
Example compress_typ_example :
  compress_typ spec_floor_time spec_upper_floor_time spec_window
    example_db t0 OneMinuteShare ∅ (Some "addr1") None
  = <["rig1" := {[ 1704066600 := 16 ]}]> {[ "rig2" := {[ 1704066600 := 7 ]} ]}.
Proof. vm_compute. reflexivity. Qed.

(** ** Floats *)

Lemma exact_is_exact : exact_rounding (R := exact).
Proof. intros x. reflexivity. Qed.

Lemma exact_laws : RoundingLaws (R := exact).
Proof. split; unfold rnd, exact; auto; reflexivity. Qed.

Lemma grid_laws : RoundingLaws (R := grid).
Proof.
  split; unfold rnd, grid; try reflexivity.
  intros x y Hxy.
  assert (H : (Qfloor (x * 1024 + (1 # 2)) <= Qfloor (y * 1024 + (1 # 2)))%Z).
  { apply Qfloor_resp_le. apply Qplus_le_l. apply Qmult_le_compat_r;
      [exact Hxy | discriminate]. }
  unfold Qle. cbn [Qnum Qden]. lia.
Qed.

Section FloatFacts.

Context {R : Rounding}.

Lemma float_div_ok (x : Q) (z : Z) :
  z <> 0 -> float_div x z = Ok (fquot x (float z)).
Proof.
  intros Hz. unfold float_div.
  destruct (Z.eqb_spec z 0); [contradiction | reflexivity].
Qed.

Lemma float_div_zero (x : Q) : float_div x 0 = Raise ZeroDivisionError.
Proof. reflexivity. Qed.

(** Without rounding error the quotient times 100 is the percentage. *)
Lemma percentage_exact (a s : Z) :
  exact_rounding -> s <> 0 ->
  (fmul (fquot (float a) (float s)) 100 == 100 * inject_Z a / inject_Z s)%Q
  /\ (fmul 100 (fquot (float a) (float s)) == 100 * inject_Z a / inject_Z s)%Q.
Proof.
  intros Hex Hs. unfold exact_rounding in Hex. unfold fmul, fquot, float.
  assert (Hnz : ~ (inject_Z s == 0)%Q).
  { unfold Qeq. simpl. lia. }
  split.
  - rewrite Hex, Hex, (Hex (inject_Z a)), (Hex (inject_Z s)). field. exact Hnz.
  - rewrite Hex, Hex, (Hex (inject_Z a)), (Hex (inject_Z s)). field. exact Hnz.
Qed.

Context {L : RoundingLaws}.

Lemma float_mono (a b : Z) : a <= b -> (float a <= float b)%Q.
Proof.
  intros H. unfold float. apply rnd_mono. unfold Qle. simpl. lia.
Qed.

Lemma float_nonneg (a : Z) : 0 <= a -> (0 <= float a)%Q.
Proof.
  intros H. rewrite <- rnd_0. apply (float_mono 0 a H).
Qed.

Lemma float_ge_1 (a : Z) : 1 <= a -> (1 <= float a)%Q.
Proof.
  intros H. rewrite <- rnd_1. apply (float_mono 1 a H).
Qed.

(** The rounded quotient of a part by the whole lies between 0 and 1. *)
Lemma share_of_total_range (a r : Z) :
  0 <= a -> 0 <= r -> a + r <> 0 ->
  (0 <= fquot (float a) (float (a + r)) <= 1)%Q.
Proof.
  intros Ha Hr Hs.
  assert (Hpos : (0 < float (a + r))%Q).
  { apply Qlt_le_trans with 1%Q; [reflexivity|]. apply float_ge_1. lia. }
  pose proof (float_nonneg a Ha) as Hna.
  pose proof (float_mono a (a + r) ltac:(lia)) as Hle.
  unfold fquot. split.
  - rewrite <- rnd_0. apply rnd_mono.
    apply Qle_shift_div_l; [exact Hpos|]. rewrite Qmult_0_l. exact Hna.
  - rewrite <- rnd_1. apply rnd_mono.
    apply Qle_shift_div_r; [exact Hpos|]. rewrite Qmult_1_l. exact Hle.
Qed.

(** A hundred times a float between 0 and 1 lies between 0 and 100. *)
Lemma percentage_range (q : Q) :
  (0 <= q <= 1)%Q -> (0 <= fmul 100 q <= 100)%Q.
Proof.
  intros [H0 H1]. unfold fmul. split.
  - rewrite <- rnd_0. apply rnd_mono.
    apply Qmult_le_0_compat; [discriminate | exact H0].
  - rewrite <- rnd_100 at 2. apply rnd_mono.
    apply Qle_trans with (100 * 1)%Q; [|discriminate].
    apply Qmult_le_l; [reflexivity | exact H1].
Qed.

End FloatFacts.

(** ** get_pool_eff *)

Lemma get_pool_acc_rej_nonneg (db : database) (now : datetime)
    (td : option timedelta) :
  nonneg_store db ->
  0 <= fst (get_pool_acc_rej db now td) /\ 0 <= snd (get_pool_acc_rej db now td).
Proof.
  intros Hdb. unfold get_pool_acc_rej.
  assert (Hf : forall typ p q,
             0 <= sum_values (List.filter p (List.filter q (db typ)))).
  { intros typ p q. apply sum_values_nonneg.
    specialize (Hdb typ). clear -Hdb.
    induction Hdb as [|r l Hr _ IH]; simpl; [constructor|].
    destruct (q r); simpl; [|exact IH].
    destruct (p r); [constructor|]; assumption. }
  destruct (Z.leb _ _); simpl; split; apply Hf.
Qed.

(** C7: when the rejected and the accepted total are both zero,
    [get_pool_eff] returns the integer 100; otherwise, the totals being
    sums of share counts, it returns the float quotient accepted /
    (accepted + rejected) times 100, which without rounding error is
    100 * accepted / (accepted + rejected). *)
Theorem get_pool_eff_value {R : Rounding} (db : database) (now : datetime)
    (td : option timedelta) (rej acc : Z)
    (Htotals : get_pool_acc_rej db now td = (rej, acc)) :
  (rej = 0 /\ acc = 0 -> get_pool_eff db now td = Ok (PyInt 100))
  /\ (0 <= rej -> 0 <= acc -> ~ (rej = 0 /\ acc = 0) ->
      get_pool_eff db now td
      = Ok (PyFloat (fmul (fquot (float acc) (float (acc + rej))) 100))
      /\ (exact_rounding ->
          (fmul (fquot (float acc) (float (acc + rej))) 100
           == 100 * inject_Z acc / inject_Z (acc + rej))%Q)).
Proof.
  unfold get_pool_eff. rewrite Htotals. split.
  - intros [-> ->]. reflexivity.
  - intros Hr Ha Hnz.
    assert (Hs : acc + rej <> 0) by lia.
    split.
    + destruct (Z.eqb_spec rej 0) as [Er|Er];
        destruct (Z.eqb_spec acc 0) as [Ea|Ea]; simpl; try tauto;
        rewrite float_div_ok by exact Hs; reflexivity.
    + intros Hex. apply percentage_exact; assumption.
Qed.

Lemma get_pool_eff_witness :
  get_pool_acc_rej example_db t0 None = (200, 600)
  /\ get_pool_eff (R := exact) example_db t0 None = Ok (PyFloat (60000 # 800))
  /\ (60000 # 800 == 100 * inject_Z 600 / inject_Z (600 + 200))%Q.
Proof.
  split; [reflexivity|].
  destruct (get_pool_eff_value (R := exact) example_db t0 None 200 600 eq_refl)
    as [_ H].
  destruct H as [Hv Hq]; [lia | lia | intros [E _]; discriminate E |].
  split; [exact Hv | exact (Hq exact_is_exact)].
Defined.

(** With no records at all the pool efficiency is the integer 100. *)
Example get_pool_eff_empty {R : Rounding} (now : datetime)
    (td : option timedelta) :
  get_pool_eff (fun _ => []) now td = Ok (PyInt 100).
Proof.
  unfold get_pool_eff, get_pool_acc_rej. destruct (Z.leb _ _); reflexivity.
Qed.

(** Totals of opposite sign that cancel make the division fail. *)
Example get_pool_eff_cancelling {R : Rounding} :
  get_pool_eff
    (fun typ => match typ with
                | OneHourShare => [share "pool" "" t0 5]
                | OneHourReject => [share "pool_stale" "" t0 (-5)]
                | _ => []
                end) t0 None
  = Raise ZeroDivisionError.
Proof. reflexivity. Qed.

(** ** get_pool_hashrate *)

Lemma filter_filter {A : Type} (p q : A -> bool) (l : list A) :
  List.filter p (List.filter q l) = List.filter (fun x => q x && p x) l.
Proof.
  induction l as [|a l IH]; simpl; [reflexivity|].
  destruct (q a); simpl; [destruct (p a)|]; rewrite IH; reflexivity.
Qed.

(** What the code computes: [get_pool_hashrate] is the float quotient
    by 600000 of the sum of the pool's one-minute share values stamped
    in the closed window from twelve to two minutes before now; no
    conversion of shares to hashes is applied. *)
Lemma get_pool_hashrate_value {R : Rounding} (db : database)
    (now : datetime) :
  get_pool_hashrate db now
  = fquot (float (pool_shares_between db (now - minutes 12) (now - minutes 2)))
      600000
  /\ (exact_rounding ->
      (get_pool_hashrate db now
       == inject_Z (pool_shares_between db (now - minutes 12)%Z
                      (now - minutes 2)%Z) / 600000)%Q).
Proof.
  assert (E : get_pool_hashrate db now
              = fquot (float (pool_shares_between db (now - minutes 12)
                                (now - minutes 2))) 600000).
  { unfold get_pool_hashrate, pool_shares_between.
    rewrite filter_filter. do 3 f_equal.
    apply filter_ext. intros r. rewrite andb_assoc. reflexivity. }
  split; [exact E|].
  intros Hex. rewrite E. unfold exact_rounding in Hex. unfold fquot, float.
  rewrite Hex, Hex. reflexivity.
Qed.

Example get_pool_hashrate_value_example :
  (get_pool_hashrate (R := exact) example_db t0 == inject_Z 660 / 600000)%Q.
Proof.
  destruct (get_pool_hashrate_value (R := exact) example_db t0) as [_ H].
  exact (H exact_is_exact).
Qed.

(** C6, what the code does: on the example store, where the pool has
    600 shares stamped five minutes ago and 60 stamped exactly two
    minutes ago, and without rounding error, [get_pool_hashrate]
    returns 660 / 600000: the plain share count, the record on the
    boundary included, with no hashes per share applied. The per-user
    computation gives 65536 * 600 / 1000000 / 600 for the same store.
    The two are not equal. *)
Theorem get_pool_hashrate_not_per_user_style :
  (get_pool_hashrate (R := exact) example_db t0 == 660 # 600000)%Q
  /\ (per_user_style_pool_hashrate (R := exact) default_config example_db t0
      == 65536 * 600 / 1000000 / 600)%Q
  /\ ~ (get_pool_hashrate (R := exact) example_db t0
        == per_user_style_pool_hashrate (R := exact) default_config
             example_db t0)%Q.
Proof.
  split; [|split].
  - vm_compute. reflexivity.
  - vm_compute. reflexivity.
  - vm_compute. discriminate.
Qed.

(** The factor alone: for a single record well inside the window the
    code still divides the share count, not the hashes. *)
Example get_pool_hashrate_interior_record :
  let db := fun typ : slice_typ =>
              match typ with
              | OneMinuteShare => [share "pool" "" (t0 - minutes 5) 600]
              | _ => []
              end in
  (get_pool_hashrate (R := exact) db t0 == 1 # 1000)%Q
  /\ (per_user_style_pool_hashrate (R := exact) default_config db t0
      == 65536 # 1000000)%Q.
Proof. split; vm_compute; reflexivity. Qed.

(** A record stamped exactly two minutes ago is inside the pool's
    window and outside the window of [last_10_shares]. *)
Example window_boundary :
  pool_shares_between (fun _ => [share "pool" "" (t0 - minutes 2) 60])
    (t0 - minutes 12) (t0 - minutes 2) = 60
  /\ last_10_shares (fun _ => [share "pool" "" (t0 - minutes 2) 60]) t0 "pool"
     = 0.
Proof. split; reflexivity. Qed.

(** ** Worker accumulation *)

Lemma setdefault_lookup {V : Type} (k k' : string) (d : V) (m : gmap string V) :
  setdefault k d m !! k' =
    if decide (k' = k) then Some (default d (m !! k)) else m !! k'.
Proof.
  unfold setdefault. destruct (m !! k) eqn:E.
  - destruct (decide (k' = k)) as [->|]; [exact E | reflexivity].
  - destruct (decide (k' = k)) as [->|].
    + apply lookup_insert_eq.
    + apply lookup_insert_ne. congruence.
Qed.

Lemma nonneg_alter_setdefault (f : worker_acc -> worker_acc) name ws :
  (forall w, nonneg_worker w -> nonneg_worker (f w)) ->
  nonneg_workers ws ->
  nonneg_workers (alter f name (setdefault name def_worker ws)).
Proof.
  intros Hf Hws k w.
  destruct (decide (k = name)) as [->|Hne].
  - rewrite lookup_alter_eq, setdefault_lookup.
    destruct (decide (name = name)); [|congruence]. simpl.
    intros [= <-]. apply Hf.
    destruct (ws !! name) as [w0|] eqn:E; simpl.
    + exact (Hws _ _ E).
    + split; simpl; lia.
  - rewrite lookup_alter_ne by congruence. rewrite setdefault_lookup.
    destruct (decide (k = name)); [congruence|]. apply Hws.
Qed.

Lemma nonneg_alter (f : worker_acc -> worker_acc) name ws :
  (forall w, nonneg_worker w -> nonneg_worker (f w)) ->
  nonneg_workers ws -> nonneg_workers (alter f name ws).
Proof.
  intros Hf Hws k w.
  destruct (decide (k = name)) as [->|Hne].
  - rewrite lookup_alter_eq. destruct (ws !! name) as [w0|] eqn:E; simpl;
      [|discriminate]. intros [= <-]. apply Hf. exact (Hws _ _ E).
  - rewrite lookup_alter_ne by congruence. apply Hws.
Qed.

Ltac nonneg_fields := intros ? [? ?]; split; simpl; lia.

Lemma accept_step_nonneg lo hi ws m :
  0 <= slc_value m -> nonneg_workers ws ->
  nonneg_workers (accept_step lo hi ws m).
Proof.
  intros Hv Hws. unfold accept_step.
  destruct (_ && _).
  - apply nonneg_alter; [nonneg_fields|].
    apply nonneg_alter_setdefault; [nonneg_fields | exact Hws].
  - apply nonneg_alter_setdefault; [nonneg_fields | exact Hws].
Qed.

Lemma reject_step_nonneg ws m :
  0 <= slc_value m -> nonneg_workers ws -> nonneg_workers (reject_step ws m).
Proof.
  intros Hv Hws. unfold reject_step.
  apply nonneg_alter_setdefault; [nonneg_fields | exact Hws].
Qed.

Lemma online_step_nonneg cfg ws e :
  nonneg_workers ws -> nonneg_workers (online_step cfg ws e).
Proof.
  intros Hws. unfold online_step. destruct e as [name host].
  apply nonneg_alter; [nonneg_fields|].
  apply nonneg_alter_setdefault; [nonneg_fields | exact Hws].
Qed.

Lemma fold_left_invariant {A B : Type} (P : A -> Prop) (Q : B -> Prop)
    (f : A -> B -> A) (l : list B) :
  (forall a b, Q b -> P a -> P (f a b)) ->
  Forall Q l -> forall a, P a -> P (fold_left f l a).
Proof.
  intros Hf. induction 1 as [|b l Hb _ IH]; intros a Ha; simpl; [exact Ha|].
  apply IH. apply Hf; assumption.
Qed.

Lemma Forall_filter_list {A : Type} (P : A -> Prop) (p : A -> bool) (l : list A) :
  Forall P l -> Forall P (List.filter p l).
Proof.
  induction 1 as [|a l Ha _ IH]; simpl; [constructor|].
  destruct (p a); [constructor|]; assumption.
Qed.

Lemma mapM_elem {A B : Type} (f : A -> result B) (l : list A) :
  forall bs b, mapM f l = Ok bs -> b ∈ bs -> exists a, a ∈ l /\ f a = Ok b.
Proof.
  induction l as [|a l IH]; intros bs b; simpl.
  - intros [= <-] Hb. inversion Hb.
  - destruct (f a) as [b0|e] eqn:Ea; simpl; [|discriminate].
    destruct (mapM f l) as [bs0|e] eqn:El; simpl; [|discriminate].
    intros [= <-] Hb. apply elem_of_cons in Hb as [->|Hb].
    + exists a. split; [left | exact Ea].
    + destruct (IH bs0 b eq_refl Hb) as (a' & Ha' & Hfa').
      exists a'. split; [right; exact Ha' | exact Hfa'].
Qed.

Lemma mapM_total {A B : Type} (f : A -> result B) (l : list A) :
  Forall (fun a => exists b, f a = Ok b) l -> exists bs, mapM f l = Ok bs.
Proof.
  induction 1 as [|a l [b Hb] _ [bs Hbs]]; simpl.
  - eexists. reflexivity.
  - rewrite Hb, Hbs. simpl. eexists. reflexivity.
Qed.

(** ** The efficiency entry *)

Section EfficiencyFacts.

Context {R : Rounding}.

Lemma efficiency_value (a r : Z) :
  (a = 0 -> r = 0 -> efficiency a r = Ok None)
  /\ (0 <= a -> 0 <= r -> ~ (a = 0 /\ r = 0) ->
      efficiency a r = Ok (Some (fmul 100 (fquot (float a) (float (a + r)))))).
Proof.
  unfold efficiency. split.
  - intros -> ->. reflexivity.
  - intros Ha Hr Hnz.
    assert (Hs : a + r <> 0) by lia.
    destruct (Z.eqb_spec a 0) as [Ea|Ea];
      destruct (Z.eqb_spec r 0) as [Er|Er]; simpl; try tauto;
      rewrite float_div_ok by exact Hs; reflexivity.
Qed.

Lemma efficiency_total (a r : Z) :
  0 <= a -> 0 <= r -> exists eff, efficiency a r = Ok eff.
Proof.
  intros Ha Hr. destruct (efficiency_value a r) as [Hz Hnz].
  destruct (decide (a = 0 /\ r = 0)) as [[Ea Er]|Hn].
  - eexists. apply Hz; assumption.
  - eexists. apply Hnz; assumption.
Qed.

Lemma efficiency_range {L : RoundingLaws} (a r : Z) (q : Q) :
  0 <= a -> 0 <= r -> efficiency a r = Ok (Some q) -> (0 <= q <= 100)%Q.
Proof.
  intros Ha Hr. unfold efficiency.
  destruct (negb (Z.eqb a 0) || negb (Z.eqb r 0)) eqn:E; [|discriminate].
  assert (Hs : a + r <> 0).
  { destruct (Z.eqb_spec a 0), (Z.eqb_spec r 0); simpl in E;
      try discriminate; lia. }
  rewrite float_div_ok by exact Hs. simpl. intros [= <-].
  apply percentage_range. apply share_of_total_range; assumption.
Qed.

Lemma finish_worker_fields cfg name w ws :
  finish_worker cfg (name, w) = Ok ws ->
  ws_name ws = name
  /\ ws_accepted ws = w_accepted w /\ ws_rejected ws = w_rejected w
  /\ efficiency (w_accepted w) (w_rejected w) = Ok (ws_efficiency ws).
Proof.
  unfold finish_worker.
  destruct (efficiency (w_accepted w) (w_rejected w)) as [eff|e]; simpl;
    [|discriminate].
  intros [= <-]. simpl. auto.
Qed.

End EfficiencyFacts.

(** One accepted share out of three, on the grid: the quotient and the
    product are both rounded, and the result is 33.30078125. *)
Example efficiency_on_grid :
  efficiency (R := grid) 1 2 = Ok (Some (34100 # 1024))
  /\ forall q, efficiency (R := grid) 1 2 = Ok (Some q) -> (0 <= q <= 100)%Q.
Proof.
  split; [reflexivity|].
  intros q Hq. apply (efficiency_range (L := grid_laws) 1 2 q); [lia | lia | exact Hq].
Qed.

(** ** collect_user_stats *)

Section StatsFacts.

Variable floor_time : slice_typ -> datetime -> datetime.
Variable window : slice_typ -> timedelta.
Context {R : Rounding}.

Abbreviation stats_of := (collect_user_stats floor_time window).
Abbreviation workers_of := (collect_workers floor_time window).

Lemma get_typ_nonneg db now typ address wopen worker q_typ :
  nonneg_store db ->
  Forall (fun r => 0 <= slc_value r)
    (get_typ floor_time window db now typ address wopen worker q_typ).
Proof.
  intros Hdb. unfold get_typ. specialize (Hdb typ).
  destruct (negb wopen); repeat apply Forall_filter_list; exact Hdb.
Qed.

(** The accepted and rejected totals of every worker are sums of share
    counts. *)
Lemma collect_workers_nonneg cfg db now online address :
  nonneg_store db ->
  nonneg_workers (workers_of cfg db now online address).
Proof.
  intros Hdb. unfold collect_workers.
  apply fold_left_invariant with (Q := fun _ => True).
  - intros a b _. apply online_step_nonneg.
  - apply Forall_forall. auto.
  - apply fold_left_invariant with (Q := fun r => 0 <= slc_value r).
    + intros a b Hb. apply reject_step_nonneg. exact Hb.
    + apply Forall_app; split; apply get_typ_nonneg; exact Hdb.
    + apply fold_left_invariant with (Q := fun r => 0 <= slc_value r).
      * intros a b Hb. apply accept_step_nonneg. exact Hb.
      * apply Forall_app; split; apply get_typ_nonneg; exact Hdb.
      * intros k w. rewrite lookup_empty. discriminate.
Qed.

(** Every worker of the result comes from an entry of the accumulated
    dict, and carries the efficiency computed from its totals. *)
Lemma collect_user_stats_worker cfg db now cache_get hr_perc address stats w :
  stats_of cfg db now cache_get hr_perc address = Ok stats ->
  w ∈ us_workers stats ->
  exists acc,
    workers_of cfg db now
      (default [] (cache_get ("addr_online_" +:+ address))) address
      !! ws_name w = Some acc
    /\ ws_accepted w = w_accepted acc /\ ws_rejected w = w_rejected acc
    /\ efficiency (ws_accepted w) (ws_rejected w) = Ok (ws_efficiency w).
Proof.
  unfold collect_user_stats.
  set (workers := collect_workers _ _ _ _ _ _ _).
  destruct (mapM (finish_worker cfg) (map_to_list workers)) as [l|e] eqn:El;
    simpl; [|discriminate].
  intros [= <-]. simpl. rewrite merge_sort_Permutation. intros Hw.
  destruct (mapM_elem _ _ _ _ El Hw) as ([name acc] & Hin & Hfin).
  apply elem_of_map_to_list in Hin.
  pose proof (finish_worker_fields _ _ _ _ Hfin) as (Hn & Ha & Hr & He).
  exists acc. rewrite Hn, Ha, Hr. auto.
Qed.

(** On a store of share counts the function returns. *)
Lemma collect_user_stats_returns cfg db now cache_get hr_perc address :
  nonneg_store db ->
  exists stats, stats_of cfg db now cache_get hr_perc address = Ok stats.
Proof.
  intros Hdb. unfold collect_user_stats.
  set (workers := collect_workers _ _ _ _ _ _ _).
  assert (Hnn : nonneg_workers workers)
    by (apply collect_workers_nonneg; exact Hdb).
  destruct (mapM_total (finish_worker cfg) (map_to_list workers)) as [l Hl].
  - apply Forall_forall. intros [name acc] Hin.
    apply elem_of_map_to_list in Hin. destruct (Hnn _ _ Hin) as [Ha Hr].
    destruct (efficiency_total _ _ Ha Hr) as [eff He].
    unfold finish_worker. rewrite He. simpl. eexists. reflexivity.
  - rewrite Hl. simpl. eexists. reflexivity.
Qed.

(** C10: a worker of the result whose accepted and rejected totals are
    not negative and whose efficiency is reported has an efficiency
    between 0 and 100, whatever the rounding of the float operations,
    as long as it is monotone and leaves 0, 1 and 100 in place. *)
Theorem collect_user_stats_efficiency_range {L : RoundingLaws}
    cfg db now cache_get hr_perc address stats w q
    (Hstats : collect_user_stats floor_time window cfg db now cache_get
                hr_perc address = Ok stats)
    (Hw : w ∈ us_workers stats)
    (Hacc : 0 <= ws_accepted w) (Hrej : 0 <= ws_rejected w)
    (Heff : ws_efficiency w = Some q) :
  (0 <= q <= 100)%Q.
Proof.
  destruct (collect_user_stats_worker _ _ _ _ _ _ _ _ Hstats Hw)
    as (acc & _ & _ & _ & He).
  rewrite Heff in He. exact (efficiency_range _ _ _ Hacc Hrej He).
Qed.

End StatsFacts.

Lemma example_db_nonneg : nonneg_store example_db.
Proof.
  intros typ. destruct typ; simpl; unfold example_minutes, example_rejects;
    repeat constructor; simpl; lia.
Qed.

Example collect_user_stats_example :
  collect_user_stats (R := exact) spec_floor_time spec_window default_config
    example_db t0 example_cache (fun _ => None) "addr1" = Ok example_stats.
Proof. vm_compute. reflexivity. Qed.

Lemma collect_user_stats_efficiency_range_witness :
  (0 <= 1600 # 20 <= 100)%Q.
Proof.
  apply (collect_user_stats_efficiency_range (R := exact) (L := exact_laws)
           spec_floor_time spec_window
           default_config example_db t0 example_cache (fun _ => None) "addr1"
           example_stats example_rig1 (1600 # 20)).
  - vm_compute. reflexivity.
  - simpl. left.
  - simpl. lia.
  - simpl. lia.
  - reflexivity.
Defined.

(** A user without records has no workers and donates nothing. *)
Example collect_user_stats_no_records {R : Rounding} cfg now address :
  collect_user_stats spec_floor_time spec_window cfg (fun _ => []) now
    (fun _ => None) (fun _ => None) address
  = Ok {| us_workers := []; us_donation_perc := 0; us_last_10_shares := 0;
          us_last_10_hashrate :=
            fquot (fquot (shares_to_hashes cfg 0) 1000000) 600 |}.
Proof. reflexivity. Qed.

(** ** The freshness test *)

Lemma td_seconds_range (td : timedelta) : 0 <= td_seconds td < 86400.
Proof.
  unfold td_seconds, us_per_day, us_per_second.
  pose proof (Z.mod_pos_bound td (86400 * 1000000) ltac:(lia)) as Hm.
  split.
  - apply Z.div_pos; lia.
  - apply Z.div_lt_upper_bound; lia.
Qed.

(** The seconds attribute never reaches a day, so a maximum age of a
    day or more never rejects. *)
Lemma too_old_never (cfg : Config) (now stamp : datetime) :
  86399 <= default 90660 (cfg_message_expiry cfg) ->
  too_old cfg now stamp = false.
Proof.
  intros Hcfg. unfold too_old.
  pose proof (td_seconds_range (now - stamp)) as Hs.
  apply Z.ltb_ge. rewrite Z.abs_eq by lia. lia.
Qed.

(** C1, what the code does: under the default maximum age a message
    stamped 26 hours before now passes the freshness test, and with a
    valid signature the example message stamped 26 hours ago is
    committed, once a currency check is supplied to the module; in the
    module as it is written a message stamped 26 hours ago that sets
    the donation is committed as well. *)
Theorem stale_message_not_expired :
  (forall now : datetime, too_old default_config now (now - hours 26) = false)
  /\ verify_message strptime_utc (Some every_address_valid) oracle_accepts
       example_update database_accepts example_config (t0 + hours 26)
       "addr1" example_message "sig" example_session
     = (Ok tt, {| committed := example_commit; pending := example_commit |})
  /\ verify_message strptime_utc unbound oracle_accepts
       example_update database_accepts example_config (t0 + hours 26)
       "addr1" example_message_donation "sig" example_session
     = (Ok tt, {| committed := example_donation_commit;
                  pending := example_donation_commit |}).
Proof.
  split; [|split].
  - intros now. apply too_old_never. simpl. lia.
  - vm_compute. reflexivity.
  - vm_compute. reflexivity.
Qed.

(** Under a maximum age of one hour: a message a day and a half hour
    old passes, a message stamped half an hour ahead is rejected. *)
Example too_old_one_hour :
  too_old one_hour_config (t0 + hours 24 + minutes 30) t0 = false
  /\ too_old one_hour_config (t0 + hours 2) t0 = true
  /\ too_old one_hour_config t0 (t0 + minutes 30) = true.
Proof. repeat split; reflexivity. Qed.

(** ** validate_message_vals *)

Section ValidationFacts.

(** Any state of the global name. *)
Variable binding : global_name.

(** In the module as it is written the loop raises at its first
    entry. *)
Lemma check_addrs_unbound (items : list (string * string)) :
  items <> [] -> check_addrs unbound items = Raise NameError.
Proof.
  destruct items as [|[curr addr] items]; [contradiction | reflexivity].
Qed.

Lemma check_addrs_raises (items : list (string * string)) (e : exn) :
  check_addrs binding items = Raise e ->
  e = CommandException msg_invalid_address
  \/ (e = NameError /\ binding = None /\ items <> []).
Proof.
  induction items as [|[curr addr] items IH]; simpl; [discriminate|].
  destruct binding as [helper|].
  - destruct (negb _ || _); [intros [= <-]; auto|].
    intros H. destruct (IH H) as [->|(_ & Hb & _)]; [auto | discriminate Hb].
  - intros [= <-]. right. repeat split. discriminate.
Qed.

Lemma Decimal_new_raises v e :
  Decimal_new v = Raise e -> e = InvalidOperation \/ e = TypeError.
Proof.
  destruct v as [|b|z|s]; simpl; try discriminate.
  - intros [= <-]. auto.
  - destruct (parse_decimal s); [discriminate|]. intros [= <-]. auto.
Qed.

Lemma quantize_hundredths_raises d e :
  quantize_hundredths d = Raise e -> e = InvalidOperation.
Proof.
  unfold quantize_hundredths. destruct d as [neg c e0|neg|[|]];
    repeat match goal with
           | |- context [if ?c then _ else _] => destruct c
           end;
    intros [= <-] || discriminate 1; reflexivity.
Qed.

Lemma decimal_div_100_raises d e :
  decimal_div_100 d = Raise e -> e = InvalidOperation.
Proof.
  unfold decimal_div_100. destruct d as [neg c e0|neg|[|]];
    try (intros [= <-] || discriminate 1; reflexivity).
  destruct (N.eqb c 0); [discriminate|].
  destruct (strip_zero _). discriminate.
Qed.

(** The conversion raises nothing but [InvalidOperation] and the
    exception of the [TypeError] handler. *)
Lemma convert_donate_perc_raises v e :
  convert_donate_perc v = Raise e ->
  e = InvalidOperation \/ e = CommandException msg_donate_convert.
Proof.
  unfold convert_donate_perc.
  destruct (Decimal_new v) as [d|e0] eqn:Ed; simpl.
  - destruct (quantize_hundredths d) as [d'|e1] eqn:Eq; simpl.
    + destruct (decimal_div_100 d') as [d''|e2] eqn:Ev; [discriminate|].
      apply decimal_div_100_raises in Ev as ->. intros [= <-]. auto.
    + apply quantize_hundredths_raises in Eq as ->. intros [= <-]. auto.
  - apply Decimal_new_raises in Ed as [-> | ->]; intros [= <-]; auto.
Qed.

Lemma validate_message_vals_after_addresses kwargs :
  check_addrs binding (map_to_list (SETADDR kwargs)) = Ok tt ->
  validate_message_vals binding kwargs
  <> Raise (CommandException msg_invalid_address).
Proof.
  intros Hok. unfold validate_message_vals. rewrite Hok. simpl.
  destruct (convert_donate_perc (SETDONATE kwargs)) as [d|e] eqn:Ec; simpl.
  - destruct d as [neg c e0|neg|sig]; simpl; try discriminate.
    + destruct (Qlt_bool 100 _); simpl; [discriminate|].
      destruct (Qlt_bool _ 0); discriminate.
    + destruct neg; discriminate.
  - apply convert_donate_perc_raises in Ec as [-> | ->]; discriminate.
Qed.


(** C4, what the code does: the loop calls [check_valid_currency], a
    name the module neither defines nor imports. For every dict with an
    entry in [SETADDR], whether its address is too short, refused or
    valid, [validate_message_vals] of the module as it is written raises
    [NameError]: the invalid-address exception is not raised for an
    address of 33 characters, and an address of 34 characters is not
    accepted. *)
Theorem address_check_is_unbound :
  (forall kwargs curr addr,
      SETADDR kwargs !! curr = Some addr ->
      validate_message_vals unbound kwargs = Raise NameError)
  /\ validate_message_vals unbound
       (address_only "BTC" "1A1zP1eP5QGefi2DMPTfTL5SLmv7DivfN")
     = Raise NameError
  /\ validate_message_vals unbound
       (address_only "BTC" "1A1zP1eP5QGefi2DMPTfTL5SLmv7DivfNa")
     = Raise NameError
  /\ String.length "1A1zP1eP5QGefi2DMPTfTL5SLmv7DivfN" = 33%nat.
Proof.
  assert (H : forall kwargs curr addr,
             SETADDR kwargs !! curr = Some addr ->
             validate_message_vals unbound kwargs = Raise NameError).
  { intros kwargs curr addr Hin. unfold validate_message_vals.
    rewrite check_addrs_unbound; [reflexivity|].
    apply elem_of_map_to_list in Hin. intros E. rewrite E in Hin.
    inversion Hin. }
  split; [exact H|]. split; [|split].
  - apply (H _ "BTC" "1A1zP1eP5QGefi2DMPTfTL5SLmv7DivfN").
    apply lookup_singleton_eq.
  - apply (H _ "BTC" "1A1zP1eP5QGefi2DMPTfTL5SLmv7DivfNa").
    apply lookup_singleton_eq.
  - reflexivity.
Qed.


(** With addresses that pass and the default donation the call
    succeeds. *)
Lemma validate_message_vals_default_donation (kwargs : update_dict) :
  check_addrs binding (map_to_list (SETADDR kwargs)) = Ok tt ->
  SETDONATE kwargs = VInt 0 ->
  validate_message_vals binding kwargs
  = Ok {| mv_set_addrs := SETADDR kwargs; mv_del_addrs := DELADDR kwargs;
          mv_donate_perc := DFinite false 0 (-2);
          mv_anon := MAKEANON kwargs |}.
Proof.
  intros Hok Hd. unfold validate_message_vals. rewrite Hok, Hd. reflexivity.
Qed.

(** *** The donation *)

Lemma Qlt_bool_iff (x y : Q) : Qlt_bool x y = true <-> (x < y)%Q.
Proof.
  unfold Qlt_bool. rewrite negb_true_iff.
  destruct (Qle_bool y x) eqn:E.
  - apply Qle_bool_iff in E. split; [discriminate|].
    intros H. exfalso. exact (Qlt_not_le _ _ H E).
  - split; [|reflexivity]. intros _. apply Qnot_le_lt. intros H.
    apply Qle_bool_iff in H. congruence.
Qed.

(** The bounds test is made on the fraction, against 100 and 0. *)
Lemma validate_message_vals_bounds kwargs neg c e :
  check_addrs binding (map_to_list (SETADDR kwargs)) = Ok tt ->
  convert_donate_perc (SETDONATE kwargs) = Ok (DFinite neg c e) ->
  validate_message_vals binding kwargs = Raise (CommandException msg_donate_bounds)
  <-> (100 < decimal_value neg c e \/ decimal_value neg c e < 0)%Q.
Proof.
  intros Hok Hc. unfold validate_message_vals. rewrite Hok, Hc. simpl.
  rewrite <- !Qlt_bool_iff.
  destruct (Qlt_bool 100 _); simpl.
  - split; auto.
  - destruct (Qlt_bool _ 0); simpl.
    + split; auto.
    + split; [discriminate | intros [H|H]; discriminate H].
Qed.

(** C3, what the code does: a donation of 150 percent, the fraction
    3/2, is accepted. *)
Theorem donation_above_one_is_accepted :
  validate_message_vals binding (donation_only (VStr "150"))
  = Ok {| mv_set_addrs := ∅; mv_del_addrs := [];
          mv_donate_perc := DFinite false 150 (-2);
          mv_anon := VBool false |}
  /\ (decimal_value false 150 (-2) == 3 # 2)%Q.
Proof. split; reflexivity. Qed.

(** Percentages 0 and 100 are accepted, and so is every percentage up
    to 10000; the first rejected values are 10000.01 and -0.01. *)
Example donation_boundaries :
  validate_message_vals binding (donation_only (VStr "0"))
  = Ok {| mv_set_addrs := ∅; mv_del_addrs := [];
          mv_donate_perc := DFinite false 0 (-2); mv_anon := VBool false |}
  /\ validate_message_vals binding (donation_only (VStr "100"))
     = Ok {| mv_set_addrs := ∅; mv_del_addrs := [];
             mv_donate_perc := DFinite false 100 (-2);
             mv_anon := VBool false |}
  /\ validate_message_vals binding (donation_only (VStr "10000"))
     = Ok {| mv_set_addrs := ∅; mv_del_addrs := [];
             mv_donate_perc := DFinite false 10000 (-2);
             mv_anon := VBool false |}
  /\ validate_message_vals binding (donation_only (VStr "10000.01"))
     = Raise (CommandException msg_donate_bounds)
  /\ validate_message_vals binding (donation_only (VStr "-0.01"))
     = Raise (CommandException msg_donate_bounds).
Proof. repeat split; reflexivity. Qed.

(** A string the parser of [Decimal] refuses raises [InvalidOperation],
    which the handler of [TypeError] does not catch. *)
Lemma donation_unparseable (s : string) :
  parse_decimal s = None ->
  validate_message_vals binding (donation_only (VStr s))
  = Raise InvalidOperation.
Proof.
  intros Hp. unfold validate_message_vals, donation_only. simpl.
  rewrite map_to_list_empty. simpl.
  unfold convert_donate_perc. simpl. rewrite Hp. reflexivity.
Qed.

(** C5, what the code does: the donation [abc] makes
    [validate_message_vals] raise [InvalidOperation], not a
    [CommandException]. *)
Theorem unparseable_donation_escapes :
  validate_message_vals binding (donation_only (VStr "abc"))
  = Raise InvalidOperation.
Proof. reflexivity. Qed.

(** The handler is reached by a value that is not a number or a string;
    infinities and NaNs raise [InvalidOperation] as well. *)
Example donation_other_values :
  validate_message_vals binding (donation_only VNone)
  = Raise (CommandException msg_donate_convert)
  /\ validate_message_vals binding (donation_only (VStr "Infinity"))
     = Raise InvalidOperation
  /\ validate_message_vals binding (donation_only (VStr "NaN"))
     = Raise InvalidOperation
  /\ validate_message_vals binding (donation_only (VStr ""))
     = Raise InvalidOperation.
Proof. repeat split; reflexivity. Qed.

End ValidationFacts.

(** *** With a helper supplied *)

Section SuppliedHelper.

Variable check : string -> currency_check.

Lemma check_addrs_ok (items : list (string * string)) :
  check_addrs (Some check) items = Ok tt
  <-> Forall (fun item => address_passes check item.2) items.
Proof.
  induction items as [|[curr addr] items IH]; simpl.
  - split; [constructor | reflexivity].
  - unfold address_passes at 1.
    destruct (Nat.eqb_spec (String.length addr) 34) as [Hl|Hl]; simpl.
    + destruct (check addr) as [|name] eqn:Hc; simpl.
      * split; [discriminate|].
        intros H. inversion H as [|? ? [_ Hn]]. simpl in Hn. congruence.
      * rewrite IH. split.
        -- intros H. constructor; [|exact H]. simpl. split; congruence.
        -- intros H. inversion H. assumption.
    + split; [discriminate|].
      intros H. inversion H as [|? ? [Hn _]]. simpl in Hn. congruence.
Qed.

Lemma check_addrs_result (items : list (string * string)) :
  check_addrs (Some check) items = Ok tt
  \/ check_addrs (Some check) items
     = Raise (CommandException msg_invalid_address).
Proof.
  induction items as [|[curr addr] items IH]; simpl; [left; reflexivity|].
  destruct (negb _ || _); [right; reflexivity | exact IH].
Qed.

Lemma check_addrs_bad (items : list (string * string)) curr addr :
  (curr, addr) ∈ items -> ~ address_passes check addr ->
  check_addrs (Some check) items
  = Raise (CommandException msg_invalid_address).
Proof.
  intros Hin Hbad.
  destruct (check_addrs_result items) as [Hok|Hr]; [|exact Hr].
  apply check_addrs_ok in Hok. rewrite Forall_forall in Hok.
  specialize (Hok _ Hin). simpl in Hok. contradiction.
Qed.

(** With a helper supplied under the name, the loop does what it was
    written for: an entry of [SETADDR] whose address is not 34
    characters long makes [validate_message_vals] raise the
    invalid-address exception, whatever the currency check says of it;
    so does an entry whose address the currency check refuses; and when
    every entry is 34 characters long and passes the check, the address
    loop accepts and the invalid-address exception is not raised. *)
Lemma validate_message_vals_addresses_supplied (kwargs : update_dict) :
  (forall curr addr,
      SETADDR kwargs !! curr = Some addr ->
      String.length addr <> 34%nat ->
      validate_message_vals (Some check) kwargs
      = Raise (CommandException msg_invalid_address))
  /\ (forall curr addr,
      SETADDR kwargs !! curr = Some addr ->
      check addr = CheckFalse ->
      validate_message_vals (Some check) kwargs
      = Raise (CommandException msg_invalid_address))
  /\ ((forall curr addr,
          SETADDR kwargs !! curr = Some addr -> address_passes check addr) ->
      check_addrs (Some check) (map_to_list (SETADDR kwargs)) = Ok tt
      /\ validate_message_vals (Some check) kwargs
         <> Raise (CommandException msg_invalid_address)).
Proof.
  assert (Hbad : forall curr addr,
             SETADDR kwargs !! curr = Some addr ->
             ~ address_passes check addr ->
             validate_message_vals (Some check) kwargs
             = Raise (CommandException msg_invalid_address)).
  { intros curr addr Hin Hn. unfold validate_message_vals.
    rewrite (check_addrs_bad _ curr addr); [reflexivity| |exact Hn].
    apply elem_of_map_to_list. exact Hin. }
  split; [|split].
  - intros curr addr Hin Hl. apply (Hbad curr addr Hin). intros [H _]. auto.
  - intros curr addr Hin Hc. apply (Hbad curr addr Hin). intros [_ H]. auto.
  - intros Hall.
    assert (Hok : check_addrs (Some check) (map_to_list (SETADDR kwargs)) = Ok tt).
    { apply check_addrs_ok. apply Forall_forall. intros [curr addr] Hin.
      apply elem_of_map_to_list in Hin. simpl. eauto. }
    split; [exact Hok|]. apply validate_message_vals_after_addresses, Hok.
Qed.

End SuppliedHelper.

Example validate_message_vals_addresses_supplied_example :
  validate_message_vals (Some (fun _ => CheckCurrency "BTC"))
    (address_only "BTC" "1A1zP1eP5QGefi2DMPTfTL5SLmv7DivfN")
  = Raise (CommandException msg_invalid_address)
  /\ validate_message_vals (Some (fun _ => CheckFalse))
       (address_only "BTC" "1A1zP1eP5QGefi2DMPTfTL5SLmv7DivfNa")
     = Raise (CommandException msg_invalid_address)
  /\ validate_message_vals (Some every_address_valid)
       (address_only "BTC" "1A1zP1eP5QGefi2DMPTfTL5SLmv7DivfNa")
     = Ok {| mv_set_addrs := {[ "BTC" := "1A1zP1eP5QGefi2DMPTfTL5SLmv7DivfNa" ]};
             mv_del_addrs := []; mv_donate_perc := DFinite false 0 (-2);
             mv_anon := VBool false |}.
Proof. repeat split; vm_compute; reflexivity. Qed.

(** ** verify_message *)

Section VerifyFacts.

Variable strptime : string -> option datetime.
Variable check_valid_currency : global_name.
Variable Settings : Type.
Variable verifymessage : string -> string -> string -> oracle_reply.
Variable UserSettings_update :
  string -> message_vals -> Settings -> result unit * Settings.
Variable commit_outcome : Settings -> result unit.

Abbreviation verify :=
  (verify_message strptime check_valid_currency verifymessage
     UserSettings_update commit_outcome).

(** The two ways a commit ends. *)
Lemma commit_cases (s : db_session Settings) :
  (commit_outcome (pending s) = Ok tt
   /\ commit commit_outcome s
      = (Ok tt, {| committed := pending s; pending := pending s |}))
  \/ exists e, commit_outcome (pending s) = Raise e
               /\ commit commit_outcome s = (Raise e, s).
Proof.
  unfold commit. destruct (commit_outcome (pending s)) as [[]|e]; eauto.
Qed.

(** A message that passes the checks and whose signature the coin
    daemon refuses is rejected, and the session is left as it was. *)
Lemma verify_message_refused cfg now address message signature s d :
  check_message strptime cfg now message = Ok d ->
  verifymessage address signature message = Verified false ->
  verify cfg now address message signature s
  = (Raise (CommandException msg_invalid_signature), s).
Proof.
  intros Hc Ho. unfold verify_message. rewrite Hc, Ho. reflexivity.
Qed.

(** Whatever is raised, the settings the database holds are those it
    held before the call. *)
Lemma verify_message_raise_keeps cfg now address message signature s e s' :
  verify cfg now address message signature s = (Raise e, s') ->
  committed s' = committed s.
Proof.
  unfold verify_message.
  destruct (check_message strptime cfg now message) as [d|e0];
    [|intros [= _ <-]; reflexivity].
  destruct (verifymessage address signature message) as [[|]|reason|];
    try (intros [= _ <-]; reflexivity).
  destruct (validate_message_vals check_valid_currency d) as [args|e0];
    [|intros [= _ <-]; reflexivity].
  destruct (UserSettings_update address args (pending s)) as [[u|e0] p].
  - destruct (commit_cases {| committed := committed s; pending := p |})
      as [[_ ->]|(e1 & _ & ->)]; [discriminate|].
    intros [= _ <-]. reflexivity.
  - destruct e0; intros [= _ <-]; reflexivity.
Qed.

(** Before validation has succeeded nothing is written, not even to
    the open session. *)
Lemma verify_message_unvalidated_untouched
    cfg now address message signature s e s' :
  verify cfg now address message signature s = (Raise e, s') ->
  (forall d args,
      check_message strptime cfg now message = Ok d ->
      validate_message_vals check_valid_currency d <> Ok args) ->
  s' = s.
Proof.
  unfold verify_message. intros H Hv.
  destruct (check_message strptime cfg now message) as [d|e0];
    [|injection H as _ <-; reflexivity].
  destruct (verifymessage address signature message) as [[|]|reason|];
    try (injection H as _ <-; reflexivity).
  destruct (validate_message_vals check_valid_currency d) as [args|e0] eqn:Ev;
    [|injection H as _ <-; reflexivity].
  exfalso. exact (Hv d args eq_refl Ev).
Qed.

(** A failure of the update is answered by a rollback. *)
Lemma verify_message_save_error cfg now address message signature s d args p :
  check_message strptime cfg now message = Ok d ->
  verifymessage address signature message = Verified true ->
  validate_message_vals check_valid_currency d = Ok args ->
  UserSettings_update address args (pending s) = (Raise SQLAlchemyError, p) ->
  verify cfg now address message signature s
  = (Raise (CommandException msg_save_error),
     {| committed := committed s; pending := committed s |}).
Proof.
  intros Hc Ho Hv Hu. unfold verify_message. rewrite Hc, Ho, Hv, Hu.
  reflexivity.
Qed.

(** A call that returns has passed every check, and has committed
    exactly what the update wrote. *)
Lemma verify_message_ok_commits cfg now address message signature s s' :
  verify cfg now address message signature s = (Ok tt, s') ->
  exists d args,
    check_message strptime cfg now message = Ok d
    /\ verifymessage address signature message = Verified true
    /\ validate_message_vals check_valid_currency d = Ok args
    /\ UserSettings_update address args (pending s) = (Ok tt, committed s')
    /\ commit_outcome (committed s') = Ok tt
    /\ pending s' = committed s'.
Proof.
  unfold verify_message.
  destruct (check_message strptime cfg now message) as [d|e0]; [|discriminate].
  destruct (verifymessage address signature message) as [[|]|reason|];
    try discriminate.
  destruct (validate_message_vals check_valid_currency d) as [args|e0] eqn:Ev;
    [|discriminate].
  destruct (UserSettings_update address args (pending s)) as [[[]|e0] p] eqn:Eu.
  - destruct (commit_cases {| committed := committed s; pending := p |})
      as [[Hc ->]|(e1 & _ & ->)]; [|discriminate].
    intros [= <-]. exists d, args. simpl in *. auto 10.
  - destruct e0; discriminate.
Qed.

(** C2: when the message passes the checks and the coin daemon answers
    false, [verify_message] raises the invalid-signature exception and
    leaves the session as it was; and whatever exception a call ends
    with, the committed settings are unchanged. *)
Theorem verify_message_no_partial_commit
    cfg now address message signature s :
  (forall d,
      check_message strptime cfg now message = Ok d ->
      verifymessage address signature message = Verified false ->
      verify_message strptime check_valid_currency verifymessage
        UserSettings_update commit_outcome cfg now address message signature s
      = (Raise (CommandException msg_invalid_signature), s))
  /\ (forall e s',
      verify_message strptime check_valid_currency verifymessage
        UserSettings_update commit_outcome cfg now address message signature s
      = (Raise e, s') ->
      committed s' = committed s).
Proof.
  split.
  - intros d. apply verify_message_refused.
  - apply verify_message_raise_keeps.
Qed.

End VerifyFacts.

(** In the module as it is written: a refused signature on the
    message of the specification's example, and a failing update on a
    message that sets the donation. *)
Lemma verify_message_no_partial_commit_witness :
  verify_message strptime_utc unbound oracle_refuses
    example_update database_accepts example_config (t0 + hours 1) "addr1"
    example_message "sig" example_session
  = (Raise (CommandException msg_invalid_signature), example_session)
  /\ committed
       (snd (verify_message strptime_utc unbound
               oracle_accepts example_failing_update database_accepts
               example_config (t0 + hours 1) "addr1"
               example_message_donation "sig" example_session))
     = committed example_session.
Proof.
  split.
  - destruct (verify_message_no_partial_commit strptime_utc
                unbound example_settings oracle_refuses
                example_update database_accepts example_config
                (t0 + hours 1) "addr1"
                example_message "sig" example_session) as [H _].
    eapply H; [vm_compute; reflexivity | reflexivity].
  - destruct (verify_message_no_partial_commit strptime_utc
                unbound example_settings oracle_accepts
                example_failing_update database_accepts example_config
                (t0 + hours 1) "addr1"
                example_message_donation "sig" example_session) as [_ H].
    apply (H (CommandException msg_save_error)).
    vm_compute. reflexivity.
Defined.

(** The end-to-end example, with a currency check supplied to the
    module: with a valid signature the message commits the new
    address. *)
Example verify_message_commits_example :
  verify_message strptime_utc (Some every_address_valid) oracle_accepts
    example_update database_accepts example_config (t0 + hours 1) "addr1"
    example_message "sig" example_session
  = (Ok tt, {| committed := example_commit; pending := example_commit |}).
Proof. vm_compute. reflexivity. Qed.

(** A failing update is rolled back: what it wrote to the session is
    gone. *)
Example verify_message_rollback_example :
  verify_message strptime_utc unbound oracle_accepts
    example_failing_update database_accepts example_config (t0 + hours 1)
    "addr1" example_message_donation "sig" example_session
  = (Raise (CommandException msg_save_error), example_session).
Proof. vm_compute. reflexivity. Qed.

(** A message for another site is rejected whatever the coin daemon
    would say. *)
Example verify_message_wrong_site_example :
  verify_message strptime_utc unbound oracle_accepts
    example_update database_accepts
    {| cfg_message_expiry := None; cfg_site_title := Some "OtherSite";
       cfg_hashes_per_share := None; cfg_monitor_addrs := None |}
    (t0 + hours 1) "addr1" example_message "sig" example_session
  = (Raise (CommandException msg_invalid_website), example_session).
Proof. vm_compute. reflexivity. Qed.

(** A signed message with a donation that is not a number ends in
    [InvalidOperation]. *)
Example verify_message_bad_donation_example :
  verify_message strptime_utc unbound oracle_accepts
    example_update database_accepts example_config (t0 + hours 1) "addr1"
    example_message_bad_donation "sig" example_session
  = (Raise InvalidOperation, example_session).
Proof. vm_compute. reflexivity. Qed.

(** In the module as it is written, a signed message that sets an
    address ends in [NameError]; what the update would have written is
    never reached. *)
Example verify_message_unbound_example :
  verify_message strptime_utc unbound oracle_accepts example_update
    database_accepts example_config (t0 + hours 1) "addr1" example_message
    "sig" example_session
  = (Raise NameError, example_session).
Proof. vm_compute. reflexivity. Qed.

(** A commit that the database refuses raises what the database
    raised, outside every handler; the committed rows stay as they
    were, and the open session holds what the update wrote. *)
Example verify_message_commit_refused_example :
  verify_message strptime_utc unbound oracle_accepts example_update
    database_refuses example_config (t0 + hours 1) "addr1"
    example_message_donation "sig" example_session
  = (Raise SQLAlchemyError,
     {| committed := []; pending := example_donation_commit |}).
Proof. vm_compute. reflexivity. Qed.

(** Parse failures: an unknown command, a missing field, a message
    without a time stamp. *)
Example parse_failures :
  check_message strptime_utc example_config t0 "HELLO world"
  = Raise (CommandException msg_invalid_command)
  /\ check_message strptime_utc example_config t0 "SETADDR BTC"
     = Raise (CommandException msg_invalid_information)
  /\ check_message strptime_utc example_config t0
       "Generated at 2024-13-01 00:00:00.000 UTC"
     = Raise (CommandException msg_invalid_information)
  /\ check_message strptime_utc example_config t0 "Only valid for PoolSite"
     = Raise (CommandException msg_no_stamp).
Proof. repeat split; reflexivity. Qed.

(** * Further properties *)

(** ** The order of strings *)

Lemma ascii_compare_N (a b : ascii) :
  Ascii.compare a b = N.compare (N_of_ascii a) (N_of_ascii b).
Proof. reflexivity. Qed.

Lemma ascii_compare_Eq (a b : ascii) : Ascii.compare a b = Eq <-> a = b.
Proof.
  split.
  - apply Ascii.compare_eq_iff.
  - intros ->. rewrite ascii_compare_N. apply N.compare_refl.
Qed.

Lemma ascii_compare_Lt_trans (a b c : ascii) :
  Ascii.compare a b = Lt -> Ascii.compare b c = Lt -> Ascii.compare a c = Lt.
Proof.
  rewrite !ascii_compare_N, !N.compare_lt_iff. lia.
Qed.

Lemma string_compare_refl (s : string) : String.compare s s = Eq.
Proof.
  induction s as [|a s IH]; simpl; [reflexivity|].
  rewrite (proj2 (ascii_compare_Eq a a) eq_refl). exact IH.
Qed.

Lemma string_compare_Lt_trans (s1 : string) :
  forall s2 s3,
    String.compare s1 s2 = Lt -> String.compare s2 s3 = Lt ->
    String.compare s1 s3 = Lt.
Proof.
  induction s1 as [|a s1 IH]; intros [|b s2] [|c s3]; simpl; try discriminate;
    try reflexivity.
  destruct (Ascii.compare a b) eqn:Eab; try discriminate;
    destruct (Ascii.compare b c) eqn:Ebc; try discriminate; intros H12 H23.
  - apply ascii_compare_Eq in Eab as ->. apply ascii_compare_Eq in Ebc as ->.
    rewrite (proj2 (ascii_compare_Eq c c) eq_refl). eauto.
  - apply ascii_compare_Eq in Eab as ->. rewrite Ebc. reflexivity.
  - apply ascii_compare_Eq in Ebc as ->. rewrite Eab. reflexivity.
  - rewrite (ascii_compare_Lt_trans _ _ _ Eab Ebc). reflexivity.
Qed.

Lemma string_leb_cases (s1 s2 : string) :
  String.leb s1 s2 = true <-> String.compare s1 s2 = Lt \/ s1 = s2.
Proof.
  unfold String.leb. destruct (String.compare s1 s2) eqn:E.
  - apply String.compare_eq_iff in E. tauto.
  - tauto.
  - split; [discriminate|]. intros [H| ->]; [discriminate|].
    rewrite string_compare_refl in E. discriminate.
Qed.

Lemma string_leb_trans (s1 s2 s3 : string) :
  String.leb s1 s2 = true -> String.leb s2 s3 = true -> String.leb s1 s3 = true.
Proof.
  rewrite !string_leb_cases. intros [H12| ->] [H23| ->]; auto.
  left. eapply string_compare_Lt_trans; eauto.
Qed.

Lemma string_ltb_leb_ne (s1 s2 : string) :
  String.ltb s1 s2 = true <-> String.leb s1 s2 = true /\ s1 <> s2.
Proof.
  rewrite string_leb_cases. unfold String.ltb.
  destruct (String.compare s1 s2) eqn:E.
  - apply String.compare_eq_iff in E. split; [discriminate|]. tauto.
  - split; [|reflexivity]. intros _. split; [auto|].
    intros ->. rewrite string_compare_refl in E. discriminate.
  - split; [discriminate|]. intros [[H| ->] Hne]; [discriminate|]. congruence.
Qed.

#[local] Instance name_le_total : Total name_le.
Proof. intros a b. unfold name_le. apply String.leb_total. Qed.

#[local] Instance name_le_trans : Transitive name_le.
Proof. intros a b c. unfold name_le. apply string_leb_trans. Qed.

(** ** The loops of collect_user_stats *)

Lemma touch_lookup (f : worker_acc -> worker_acc) (name k : string)
    (ws : gmap string worker_acc) :
  alter f name (setdefault name def_worker ws) !! k =
    if decide (k = name) then Some (f (view ws name)) else ws !! k.
Proof.
  destruct (decide (k = name)) as [->|Hne].
  - rewrite lookup_alter_eq, setdefault_lookup.
    destruct (decide (name = name)); [reflexivity | congruence].
  - rewrite lookup_alter_ne by congruence. rewrite setdefault_lookup.
    destruct (decide (k = name)); [congruence | reflexivity].
Qed.

Lemma accept_step_lookup lo hi (ws : gmap string worker_acc) m k :
  accept_step lo hi ws m !! k =
    if decide (k = slc_worker m)
    then Some (accept_update lo hi m (view ws k))
    else ws !! k.
Proof.
  unfold accept_step, accept_update.
  destruct (Z.leb lo (slc_time m) && Z.ltb (slc_time m) hi).
  - destruct (decide (k = slc_worker m)) as [->|Hne].
    + rewrite lookup_alter_eq, touch_lookup.
      destruct (decide (slc_worker m = slc_worker m)); [|congruence].
      reflexivity.
    + rewrite lookup_alter_ne by congruence. rewrite touch_lookup.
      destruct (decide (k = slc_worker m)); [congruence | reflexivity].
  - rewrite touch_lookup.
    destruct (decide (k = slc_worker m)) as [->|Hne]; [|reflexivity].
    simpl. rewrite Z.add_0_r. reflexivity.
Qed.

Lemma reject_step_lookup (ws : gmap string worker_acc) m k :
  reject_step ws m !! k =
    if decide (k = slc_worker m)
    then Some (reject_update m (view ws k))
    else ws !! k.
Proof.
  unfold reject_step. rewrite touch_lookup.
  destruct (decide (k = slc_worker m)) as [->|]; reflexivity.
Qed.

Lemma online_step_lookup cfg (ws : gmap string worker_acc) name host k :
  online_step cfg ws (name, host) !! k =
    if decide (k = name)
    then Some (online_update cfg host (view ws k))
    else ws !! k.
Proof.
  unfold online_step.
  destruct (decide (k = name)) as [->|Hne].
  - rewrite lookup_alter_eq, touch_lookup.
    destruct (decide (name = name)); [reflexivity | congruence].
  - rewrite lookup_alter_ne by congruence. rewrite touch_lookup.
    destruct (decide (k = name)); [congruence | reflexivity].
Qed.

Lemma of_worker_cons name (m : Slice) rows :
  of_worker name (m :: rows) =
    if decide (name = slc_worker m) then m :: of_worker name rows
    else of_worker name rows.
Proof.
  unfold of_worker. simpl.
  destruct (String.eqb_spec (slc_worker m) name) as [E|E];
    destruct (decide (name = slc_worker m)); congruence.
Qed.

Lemma worker_acc_eq (a b : worker_acc) :
  w_accepted a = w_accepted b -> w_rejected a = w_rejected b ->
  w_last_10_shares a = w_last_10_shares b -> w_online a = w_online b ->
  w_server a = w_server b -> a = b.
Proof. destruct a, b; simpl; congruence. Qed.

Lemma sum_values_nil : sum_values [] = 0.
Proof. reflexivity. Qed.

(** The loop over accepted shares adds, for every worker, the values of
    its rows to [accepted] and those of them in the window to
    [last_10_shares]. *)
Lemma accept_fold_view lo hi rows :
  forall (ws : gmap string worker_acc) k,
    view (fold_left (accept_step lo hi) rows ws) k =
    {| w_accepted := w_accepted (view ws k) + sum_values (of_worker k rows);
       w_rejected := w_rejected (view ws k);
       w_last_10_shares :=
         w_last_10_shares (view ws k)
         + sum_values
             (List.filter
                (fun r => Z.leb lo (slc_time r) && Z.ltb (slc_time r) hi)
                (of_worker k rows));
       w_online := w_online (view ws k);
       w_server := w_server (view ws k) |}.
Proof.
  induction rows as [|m rows IH]; intros ws k.
  - simpl. rewrite sum_values_nil. apply worker_acc_eq; simpl; lia || reflexivity.
  - simpl fold_left. rewrite IH. rewrite of_worker_cons.
    unfold view at 1 2 3 4 5. rewrite accept_step_lookup.
    destruct (decide (k = slc_worker m)) as [->|Hne]; simpl.
    + fold (view ws (slc_worker m)).
      destruct (Z.leb lo (slc_time m) && Z.ltb (slc_time m) hi);
        rewrite ?sum_values_cons; apply worker_acc_eq; simpl; lia || reflexivity.
    + reflexivity.
Qed.

Lemma reject_fold_view rows :
  forall (ws : gmap string worker_acc) k,
    view (fold_left reject_step rows ws) k =
    {| w_accepted := w_accepted (view ws k);
       w_rejected := w_rejected (view ws k) + sum_values (of_worker k rows);
       w_last_10_shares := w_last_10_shares (view ws k);
       w_online := w_online (view ws k);
       w_server := w_server (view ws k) |}.
Proof.
  induction rows as [|m rows IH]; intros ws k.
  - simpl. rewrite sum_values_nil. apply worker_acc_eq; simpl; lia || reflexivity.
  - simpl fold_left. rewrite IH. rewrite of_worker_cons.
    unfold view at 1 2 3 4 5. rewrite reject_step_lookup.
    destruct (decide (k = slc_worker m)) as [->|Hne]; simpl.
    + fold (view ws (slc_worker m)).
      rewrite ?sum_values_cons; apply worker_acc_eq; simpl; lia || reflexivity.
    + reflexivity.
Qed.

Lemma feed_hosts_cons k name host online :
  feed_hosts k ((name, host) :: online) =
    if decide (k = name) then host :: feed_hosts k online
    else feed_hosts k online.
Proof.
  unfold feed_hosts. simpl.
  destruct (String.eqb_spec name k) as [E|E];
    destruct (decide (k = name)); simpl; congruence.
Qed.

(** The loop over the feed marks the workers it names online and gives
    them the endpoint of the last host it reports for them. *)
Lemma online_fold_view cfg online :
  forall (ws : gmap string worker_acc) k,
    view (fold_left (online_step cfg) online ws) k =
    {| w_accepted := w_accepted (view ws k);
       w_rejected := w_rejected (view ws k);
       w_last_10_shares := w_last_10_shares (view ws k);
       w_online :=
         w_online (view ws k)
         || negb (Nat.eqb (List.length (feed_hosts k online)) 0);
       w_server :=
         match List.last (List.map Some (feed_hosts k online)) None with
         | Some host => Some (stratum_of cfg host)
         | None => w_server (view ws k)
         end |}.
Proof.
  induction online as [|[name host] online IH]; intros ws k.
  - simpl. apply worker_acc_eq; simpl; try reflexivity.
    rewrite orb_false_r. reflexivity.
  - cbn [fold_left]. rewrite IH. rewrite feed_hosts_cons.
    unfold view at 1 2 3 4 5. rewrite online_step_lookup.
    destruct (decide (k = name)) as [->|Hne]; simpl.
    + fold (view ws name). apply worker_acc_eq; simpl; try reflexivity.
      * rewrite orb_true_r. reflexivity.
      * destruct (feed_hosts name online) as [|h hs] eqn:E; [reflexivity|].
        simpl List.map.
        change (List.last (Some host :: Some h :: List.map Some hs) None)
          with (List.last (Some h :: List.map Some hs) None).
        destruct (List.last (Some h :: List.map Some hs) None) eqn:El;
          [reflexivity|].
        exfalso. clear -El. revert h El.
        induction hs as [|h' hs IHh]; intros h El; simpl in El;
          [discriminate | eauto].
    + reflexivity.
Qed.

Lemma accept_fold_dom lo hi rows :
  forall (ws : gmap string worker_acc) k,
    is_Some (fold_left (accept_step lo hi) rows ws !! k)
    <-> is_Some (ws !! k) \/ exists r, r ∈ rows /\ slc_worker r = k.
Proof.
  induction rows as [|m rows IH]; intros ws k; simpl.
  - split; [auto|]. intros [H|(r & Hr & _)]; [exact H | inversion Hr].
  - rewrite IH, accept_step_lookup.
    destruct (decide (k = slc_worker m)) as [->|Hne].
    + split; [|eauto]. intros _. right. exists m. split; [left | reflexivity].
    + split.
      * intros [H|(r & Hr & E)]; [auto|]. right. exists r. split; [right|]; auto.
      * intros [H|(r & Hr & E)]; [auto|].
        apply elem_of_cons in Hr as [->|Hr]; [congruence|]. eauto.
Qed.

Lemma reject_fold_dom rows :
  forall (ws : gmap string worker_acc) k,
    is_Some (fold_left reject_step rows ws !! k)
    <-> is_Some (ws !! k) \/ exists r, r ∈ rows /\ slc_worker r = k.
Proof.
  induction rows as [|m rows IH]; intros ws k; simpl.
  - split; [auto|]. intros [H|(r & Hr & _)]; [exact H | inversion Hr].
  - rewrite IH, reject_step_lookup.
    destruct (decide (k = slc_worker m)) as [->|Hne].
    + split; [|eauto]. intros _. right. exists m. split; [left | reflexivity].
    + split.
      * intros [H|(r & Hr & E)]; [auto|]. right. exists r. split; [right|]; auto.
      * intros [H|(r & Hr & E)]; [auto|].
        apply elem_of_cons in Hr as [->|Hr]; [congruence|]. eauto.
Qed.

Lemma online_fold_dom cfg online :
  forall (ws : gmap string worker_acc) k,
    is_Some (fold_left (online_step cfg) online ws !! k)
    <-> is_Some (ws !! k) \/ exists host, (k, host) ∈ online.
Proof.
  induction online as [|[name host] online IH]; intros ws k; cbn [fold_left].
  - split; [auto|]. intros [H|(h & Hh)]; [exact H | inversion Hh].
  - rewrite IH, online_step_lookup.
    destruct (decide (k = name)) as [->|Hne].
    + split; [|eauto]. intros _. right. exists host. left.
    + split.
      * intros [H|(h & Hh)]; [auto|]. right. exists h. right. exact Hh.
      * intros [H|(h & Hh)]; [auto|].
        apply elem_of_cons in Hh as [E|Hh]; [congruence|]. eauto.
Qed.

Lemma mapM_elem_inv {A B : Type} (f : A -> result B) (l : list A) :
  forall bs a, mapM f l = Ok bs -> a ∈ l -> exists b, b ∈ bs /\ f a = Ok b.
Proof.
  induction l as [|a0 l IH]; intros bs a; simpl.
  - intros _ Ha. inversion Ha.
  - destruct (f a0) as [b0|e] eqn:Ea; simpl; [|discriminate].
    destruct (mapM f l) as [bs0|e] eqn:El; simpl; [|discriminate].
    intros [= <-] Ha. apply elem_of_cons in Ha as [->|Ha].
    + exists b0. split; [left | exact Ea].
    + destruct (IH bs0 a eq_refl Ha) as (b & Hb & Hfb).
      exists b. split; [right; exact Hb | exact Hfb].
Qed.

Lemma StronglySorted_strict (l : list worker_stat) :
  StronglySorted name_le l -> NoDup (ws_name <$> l) -> StronglySorted name_lt l.
Proof.
  induction 1 as [|a l Hl IH Ha]; intros Hnd; [constructor|].
  rewrite fmap_cons in Hnd. apply NoDup_cons in Hnd as [Hna Hnd].
  constructor; [exact (IH Hnd)|].
  rewrite Forall_forall in Ha |- *. intros b Hb.
  unfold name_lt. apply string_ltb_leb_ne. split; [exact (Ha b Hb)|].
  intros E. apply Hna. rewrite E. apply list_elem_of_fmap_2. exact Hb.
Qed.

Section FinishFacts.

Context {R : Rounding}.

(** The finished dict of a worker carries over every accumulated
    entry. *)
Lemma finish_worker_carries cfg name acc w :
  finish_worker cfg (name, acc) = Ok w ->
  ws_name w = name
  /\ ws_accepted w = w_accepted acc /\ ws_rejected w = w_rejected acc
  /\ ws_last_10_shares w = w_last_10_shares acc
  /\ ws_online w = w_online acc /\ ws_server w = w_server acc
  /\ ws_last_10_hashrate w
     = fquot (fquot (shares_to_hashes cfg (w_last_10_shares acc)) 1000000) 600.
Proof.
  unfold finish_worker.
  destruct (efficiency (w_accepted acc) (w_rejected acc)) as [eff|e]; simpl;
    [|discriminate].
  intros [= <-]. simpl. repeat split; reflexivity.
Qed.

Lemma mapM_finish_names cfg (entries : list (string * worker_acc)) :
  forall l, mapM (finish_worker cfg) entries = Ok l ->
            ws_name <$> l = entries.*1.
Proof.
  induction entries as [|[name acc] entries IH]; intros l; simpl.
  - intros [= <-]. reflexivity.
  - destruct (efficiency _ _) as [eff|e]; simpl; [|discriminate].
    destruct (mapM (finish_worker cfg) entries) as [l0|e] eqn:El; simpl;
      [|discriminate].
    intros [= <-]. simpl. f_equal. apply IH. reflexivity.
Qed.

End FinishFacts.

Section WorkerStatsFacts.

Variable floor_time : slice_typ -> datetime -> datetime.
Variable window : slice_typ -> timedelta.
Context {R : Rounding}.

Abbreviation the_workers := (collect_workers floor_time window).
Abbreviation the_stats := (collect_user_stats floor_time window).
Abbreviation the_accepts := (accept_rows floor_time window).
Abbreviation the_rejects := (reject_rows floor_time window).

Lemma view_empty k : view ∅ k = def_worker.
Proof. unfold view. rewrite lookup_empty. reflexivity. Qed.

(** What the three loops leave for a worker. *)
Lemma collect_workers_view cfg db now online address k :
  view (the_workers cfg db now online address) k =
  worker_summary cfg (the_accepts db now address) (the_rejects db now address)
    (floor_minute now - minutes 12) (floor_minute now - minutes 2) online k.
Proof.
  unfold collect_workers, worker_summary.
  rewrite online_fold_view, reject_fold_view, accept_fold_view, view_empty.
  fold (accept_rows floor_time window db now address).
  fold (reject_rows floor_time window db now address).
  apply worker_acc_eq; reflexivity.
Qed.

Lemma collect_workers_dom cfg db now online address k :
  is_Some (the_workers cfg db now online address !! k)
  <-> (exists r, r ∈ the_accepts db now address /\ slc_worker r = k)
      \/ (exists r, r ∈ the_rejects db now address /\ slc_worker r = k)
      \/ (exists host, (k, host) ∈ online).
Proof.
  unfold collect_workers.
  rewrite online_fold_dom, reject_fold_dom, accept_fold_dom, lookup_empty.
  fold (accept_rows floor_time window db now address).
  fold (reject_rows floor_time window db now address).
  split.
  - intros [[[H|H]|H]|H]; auto. destruct H as [? H]. discriminate H.
  - intros [H|[H|H]]; auto.
Qed.

Lemma collect_user_stats_workers_iff cfg db now cache_get hr_perc address stats w :
  the_stats cfg db now cache_get hr_perc address = Ok stats ->
  w ∈ us_workers stats
  <-> exists acc,
        the_workers cfg db now
          (default [] (cache_get ("addr_online_" +:+ address))) address
          !! ws_name w = Some acc
        /\ finish_worker cfg (ws_name w, acc) = Ok w.
Proof.
  unfold collect_user_stats.
  set (workers := collect_workers _ _ _ _ _ _ _).
  destruct (mapM (finish_worker cfg) (map_to_list workers)) as [l|e] eqn:El;
    simpl; [|discriminate].
  intros [= <-]. simpl. rewrite merge_sort_Permutation. split.
  - intros Hw. destruct (mapM_elem _ _ _ _ El Hw) as ([name acc] & Hin & Hfin).
    apply elem_of_map_to_list in Hin.
    pose proof (finish_worker_carries _ _ _ _ Hfin) as (Hn & _).
    exists acc. rewrite Hn. auto.
  - intros (acc & Hacc & Hfin). apply elem_of_map_to_list in Hacc.
    destruct (mapM_elem_inv _ _ _ _ El Hacc) as (b & Hb & Hfb).
    pose proof (eq_trans (eq_sym Hfb) Hfin) as E. injection E as <-. exact Hb.
Qed.

(** An entry of the accumulated dict is a worker of the result. *)
Lemma collect_user_stats_has_worker cfg db now cache_get hr_perc address stats
    name acc :
  the_stats cfg db now cache_get hr_perc address = Ok stats ->
  the_workers cfg db now
    (default [] (cache_get ("addr_online_" +:+ address))) address
    !! name = Some acc ->
  exists w, w ∈ us_workers stats /\ ws_name w = name.
Proof.
  intros Hstats Hacc.
  assert (Hf : exists w, finish_worker cfg (name, acc) = Ok w).
  { revert Hstats. unfold collect_user_stats.
    set (workers := collect_workers _ _ _ _ _ _ _) in *.
    destruct (mapM (finish_worker cfg) (map_to_list workers)) as [l|e] eqn:El;
      simpl; [|discriminate].
    intros _. apply elem_of_map_to_list in Hacc.
    destruct (mapM_elem_inv _ _ _ _ El Hacc) as (b & _ & Hb). eauto. }
  destruct Hf as [w Hf].
  pose proof (finish_worker_carries _ _ _ _ Hf) as (Hn & _).
  exists w. split; [|exact Hn].
  apply (collect_user_stats_workers_iff _ _ _ _ _ _ _ _ Hstats).
  exists acc. rewrite Hn. auto.
Qed.

(** C8: on a store of share counts [collect_user_stats] returns; every
    worker that has an accepted row or a rejected row of the address, or
    an entry of the online feed, is a worker of the result; and for
    every worker of the result the accepted and the rejected total are
    the sums of the values of its rows, and the efficiency is [None]
    when both totals are zero, and otherwise 100 times the float
    quotient accepted / (accepted + rejected), which without rounding
    error is 100 * accepted / (accepted + rejected). *)
Theorem collect_user_stats_efficiency cfg db now cache_get hr_perc address
    (Hdb : nonneg_store db) :
  exists stats,
    collect_user_stats floor_time window cfg db now cache_get hr_perc address
    = Ok stats
    /\ (forall name,
          (exists r, r ∈ accept_rows floor_time window db now address
                     /\ slc_worker r = name)
          \/ (exists r, r ∈ reject_rows floor_time window db now address
                        /\ slc_worker r = name)
          \/ (exists host,
                (name, host)
                ∈ default [] (cache_get ("addr_online_" +:+ address))) ->
          exists w, w ∈ us_workers stats /\ ws_name w = name)
    /\ forall w, w ∈ us_workers stats ->
       ws_accepted w
       = sum_values (of_worker (ws_name w)
                       (accept_rows floor_time window db now address))
       /\ ws_rejected w
          = sum_values (of_worker (ws_name w)
                          (reject_rows floor_time window db now address))
       /\ (ws_accepted w = 0 -> ws_rejected w = 0 -> ws_efficiency w = None)
       /\ (~ (ws_accepted w = 0 /\ ws_rejected w = 0) ->
           ws_efficiency w
           = Some (fmul 100 (fquot (float (ws_accepted w))
                               (float (ws_accepted w + ws_rejected w))))
           /\ (exact_rounding ->
               (fmul 100 (fquot (float (ws_accepted w))
                            (float (ws_accepted w + ws_rejected w)))
                == 100 * inject_Z (ws_accepted w)
                   / inject_Z (ws_accepted w + ws_rejected w))%Q)).
Proof.
  destruct (collect_user_stats_returns floor_time window cfg db now cache_get
              hr_perc address Hdb) as [stats Hstats].
  exists stats. split; [exact Hstats|]. split.
  - intros name Hrows.
    apply (proj2 (collect_workers_dom cfg db now _ address name)) in Hrows
      as [acc Hacc].
    exact (collect_user_stats_has_worker _ _ _ _ _ _ _ _ _ Hstats Hacc).
  - intros w Hw.
    apply (collect_user_stats_workers_iff _ _ _ _ _ _ _ _ Hstats) in Hw
      as (acc & Hacc & Hfin).
    pose proof (finish_worker_fields _ _ _ _ Hfin) as (_ & Ha & Hr & He).
    pose proof (collect_workers_nonneg floor_time window cfg db now _ address
                  Hdb _ _ Hacc) as [Hna Hnr].
    pose proof (collect_workers_view cfg db now
                  (default [] (cache_get ("addr_online_" +:+ address)))
                  address (ws_name w)) as Hv.
    unfold view in Hv. rewrite Hacc in Hv. simpl in Hv.
    rewrite <- Ha in Hna, He. rewrite <- Hr in Hnr, He.
    split; [rewrite Ha, Hv; reflexivity|].
    split; [rewrite Hr, Hv; reflexivity|].
    destruct (efficiency_value (ws_accepted w) (ws_rejected w)) as [Hz Hnz].
    split.
    + intros E1 E2. specialize (Hz E1 E2). congruence.
    + intros Hn. specialize (Hnz Hna Hnr Hn). split; [congruence|].
      intros Hex. apply percentage_exact; [exact Hex | lia].
Qed.

End WorkerStatsFacts.

Lemma collect_user_stats_efficiency_witness :
  exists stats,
    collect_user_stats (R := exact) spec_floor_time spec_window
      default_config example_db t0 example_cache (fun _ => None) "addr1"
    = Ok stats
    /\ (exists w, w ∈ us_workers stats /\ ws_name w = "rig1"
                  /\ ws_accepted w = 16 /\ ws_rejected w = 4
                  /\ exists q, ws_efficiency w = Some q /\ (q == 80)%Q)
    /\ (exists w, w ∈ us_workers stats /\ ws_name w = "rig3"
                  /\ ws_accepted w = 0 /\ ws_rejected w = 0
                  /\ ws_efficiency w = None).
Proof.
  destruct (collect_user_stats_efficiency (R := exact) spec_floor_time
              spec_window default_config example_db t0 example_cache
              (fun _ => None) "addr1" example_db_nonneg)
    as (stats & Hs & Hin & Hall).
  exists stats. split; [exact Hs|]. split.
  - destruct (Hin "rig1") as (w & Hw & Hn).
    { left. exists (share "addr1" "rig1" (t0 - minutes 7) 5).
      split; [|reflexivity].
      apply list_elem_of_In. vm_compute. left. reflexivity. }
    destruct (Hall w Hw) as (Ha & Hr & _ & Hnz).
    rewrite Hn in Ha, Hr.
    assert (Ea : ws_accepted w = 16) by (rewrite Ha; reflexivity).
    assert (Er : ws_rejected w = 4) by (rewrite Hr; reflexivity).
    exists w. repeat split; try assumption.
    destruct Hnz as [Hv Hq]; [lia|].
    eexists. split; [exact Hv|].
    rewrite (Hq exact_is_exact), Ea, Er. reflexivity.
  - destruct (Hin "rig3") as (w & Hw & Hn).
    { right. right. exists "host1". simpl. left. }
    destruct (Hall w Hw) as (Ha & Hr & Hz & _).
    rewrite Hn in Ha, Hr.
    assert (Ea : ws_accepted w = 0) by (rewrite Ha; reflexivity).
    assert (Er : ws_rejected w = 0) by (rewrite Hr; reflexivity).
    exists w. repeat split; try assumption. apply Hz; assumption.
Defined.

(** ** collect_user_stats: what the worker list holds *)

Section WorkerListFacts.

Variable floor_time : slice_typ -> datetime -> datetime.
Variable window : slice_typ -> timedelta.
Context {R : Rounding}.

(** X1: the accepted total of a worker of the result is the sum of the
    values of its rows among the five-minute and one-minute shares of
    the address, its rejected total the sum over the rejects, and its
    last-10 shares the sum over the accepted rows stamped from twelve
    to two minutes before the current minute. *)
Theorem collect_user_stats_worker_totals
    cfg db now cache_get hr_perc address stats w
    (Hstats : collect_user_stats floor_time window cfg db now cache_get
                hr_perc address = Ok stats)
    (Hw : w ∈ us_workers stats) :
  ws_accepted w
  = sum_values (of_worker (ws_name w)
                  (accept_rows floor_time window db now address))
  /\ ws_rejected w
     = sum_values (of_worker (ws_name w)
                     (reject_rows floor_time window db now address))
  /\ ws_last_10_shares w
     = sum_values
         (List.filter (in_last_10 now)
            (of_worker (ws_name w)
               (accept_rows floor_time window db now address))).
Proof.
  apply (collect_user_stats_workers_iff _ _ _ _ _ _ _ _ _ _ Hstats) in Hw
    as (acc & Hacc & Hfin).
  apply finish_worker_carries in Hfin as (_ & -> & -> & -> & _).
  pose proof (collect_workers_view floor_time window cfg db now
                (default [] (cache_get ("addr_online_" +:+ address)))
                address (ws_name w)) as Hv.
  unfold view in Hv. rewrite Hacc in Hv. simpl in Hv. rewrite Hv.
  repeat split; reflexivity.
Qed.

(** X2: a name is in the worker list exactly when the address has an
    accepted row or a rejected row of that worker, or the online feed
    names it. *)
Theorem collect_user_stats_worker_names
    cfg db now cache_get hr_perc address stats name
    (Hstats : collect_user_stats floor_time window cfg db now cache_get
                hr_perc address = Ok stats) :
  (exists w, w ∈ us_workers stats /\ ws_name w = name)
  <-> (exists r, r ∈ accept_rows floor_time window db now address
                 /\ slc_worker r = name)
      \/ (exists r, r ∈ reject_rows floor_time window db now address
                    /\ slc_worker r = name)
      \/ (exists host,
            (name, host) ∈ default [] (cache_get ("addr_online_" +:+ address))).
Proof.
  rewrite <- collect_workers_dom. split.
  - intros (w & Hw & <-).
    apply (collect_user_stats_workers_iff _ _ _ _ _ _ _ _ _ _ Hstats) in Hw
      as (acc & Hacc & _).
    eauto.
  - intros [acc Hacc].
    assert (Hf : exists w, finish_worker cfg (name, acc) = Ok w).
    { revert Hstats. unfold collect_user_stats.
      set (workers := collect_workers _ _ _ _ _ _ _) in *.
      destruct (mapM (finish_worker cfg) (map_to_list workers)) as [l|e] eqn:El;
        simpl; [|discriminate].
      intros _. apply elem_of_map_to_list in Hacc.
      destruct (mapM_elem_inv _ _ _ _ El Hacc) as (b & _ & Hb). eauto. }
    destruct Hf as [w Hf].
    pose proof (finish_worker_carries _ _ _ _ Hf) as (Hn & _).
    exists w. split; [|exact Hn].
    apply (collect_user_stats_workers_iff _ _ _ _ _ _ _ _ _ _ Hstats).
    exists acc. rewrite Hn. auto.
Qed.

(** X3: a worker of the result is online exactly when the feed names
    it; its server is then the endpoint of the last host the feed
    reports for it, and the template's empty dict otherwise. *)
Theorem collect_user_stats_online
    cfg db now cache_get hr_perc address stats w
    (Hstats : collect_user_stats floor_time window cfg db now cache_get
                hr_perc address = Ok stats)
    (Hw : w ∈ us_workers stats) :
  let hosts :=
    feed_hosts (ws_name w)
      (default [] (cache_get ("addr_online_" +:+ address))) in
  (hosts = [] -> ws_online w = false /\ ws_server w = None)
  /\ (forall earlier host,
         hosts = (earlier ++ [host])%list ->
         ws_online w = true /\ ws_server w = Some (stratum_of cfg host)).
Proof.
  apply (collect_user_stats_workers_iff _ _ _ _ _ _ _ _ _ _ Hstats) in Hw
    as (acc & Hacc & Hfin).
  apply finish_worker_carries in Hfin as (_ & _ & _ & _ & -> & -> & _).
  pose proof (collect_workers_view floor_time window cfg db now
                (default [] (cache_get ("addr_online_" +:+ address)))
                address (ws_name w)) as Hv.
  unfold view in Hv. rewrite Hacc in Hv. simpl in Hv. rewrite Hv.
  simpl. split.
  - intros ->. simpl. auto.
  - intros earlier host ->. rewrite List.length_app, List.map_app. simpl.
    rewrite List.last_last. split; [|reflexivity].
    destruct (List.length earlier); reflexivity.
Qed.

(** X4: the worker list is in strictly increasing order of the names,
    so no name occurs twice. *)
Theorem collect_user_stats_sorted cfg db now cache_get hr_perc address stats
    (Hstats : collect_user_stats floor_time window cfg db now cache_get
                hr_perc address = Ok stats) :
  StronglySorted name_lt (us_workers stats).
Proof.
  revert Hstats. unfold collect_user_stats.
  set (workers := collect_workers _ _ _ _ _ _ _).
  destruct (mapM (finish_worker cfg) (map_to_list workers)) as [l|e] eqn:El;
    simpl; [|discriminate].
  intros [= <-]. simpl. apply StronglySorted_strict.
  - apply StronglySorted_merge_sort; apply _.
  - rewrite merge_sort_Permutation. rewrite (mapM_finish_names _ _ _ El).
    apply NoDup_fst_map_to_list.
Qed.

(** X5: when the store has no row of the address, the feed has no entry
    for it and there is no settings row, the result is an empty worker
    list and a donation of 0, not an error. *)
Theorem collect_user_stats_unknown_address
    cfg db now cache_get hr_perc address
    (Hrows : forall typ r, r ∈ db typ -> slc_user r <> address)
    (Hfeed : cache_get ("addr_online_" +:+ address) = None)
    (Hsettings : hr_perc address = None) :
  collect_user_stats floor_time window cfg db now cache_get hr_perc address
  = Ok {| us_workers := []; us_donation_perc := 0; us_last_10_shares := 0;
          us_last_10_hashrate :=
            fquot (fquot (shares_to_hashes cfg 0) 1000000) 600 |}.
Proof.
  assert (Hnone : forall (p : Slice -> bool) typ,
             (forall r, p r = true -> slc_user r = address) ->
             List.filter p (db typ) = []).
  { intros p typ Hp. specialize (Hrows typ).
    induction (db typ) as [|r l IH]; [reflexivity|]. simpl.
    destruct (p r) eqn:E.
    - exfalso. apply (Hrows r); [left | apply Hp; exact E].
    - apply IH. intros r' Hr'. apply Hrows. right. exact Hr'. }
  assert (Hget : forall typ,
             get_typ floor_time window db now typ (Some address) true None None
             = []).
  { intros typ. unfold get_typ. simpl. rewrite Hnone; [reflexivity|].
    intros r. rewrite !andb_true_r. apply String.eqb_eq. }
  unfold collect_user_stats, collect_workers, last_10_shares.
  rewrite Hfeed, Hsettings, !Hget.
  rewrite (Hnone _ OneMinuteShare) by (intros r; apply String.eqb_eq).
  simpl. rewrite map_to_list_empty. reflexivity.
Qed.

End WorkerListFacts.

Lemma collect_user_stats_worker_totals_witness :
  16 = sum_values (of_worker "rig1"
                     (accept_rows spec_floor_time spec_window example_db t0
                        "addr1"))
  /\ 4 = sum_values (of_worker "rig1"
                       (reject_rows spec_floor_time spec_window example_db t0
                          "addr1"))
  /\ 16 = sum_values
            (List.filter (in_last_10 t0)
               (of_worker "rig1"
                  (accept_rows spec_floor_time spec_window example_db t0
                     "addr1"))).
Proof.
  apply (collect_user_stats_worker_totals (R := exact) spec_floor_time
           spec_window default_config example_db t0 example_cache
           (fun _ => None) "addr1" example_stats example_rig1).
  - vm_compute. reflexivity.
  - simpl. left.
Defined.

Lemma collect_user_stats_worker_names_witness :
  (exists w, w ∈ us_workers example_stats /\ ws_name w = "rig3")
  <-> (exists r, r ∈ accept_rows spec_floor_time spec_window example_db t0
                       "addr1" /\ slc_worker r = "rig3")
      \/ (exists r, r ∈ reject_rows spec_floor_time spec_window example_db t0
                          "addr1" /\ slc_worker r = "rig3")
      \/ (exists host,
            ("rig3", host)
            ∈ default [] (example_cache ("addr_online_" +:+ "addr1"))).
Proof.
  apply (collect_user_stats_worker_names (R := exact) spec_floor_time
           spec_window default_config example_db t0 example_cache
           (fun _ => None) "addr1" example_stats "rig3").
  vm_compute. reflexivity.
Defined.

Lemma collect_user_stats_online_witness :
  ws_online example_rig3 = true
  /\ ws_server example_rig3 = Some (stratum_of default_config "host1").
Proof.
  destruct (collect_user_stats_online (R := exact) spec_floor_time
              spec_window default_config example_db t0 example_cache
              (fun _ => None) "addr1" example_stats example_rig3) as [_ H].
  - vm_compute. reflexivity.
  - simpl. right. right. left.
  - apply (H [] "host1"). reflexivity.
Defined.

Lemma collect_user_stats_sorted_witness :
  StronglySorted name_lt [example_rig1; example_rig2; example_rig3].
Proof.
  apply (collect_user_stats_sorted (R := exact) spec_floor_time spec_window
           default_config example_db t0 example_cache (fun _ => None) "addr1"
           example_stats).
  vm_compute. reflexivity.
Defined.

Lemma collect_user_stats_unknown_address_witness :
  collect_user_stats (R := exact) spec_floor_time spec_window default_config
    example_db t0 example_cache (fun _ => None) "nobody"
  = Ok {| us_workers := []; us_donation_perc := 0; us_last_10_shares := 0;
          us_last_10_hashrate :=
            fquot (R := exact)
              (fquot (R := exact) (shares_to_hashes (R := exact)
                                     default_config 0) 1000000) 600 |}.
Proof.
  apply (collect_user_stats_unknown_address (R := exact) spec_floor_time
           spec_window default_config example_db t0 example_cache
           (fun _ => None) "nobody").
  - intros typ r Hr E. destruct typ; simpl in Hr;
      unfold example_minutes, example_rejects in Hr;
      repeat (apply elem_of_cons in Hr as [->|Hr]; [discriminate E|]);
      inversion Hr.
  - reflexivity.
  - reflexivity.
Defined.

(** ** Pool totals and windows *)

Lemma sum_values_filter_split (p q : Slice -> bool) (rows : list Slice) :
  (forall r, p r && q r = false) ->
  sum_values (List.filter (fun r => p r || q r) rows)
  = sum_values (List.filter p rows) + sum_values (List.filter q rows).
Proof.
  intros Hpq. induction rows as [|r rows IH]; simpl; [reflexivity|].
  specialize (Hpq r).
  destruct (p r), (q r); simpl in *; try discriminate;
    rewrite ?sum_values_cons; lia.
Qed.

Lemma sum_values_filter_mono (p q : Slice -> bool) (rows : list Slice) :
  Forall (fun r => 0 <= slc_value r) rows ->
  (forall r, p r = true -> q r = true) ->
  sum_values (List.filter p rows) <= sum_values (List.filter q rows).
Proof.
  intros Hnn Hpq. induction Hnn as [|r rows Hr _ IH]; simpl; [lia|].
  specialize (Hpq r).
  destruct (p r), (q r); rewrite ?sum_values_cons; lia.
Qed.

(** X6: the window of [get_pool_hashrate] is the window of
    [last_10_shares] with both ends added: the pool rate is computed
    from the last-10 shares of the user [pool] plus the shares stamped
    exactly twelve or exactly two minutes ago. *)
Theorem get_pool_hashrate_last_10 {R : Rounding} (db : database)
    (now : datetime) :
  get_pool_hashrate db now
  = fquot (float (last_10_shares db now "pool" + pool_boundary_shares db now))
      600000.
Proof.
  unfold get_pool_hashrate, last_10_shares, pool_boundary_shares.
  do 2 f_equal. rewrite !filter_filter.
  rewrite <- sum_values_filter_split.
  - f_equal. apply filter_ext. intros r.
    assert (Hlt : now - minutes 12 < now - minutes 2)
      by (unfold minutes, us_per_second; lia).
    destruct (String.eqb (slc_user r) "pool"); simpl; [|reflexivity].
    destruct (Z.leb_spec (now - minutes 12) (slc_time r));
      destruct (Z.leb_spec (slc_time r) (now - minutes 2));
      destruct (Z.ltb_spec (now - minutes 12) (slc_time r));
      destruct (Z.ltb_spec (slc_time r) (now - minutes 2));
      destruct (Z.eqb_spec (slc_time r) (now - minutes 12));
      destruct (Z.eqb_spec (slc_time r) (now - minutes 2));
      simpl; try reflexivity; lia.
  - intros r. destruct (String.eqb (slc_user r) "pool"); simpl; [|reflexivity].
    destruct (Z.ltb_spec (now - minutes 12) (slc_time r));
      destruct (Z.ltb_spec (slc_time r) (now - minutes 2));
      destruct (Z.eqb_spec (slc_time r) (now - minutes 12));
      destruct (Z.eqb_spec (slc_time r) (now - minutes 2));
      simpl; try reflexivity; lia.
Qed.

Section PoolFacts.

Context {R : Rounding} {L : RoundingLaws}.

Lemma percentage_range_r (q : Q) :
  (0 <= q <= 1)%Q -> (0 <= fmul q 100 <= 100)%Q.
Proof.
  intros [H0 H1]. unfold fmul. split.
  - rewrite <- rnd_0. apply rnd_mono.
    apply Qmult_le_0_compat; [exact H0 | discriminate].
  - rewrite <- rnd_100 at 2. apply rnd_mono.
    apply Qle_trans with (1 * 100)%Q; [|discriminate].
    apply Qmult_le_compat_r; [exact H1 | discriminate].
Qed.

(** X7: on a store of share counts [get_pool_eff] never raises, and
    what it returns is the integer 100 or a float between 0 and 100. *)
Theorem get_pool_eff_range (db : database) (now : datetime)
    (td : option timedelta) (Hdb : nonneg_store db) :
  get_pool_eff db now td = Ok (PyInt 100)
  \/ exists q, get_pool_eff db now td = Ok (PyFloat q) /\ (0 <= q <= 100)%Q.
Proof.
  pose proof (get_pool_acc_rej_nonneg db now td Hdb) as [Hr Ha].
  unfold get_pool_eff. destruct (get_pool_acc_rej db now td) as [rej acc].
  simpl in Hr, Ha.
  destruct (Z.eqb_spec rej 0) as [Er|Er];
    destruct (Z.eqb_spec acc 0) as [Ea|Ea]; simpl; auto; right;
    (rewrite float_div_ok by lia); simpl;
    (eexists; split; [reflexivity|]);
    apply percentage_range_r; apply share_of_total_range; lia.
Qed.

End PoolFacts.

Lemma get_pool_eff_range_witness :
  get_pool_eff (R := exact) example_db t0 None = Ok (PyInt 100)
  \/ exists q, get_pool_eff (R := exact) example_db t0 None = Ok (PyFloat q)
               /\ (0 <= q <= 100)%Q.
Proof.
  apply (get_pool_eff_range (R := exact) (L := exact_laws) example_db t0 None).
  exact example_db_nonneg.
Defined.

(** X8: within one granularity a longer span never reports fewer
    rejected or accepted shares, on a store of share counts. *)
Theorem get_pool_acc_rej_monotone (db : database) (now : datetime)
    (td1 td2 : timedelta)
    (Hdb : nonneg_store db) (Hle : td1 <= td2)
    (Hsame : fine_span (Some td1) = fine_span (Some td2)) :
  fst (get_pool_acc_rej db now (Some td1))
  <= fst (get_pool_acc_rej db now (Some td2))
  /\ snd (get_pool_acc_rej db now (Some td1))
     <= snd (get_pool_acc_rej db now (Some td2)).
Proof.
  unfold fine_span in Hsame. simpl in Hsame.
  unfold get_pool_acc_rej. simpl. rewrite Hsame.
  destruct (Z.leb td2 (days 1)); simpl; rewrite !filter_filter;
    split; apply sum_values_filter_mono; try apply Hdb;
    intros r; rewrite !andb_true_iff, !Z.leb_le; intros [H1 H2];
    split; [lia | exact H2 | lia | exact H2 | lia | exact H2 | lia | exact H2].
Qed.

Lemma example_pool_db_nonneg : nonneg_store example_pool_db.
Proof. intros typ. destruct typ; simpl; repeat constructor; simpl; lia. Qed.

(** On the hour tables three days reach 20 rejected and 600 accepted
    shares and thirty days 25 and 900; on the five-minute tables two
    hours reach 2 and 40, six hours 5 and 110. *)
Lemma get_pool_acc_rej_monotone_witness :
  (get_pool_acc_rej example_pool_db t0 (Some (days 3)) = (20, 600)
   /\ get_pool_acc_rej example_pool_db t0 (Some (days 30)) = (25, 900)
   /\ fst (get_pool_acc_rej example_pool_db t0 (Some (days 3)))
      <= fst (get_pool_acc_rej example_pool_db t0 (Some (days 30)))
   /\ snd (get_pool_acc_rej example_pool_db t0 (Some (days 3)))
      <= snd (get_pool_acc_rej example_pool_db t0 (Some (days 30))))
  /\ (get_pool_acc_rej example_pool_db t0 (Some (hours 2)) = (2, 40)
      /\ get_pool_acc_rej example_pool_db t0 (Some (hours 6)) = (5, 110)
      /\ fst (get_pool_acc_rej example_pool_db t0 (Some (hours 2)))
         <= fst (get_pool_acc_rej example_pool_db t0 (Some (hours 6)))
      /\ snd (get_pool_acc_rej example_pool_db t0 (Some (hours 2)))
         <= snd (get_pool_acc_rej example_pool_db t0 (Some (hours 6)))).
Proof.
  split; (split; [reflexivity|]); (split; [reflexivity|]).
  - apply (get_pool_acc_rej_monotone example_pool_db t0 (days 3) (days 30)).
    + exact example_pool_db_nonneg.
    + vm_compute. discriminate.
    + reflexivity.
  - apply (get_pool_acc_rej_monotone example_pool_db t0 (hours 2) (hours 6)).
    + exact example_pool_db_nonneg.
    + vm_compute. discriminate.
    + reflexivity.
Defined.

(** ** compress_typ: which buckets exist *)

Section CompressDomain.

Variable floor_time : slice_typ -> datetime -> datetime.
Variable upper_floor_time : slice_typ -> datetime -> datetime.
Variable window : slice_typ -> timedelta.

Lemma compress_step_bucket typ worker (w : gmap string (gmap Z Z)) slc key stamp :
  is_Some (compress_step floor_time upper_floor_time typ worker w slc !! key
           ≫= fun inner => inner !! stamp)
  <-> is_Some (w !! key ≫= fun inner => inner !! stamp)
      \/ in_bucket floor_time upper_floor_time typ worker key stamp slc = true.
Proof.
  rewrite compress_step_lookup. unfold in_bucket, add_to_bucket.
  destruct (decide (key = compress_key worker slc)) as [->|Hne].
  - rewrite String.eqb_refl. simpl.
    destruct (Z.eqb_spec
                (compress_stamp floor_time upper_floor_time typ worker slc)
                stamp) as [->|Hs].
    + rewrite lookup_insert_eq. split; [auto | eauto].
    + rewrite lookup_insert_ne by congruence.
      destruct (w !! compress_key worker slc) as [inner|]; simpl.
      * split; [auto|]. intros [H|H]; [exact H | discriminate].
      * rewrite lookup_empty. split; [auto|]. intros [H|H];
          [exact H | discriminate].
  - destruct (String.eqb_spec (compress_key worker slc) key) as [E|_];
      [congruence|]. simpl. split; [auto|].
    intros [H|H]; [exact H | discriminate].
Qed.

(** X9: after [compress_typ] a bucket exists exactly when it existed
    before or a record of the query lands in it: no bucket is dropped
    and none is created without a record. *)
Theorem compress_typ_buckets (db : database) (now : datetime)
    (typ : slice_typ) (workers : gmap string (gmap Z Z))
    (address worker : option string) (key : string) (stamp : Z) :
  is_Some (compress_typ floor_time upper_floor_time window db now typ workers
             address worker !! key ≫= fun inner => inner !! stamp)
  <-> is_Some (workers !! key ≫= fun inner => inner !! stamp)
      \/ exists r,
           r ∈ get_typ floor_time window db now typ address false worker None
           /\ in_bucket floor_time upper_floor_time typ worker key stamp r
              = true.
Proof.
  unfold compress_typ, compress_rows.
  generalize (get_typ floor_time window db now typ address false worker None).
  intros rows. revert workers.
  induction rows as [|m rows IH]; intros workers; simpl.
  - split; [auto|]. intros [H|(r & Hr & _)]; [exact H | inversion Hr].
  - rewrite IH, compress_step_bucket. split.
    + intros [[H|H]|(r & Hr & Hb)]; auto.
      * right. exists m. split; [left | exact H].
      * right. exists r. split; [right; exact Hr | exact Hb].
    + intros [H|(r & Hr & Hb)]; auto.
      apply elem_of_cons in Hr as [->|Hr]; [auto|]. right. eauto.
Qed.

End CompressDomain.

(** ** Blocks *)

#[local] Instance height_ge_total : Total height_ge.
Proof. intros a b. unfold height_ge. lia. Qed.

#[local] Instance height_ge_trans : Transitive height_ge.
Proof. intros a b c. unfold height_ge. lia. Qed.

#[local] Instance time_le_total : Total time_le.
Proof. intros a b. unfold time_le. lia. Qed.

#[local] Instance time_le_trans : Transitive time_le.
Proof. intros a b c. unfold time_le. lia. Qed.

(** The head of a sorted list: there is none only for the empty list,
    and it is in the list and before every element. *)
Lemma head_merge_sort {A : Type} (Rel : relation A)
    `{forall x y, Decision (Rel x y)} `{!Total Rel} `{!Transitive Rel}
    `{!Reflexive Rel} (l : list A) :
  match head (merge_sort Rel l) with
  | None => l = []
  | Some x => x ∈ l /\ forall y, y ∈ l -> Rel x y
  end.
Proof.
  pose proof (StronglySorted_merge_sort Rel l) as Hs.
  pose proof (merge_sort_Permutation Rel l) as Hp.
  destruct (merge_sort Rel l) as [|x s]; simpl.
  - apply Permutation_nil_l in Hp. symmetry. exact Hp.
  - split.
    + rewrite <- Hp. left.
    + intros y Hy. rewrite <- Hp in Hy.
      apply StronglySorted_cons in Hs as [Hx _].
      apply elem_of_cons in Hy as [->|Hy]; [reflexivity|].
      rewrite Forall_forall in Hx. apply Hx. exact Hy.
Qed.

#[local] Instance height_ge_refl : Reflexive height_ge.
Proof. intros a. unfold height_ge. lia. Qed.

#[local] Instance time_le_refl : Reflexive time_le.
Proof. intros a. unfold time_le. lia. Qed.

Lemma first_by_height_desc_spec (blocks : list Block) :
  match first_by_height_desc blocks with
  | None => blocks = []
  | Some b => b ∈ blocks /\ forall b', b' ∈ blocks -> blk_height b' <= blk_height b
  end.
Proof. apply (head_merge_sort height_ge). Qed.

Lemma first_by_time_spec (rows : list Slice) :
  match first_by_time rows with
  | None => rows = []
  | Some r => earliest_in rows (slc_time r)
  end.
Proof.
  unfold first_by_time, earliest_in.
  pose proof (head_merge_sort time_le rows) as H.
  destruct (head (merge_sort time_le rows)) as [r|]; [|exact H].
  destruct H as [Hin Hle]. split; [eauto | exact Hle].
Qed.

Lemma first_by_height_desc_some (blocks : list Block) :
  blocks <> [] ->
  exists b, first_by_height_desc blocks = Some b /\ b ∈ blocks
            /\ forall b', b' ∈ blocks -> blk_height b' <= blk_height b.
Proof.
  intros Hne. pose proof (first_by_height_desc_spec blocks) as H.
  destruct (first_by_height_desc blocks) as [b|]; [|contradiction].
  exists b. tauto.
Qed.

Lemma first_by_time_some (rows : list Slice) :
  rows <> [] ->
  exists r, first_by_time rows = Some r /\ earliest_in rows (slc_time r).
Proof.
  intros Hne. pose proof (first_by_time_spec rows) as H.
  destruct (first_by_time rows) as [r|]; [|contradiction].
  exists r. tauto.
Qed.

Lemma elem_of_filter_list {A : Type} (p : A -> bool) (l : list A) (x : A) :
  x ∈ List.filter p l <-> x ∈ l /\ p x = true.
Proof. rewrite !list_elem_of_In. apply filter_In. Qed.

(** X10: [last_blockheight] is the height of a block of the merged
    type that no other block of that type exceeds, and 0 when there is
    no such block. *)
Theorem last_blockheight_highest (blocks : list Block)
    (merged_type : option string) :
  (forall b, b ∈ blocks ->
             column_eqb (blk_merged_type b) merged_type = true ->
             blk_height b <= last_blockheight blocks merged_type)
  /\ ((forall b, b ∈ blocks ->
                 column_eqb (blk_merged_type b) merged_type = false) ->
      last_blockheight blocks merged_type = 0)
  /\ (forall b0, b0 ∈ blocks ->
                 column_eqb (blk_merged_type b0) merged_type = true ->
      exists b, b ∈ blocks
                /\ column_eqb (blk_merged_type b) merged_type = true
                /\ last_blockheight blocks merged_type = blk_height b).
Proof.
  unfold last_blockheight, last_block_found.
  pose proof (first_by_height_desc_spec
                (List.filter
                   (fun b => column_eqb (blk_merged_type b) merged_type) blocks))
    as Hspec.
  destruct (first_by_height_desc _) as [top|].
  - destruct Hspec as [Htop Hmax]. apply elem_of_filter_list in Htop as [Hin Hm].
    split; [|split].
    + intros b Hb Hbm. apply Hmax. apply elem_of_filter_list. auto.
    + intros Hnone. rewrite (Hnone top Hin) in Hm. discriminate.
    + intros _ _ _. exists top. auto.
  - split; [|split].
    + intros b Hb Hbm.
      assert (Hf : b ∈ List.filter
                         (fun b => column_eqb (blk_merged_type b) merged_type)
                         blocks) by (apply elem_of_filter_list; auto).
      rewrite Hspec in Hf. inversion Hf.
    + reflexivity.
    + intros b Hb Hbm.
      assert (Hf : b ∈ List.filter
                         (fun b => column_eqb (blk_merged_type b) merged_type)
                         blocks) by (apply elem_of_filter_list; auto).
      rewrite Hspec in Hf. inversion Hf.
Qed.

Lemma last_blockheight_highest_witness :
  last_blockheight example_blocks None = 102
  /\ last_blockheight example_blocks (Some "LTC") = 0.
Proof.
  destruct (last_blockheight_highest example_blocks (Some "LTC"))
    as (_ & Hnone & _).
  split; [reflexivity|].
  apply Hnone. intros b Hb. unfold example_blocks in Hb.
  repeat (apply elem_of_cons in Hb as [->|Hb]; [reflexivity|]).
  inversion Hb.
Defined.

(** X11: [last_block_time_nocache] returns the time a highest block of
    the algorithm and merged type was found; without such a block, the
    earliest stamp of the hour shares of any user and algorithm; without
    hour shares that of the five-minute shares, then that of the
    one-minute shares; and the current time only when all of these are
    empty. *)
Theorem last_block_time_nocache_cascade (blocks : list Block) (db : database)
    (now : datetime) (algo merged_type : option string) :
  let matching :=
    List.filter (fun b => column_eqb (blk_merged_type b) merged_type
                          && column_eqb (blk_algo b) algo) blocks in
  let t := last_block_time_nocache blocks db now algo merged_type in
  (matching <> [] ->
   exists b, b ∈ matching /\ t = blk_found_at b
             /\ forall b', b' ∈ matching -> blk_height b' <= blk_height b)
  /\ (matching = [] -> db OneHourShare <> [] ->
      earliest_in (db OneHourShare) t)
  /\ (matching = [] -> db OneHourShare = [] -> db FiveMinuteShare <> [] ->
      earliest_in (db FiveMinuteShare) t)
  /\ (matching = [] -> db OneHourShare = [] -> db FiveMinuteShare = [] ->
      db OneMinuteShare <> [] -> earliest_in (db OneMinuteShare) t)
  /\ (matching = [] -> db OneHourShare = [] -> db FiveMinuteShare = [] ->
      db OneMinuteShare = [] -> t = now).
Proof.
  intros matching t. unfold t, last_block_time_nocache. fold matching.
  split; [|split; [|split; [|split]]].
  - intros Hne. destruct (first_by_height_desc_some matching Hne)
      as (top & -> & Hin & Hmax).
    exists top. auto.
  - intros -> Hh. destruct (first_by_time_some _ Hh) as (r & Hr & He).
    simpl. rewrite Hr. exact He.
  - intros -> -> Hf. destruct (first_by_time_some _ Hf) as (r & Hr & He).
    simpl. rewrite Hr. exact He.
  - intros -> -> -> Hm. destruct (first_by_time_some _ Hm) as (r & Hr & He).
    simpl. rewrite Hr. exact He.
  - intros -> -> -> ->. reflexivity.
Qed.

Lemma last_block_time_nocache_cascade_witness :
  last_block_time_nocache example_blocks example_db t0 (Some "x11") None
  = t0 - hours 1
  /\ earliest_in (example_db OneHourShare)
       (last_block_time_nocache example_blocks example_db t0 (Some "sha256")
          None)
  /\ last_block_time_nocache [] (fun _ => []) t0 None None = t0.
Proof.
  split; [reflexivity|]. split.
  - destruct (last_block_time_nocache_cascade example_blocks example_db t0
                (Some "sha256") None) as (_ & H & _).
    apply H; [reflexivity | discriminate].
  - destruct (last_block_time_nocache_cascade [] (fun _ => []) t0 None None)
      as (_ & _ & _ & _ & H).
    apply H; reflexivity.
Defined.

(** X12: a share id other than 0 that [last_block_share_id_nocache]
    returns is the last share id of a highest block of the merged type;
    the algorithm plays no part. *)
Theorem last_block_share_id_nocache_source (blocks : list Block)
    (algorithm merged_type : option string) (id : Z)
    (Hid : last_block_share_id_nocache blocks algorithm merged_type = id)
    (Hnz : id <> 0) :
  exists b, b ∈ blocks
            /\ column_eqb (blk_merged_type b) merged_type = true
            /\ blk_last_share_id b = Some id
            /\ forall b', b' ∈ blocks ->
                 column_eqb (blk_merged_type b') merged_type = true ->
                 blk_height b' <= blk_height b.
Proof.
  revert Hid. unfold last_block_share_id_nocache.
  pose proof (first_by_height_desc_spec
                (List.filter
                   (fun b => column_eqb (blk_merged_type b) merged_type) blocks))
    as Hspec.
  destruct (first_by_height_desc _) as [top|]; [|congruence].
  destruct Hspec as [Htop Hmax]. apply elem_of_filter_list in Htop as [Hin Hm].
  destruct (blk_last_share_id top) as [i|] eqn:Ei; [|congruence].
  destruct (Z.eqb_spec i 0); [congruence|]. intros <-.
  exists top. repeat split; auto.
  intros b' Hb' Hm'. apply Hmax. apply elem_of_filter_list. auto.
Qed.

Lemma last_block_share_id_nocache_source_witness :
  exists b, b ∈ example_blocks
            /\ column_eqb (blk_merged_type b) None = true
            /\ blk_last_share_id b = Some 4200
            /\ forall b', b' ∈ example_blocks ->
                 column_eqb (blk_merged_type b') None = true ->
                 blk_height b' <= blk_height b.
Proof.
  apply (last_block_share_id_nocache_source example_blocks (Some "x11") None
           4200).
  - reflexivity.
  - discriminate.
Defined.

(** ** CurrencyKeeper *)

Lemma insert_versions_lookup (val : Currency) (vers : list Z) :
  forall (lut : gmap Z Currency) (ver : Z),
    fold_left (fun lut ver => <[ver := val]> lut) vers lut !! ver
    = if bool_decide (ver ∈ vers) then Some val else lut !! ver.
Proof.
  induction vers as [|v vers IH]; intros lut ver; cbn [fold_left].
  - case_bool_decide as H; [inversion H | reflexivity].
  - rewrite IH. repeat case_bool_decide; try reflexivity.
    + exfalso. match goal with H : ver ∉ v :: vers |- _ => apply H end.
      right. assumption.
    + match goal with H : ver ∈ v :: vers |- _ =>
        apply elem_of_cons in H as [->|H]; [|contradiction] end.
      apply lookup_insert_eq.
    + apply lookup_insert_ne. intros ->.
      match goal with H : ver ∉ ver :: vers |- _ => apply H end. left.
Qed.

Lemma setcurr_version (self : CurrencyKeeper) (val : Currency) (ver : Z) :
  lookup_version (setcurr self val) ver
  = if lists_version ver val then inl val else lookup_version self ver.
Proof.
  unfold lookup_version, setcurr, lists_version. simpl.
  rewrite insert_versions_lookup.
  destruct (bool_decide (ver ∈ address_version val)); reflexivity.
Qed.

Lemma find_app_list {A : Type} (p : A -> bool) (l1 l2 : list A) :
  List.find p (l1 ++ l2)
  = match List.find p l1 with
    | Some a => Some a
    | None => List.find p l2
    end.
Proof.
  induction l1 as [|a l1 IH]; simpl; [reflexivity|].
  destruct (p a); [reflexivity | exact IH].
Qed.

(** X13: after [setcurr val] the name of [val] gives [val], as an item
    and as an attribute, and every version that [val] lists resolves to
    [val]; every other name and version resolves as before. *)
Theorem setcurr_lookups (self : CurrencyKeeper) (val : Currency) :
  (forall ver,
      lookup_version (setcurr self val) ver
      = if lists_version ver val then inl val else lookup_version self ver)
  /\ (forall name,
         ck_items (setcurr self val) !! name
         = if decide (name = currency_name val) then Some val
           else ck_items self !! name)
  /\ (forall name,
         keeper_getattr (setcurr self val) name
         = if decide (name = currency_name val) then Some val
           else keeper_getattr self name).
Proof.
  split; [|split].
  - apply setcurr_version.
  - intros name. simpl. destruct (decide (name = currency_name val)) as [->|Hne].
    + apply lookup_insert_eq.
    + apply lookup_insert_ne. congruence.
  - intros name. unfold keeper_getattr. simpl.
    destruct (decide (name = currency_name val)) as [->|Hne].
    + rewrite lookup_insert_eq. reflexivity.
    + rewrite !lookup_insert_ne by congruence. reflexivity.
Qed.

Lemma register_version (vals : list Currency) :
  forall (self : CurrencyKeeper) (ver : Z),
    lookup_version (register self vals) ver
    = match List.find (lists_version ver) (rev vals) with
      | Some c => inl c
      | None => lookup_version self ver
      end.
Proof.
  unfold register.
  induction vals as [|val vals IH]; intros self ver; simpl; [reflexivity|].
  rewrite IH, setcurr_version, find_app_list.
  destruct (List.find (lists_version ver) (rev vals)); [reflexivity|].
  simpl. destruct (lists_version ver val); reflexivity.
Qed.

(** X14: after a sequence of registrations a version resolves to the
    last currency of the sequence that lists it, and when none does, as
    it did before; on a new keeper that is the version error. The
    versions that [available_versions] reports are named the same
    way. *)
Theorem register_lookup_version (vals : list Currency)
    (self : CurrencyKeeper) (ver : Z) :
  lookup_version (register self vals) ver
  = match List.find (lists_version ver) (rev vals) with
    | Some c => inl c
    | None => lookup_version self ver
    end
  /\ available_versions (register self vals) !! ver
     = match List.find (lists_version ver) (rev vals) with
       | Some c => Some (currency_name c)
       | None => available_versions self !! ver
       end.
Proof.
  pose proof (register_version vals self ver) as H.
  split; [exact H|].
  unfold available_versions. rewrite !lookup_fmap.
  unfold lookup_version in H.
  destruct (version_lut (register self vals) !! ver) as [c1|];
    destruct (List.find (lists_version ver) (rev vals)) as [c2|];
    destruct (version_lut self !! ver) as [c3|];
    simpl; congruence.
Qed.

Section KeeperFacts.

Variable base58_address_version : string -> Z.

(** X15: on a keeper filled by [setcurr], the currency that
    [lookup_address] returns is one of the registered currencies and
    lists the version of the address; the lookup fails exactly when no
    registered currency lists that version, and then with the error of
    the address, never with the one of the version. *)
Theorem lookup_address_registered (vals : list Currency) (address : string) :
  (forall c,
      lookup_address base58_address_version (register empty_keeper vals)
        address = inl c ->
      c ∈ vals /\ base58_address_version address ∈ address_version c)
  /\ (lookup_address base58_address_version (register empty_keeper vals)
        address = inr AddressNotConfigured
      <-> forall c, c ∈ vals ->
                    base58_address_version address ∉ address_version c)
  /\ lookup_address base58_address_version (register empty_keeper vals)
       address <> inr VersionNotAvailable.
Proof.
  unfold lookup_address. rewrite register_version.
  destruct (List.find (lists_version (base58_address_version address))
              (rev vals)) as [c0|] eqn:Ef.
  - apply find_some in Ef as [Hin Hl].
    apply in_rev, list_elem_of_In in Hin.
    unfold lists_version in Hl. apply bool_decide_eq_true_1 in Hl.
    split; [|split].
    + intros c [= <-]. split; assumption.
    + split; [discriminate|]. intros H. exfalso. exact (H c0 Hin Hl).
    + discriminate.
  - split; [|split].
    + intros c. discriminate.
    + split; [|reflexivity]. intros _ c Hc Hl.
      pose proof (find_none _ _ Ef c) as Hn.
      apply list_elem_of_In, in_rev in Hc.
      specialize (Hn Hc). unfold lists_version in Hn.
      apply bool_decide_eq_false_1 in Hn. contradiction.
    + discriminate.
Qed.

End KeeperFacts.

Example register_lookup_version_new :
  lookup_version (register empty_keeper [example_btc; example_ltc]) 5
  = inl example_ltc
  /\ lookup_version (register empty_keeper [example_btc; example_ltc]) 0
     = inl example_btc
  /\ lookup_version (register empty_keeper [example_btc; example_ltc]) 111
     = inr VersionNotAvailable.
Proof. repeat split; vm_compute; reflexivity. Qed.

(** A keeper that only [setcurr] has written to. *)
Lemma register_invariant (vals : list Currency) :
  forall self,
    ck_attrs self = ck_items self ->
    (forall name c, ck_items self !! name = Some c -> currency_name c = name) ->
    ck_attrs (register self vals) = ck_items (register self vals)
    /\ (forall name c, ck_items (register self vals) !! name = Some c ->
                       currency_name c = name).
Proof.
  unfold register.
  induction vals as [|val vals IH]; intros self Ha Hn; simpl; [auto|].
  apply IH; simpl.
  - rewrite Ha. reflexivity.
  - intros name c. destruct (decide (name = currency_name val)) as [->|Hne].
    + rewrite lookup_insert_eq. intros [= <-]. reflexivity.
    + rewrite lookup_insert_ne by congruence. apply Hn.
Qed.

(** X16: on a keeper filled by [setcurr] the attribute of a name and
    the item of that name are the same currency, and that currency
    bears the name. *)
Theorem register_getattr (vals : list Currency) (name : string) :
  keeper_getattr (register empty_keeper vals) name
  = ck_items (register empty_keeper vals) !! name
  /\ forall c, ck_items (register empty_keeper vals) !! name = Some c ->
               currency_name c = name.
Proof.
  destruct (register_invariant vals empty_keeper) as [Ha Hn].
  - reflexivity.
  - intros n c. simpl. rewrite lookup_empty. discriminate.
  - split; [|apply Hn]. unfold keeper_getattr. rewrite Ha.
    destruct (ck_items (register empty_keeper vals) !! name); reflexivity.
Qed.

(** X17: [payout_currencies] of a keeper filled by [setcurr] holds
    exactly the currencies that are the current entry of their name and
    whose [exchangeable] attribute is true. *)
Theorem register_payout_currencies (vals : list Currency) (c : Currency) :
  c ∈ payout_currencies (register empty_keeper vals)
  <-> ck_items (register empty_keeper vals) !! currency_name c = Some c
      /\ exchangeable c = Some true.
Proof.
  destruct (register_invariant vals empty_keeper) as [_ Hn].
  - reflexivity.
  - intros n c'. simpl. rewrite lookup_empty. discriminate.
  - unfold payout_currencies. rewrite elem_of_filter_list.
    split.
    + intros [Hin He]. apply list_elem_of_fmap in Hin as ([name c'] & -> & Hin).
      apply elem_of_map_to_list in Hin. simpl in *.
      rewrite (Hn _ _ Hin). split; [exact Hin|].
      destruct (exchangeable c') as [[|]|]; congruence.
    + intros [Hin He]. split.
      * apply list_elem_of_fmap. exists (currency_name c, c). split; [reflexivity|].
        apply elem_of_map_to_list. exact Hin.
      * rewrite He. reflexivity.
Qed.

(** X18: [setcurr] never retires a version: when a currency is replaced
    under its name, the versions that only the old entry listed still
    resolve to the old entry, which is no longer an item of the
    keeper. *)
Theorem setcurr_keeps_stale_versions (self : CurrencyKeeper)
    (old new : Currency) (ver : Z)
    (Hname : currency_name new = currency_name old)
    (Hold : ver ∈ address_version old)
    (Hnew : ver ∉ address_version new) :
  lookup_version (setcurr (setcurr self old) new) ver = inl old
  /\ ck_items (setcurr (setcurr self old) new) !! currency_name old = Some new.
Proof.
  split.
  - rewrite !setcurr_version. unfold lists_version.
    rewrite (bool_decide_eq_false_2 _ Hnew), (bool_decide_eq_true_2 _ Hold).
    reflexivity.
  - simpl. rewrite Hname. apply lookup_insert_eq.
Qed.

Lemma setcurr_keeps_stale_versions_witness :
  lookup_version (setcurr (setcurr empty_keeper example_btc) example_btc_new) 5
  = inl example_btc
  /\ ck_items (setcurr (setcurr empty_keeper example_btc) example_btc_new)
       !! "BTC" = Some example_btc_new.
Proof.
  apply (setcurr_keeps_stale_versions empty_keeper example_btc example_btc_new 5).
  - reflexivity.
  - right. left.
  - intros H. apply elem_of_cons in H as [H|H]; [discriminate H | inversion H].
Defined.

(** ** resort_recent_visit *)

Lemma insert_desc_perm (x : string * Z) (l : list (string * Z)) :
  insert_desc x l ≡ₚ x :: l.
Proof.
  induction l as [|y l IH]; simpl; [reflexivity|].
  destruct (Z.leb (snd y) (snd x)); [reflexivity|].
  rewrite IH. apply perm_swap.
Qed.

Lemma sorted_desc_perm (l : list (string * Z)) : sorted_desc l ≡ₚ l.
Proof.
  induction l as [|x l IH]; simpl; [reflexivity|].
  rewrite insert_desc_perm, IH. reflexivity.
Qed.

Lemma insert_desc_sorted (x : string * Z) (l : list (string * Z)) :
  StronglySorted visits_ge l -> StronglySorted visits_ge (insert_desc x l).
Proof.
  induction 1 as [|y l Hl IH Hy]; simpl.
  - repeat constructor.
  - destruct (Z.leb_spec (snd y) (snd x)) as [Hle|Hlt].
    + constructor; [constructor; assumption|].
      constructor; [exact Hle|].
      rewrite Forall_forall in Hy |- *. intros z Hz. specialize (Hy z Hz).
      unfold visits_ge in *. lia.
    + constructor; [exact IH|].
      rewrite Forall_forall in Hy |- *. intros z Hz.
      rewrite insert_desc_perm in Hz. apply elem_of_cons in Hz as [->|Hz].
      * unfold visits_ge. lia.
      * apply Hy. exact Hz.
Qed.

Lemma sorted_desc_sorted (l : list (string * Z)) :
  StronglySorted visits_ge (sorted_desc l).
Proof.
  induction l as [|x l IH]; simpl; [constructor|].
  apply insert_desc_sorted. exact IH.
Qed.

Lemma sum_visits_from (l : list (string * Z)) (a : Z) :
  fold_left (fun acc t => acc + snd t) l a = a + sum_visits l.
Proof.
  unfold sum_visits. revert a.
  induction l as [|t l IH]; intros a; simpl; [lia|].
  rewrite (IH (a + snd t)), (IH (0 + snd t)). lia.
Qed.

Lemma sum_visits_cons (t : string * Z) (l : list (string * Z)) :
  sum_visits (t :: l) = snd t + sum_visits l.
Proof. unfold sum_visits at 1. simpl. rewrite sum_visits_from. lia. Qed.

Section VisitFacts.

Context {R : Rounding}.

Lemma fractions_ok (total : Z) (kept : list (string * Z)) :
  total <> 0 ->
  mapM (fun t => do q <- float_div (float (snd t)) total;
                 Ok (fst t, PyFloat q)) kept
  = Ok (List.map (fun t => (fst t, PyFloat (fquot (float (snd t)) (float total))))
          kept).
Proof.
  intros Ht. induction kept as [|t kept IH]; simpl; [reflexivity|].
  rewrite float_div_ok by exact Ht. simpl. rewrite IH. reflexivity.
Qed.

Lemma fractions_raise (kept : list (string * Z)) :
  kept <> [] ->
  mapM (fun t => do q <- float_div (float (snd t)) 0;
                 Ok (fst t, PyFloat q)) kept
  = Raise ZeroDivisionError.
Proof. destruct kept; [contradiction | reflexivity]. Qed.

(** The three ways the function ends. *)
Lemma resort_recent_visit_cases (recent : list (string * Z)) :
  let kept := take 21 (sorted_desc recent) in
  let dropped := drop 21 (sorted_desc recent) in
  let recent' :=
    List.filter
      (fun e => negb (existsb (String.eqb (fst e)) (List.map fst dropped)))
      recent in
  (sum_visits kept <> 0
   /\ resort_recent_visit recent
      = (Ok tt,
         {| vs_recent := recent';
            vs_recent_users :=
              List.map (fun t => (fst t,
                                  PyFloat (fquot (float (snd t))
                                             (float (sum_visits kept)))))
                kept |}))
  \/ (sum_visits kept = 0 /\ kept <> []
      /\ resort_recent_visit recent
         = (Raise ZeroDivisionError,
            {| vs_recent := recent';
               vs_recent_users :=
                 List.map (fun t => (fst t, PyInt (snd t))) kept |}))
  \/ (recent = []
      /\ resort_recent_visit recent
         = (Ok tt, {| vs_recent := []; vs_recent_users := [] |})).
Proof.
  intros kept dropped recent'. unfold resort_recent_visit.
  fold kept. fold dropped. fold recent'.
  destruct (decide (sum_visits kept = 0)) as [E|Hne].
  - destruct kept as [|t k] eqn:Ek.
    + right. right.
      assert (Hr : recent = []).
      { pose proof (sorted_desc_perm recent) as Hp.
        destruct (sorted_desc recent) as [|x s] eqn:Es.
        - apply Permutation_nil_l in Hp. congruence.
        - unfold kept in Ek. simpl in Ek. discriminate. }
      subst recent. split; reflexivity.
    + right. left. rewrite E. split; [reflexivity|]. split; [discriminate|].
      reflexivity.
  - left. split; [exact Hne|]. rewrite fractions_ok by exact Hne. reflexivity.
Qed.

End VisitFacts.

Lemma existsb_eqb_elem (k : string) (l : list string) :
  existsb (String.eqb k) l = true <-> k ∈ l.
Proof.
  rewrite existsb_exists, list_elem_of_In. split.
  - intros (x & Hx & E). apply String.eqb_eq in E. congruence.
  - intros H. exists k. split; [exact H | apply String.eqb_refl].
Qed.

(** What is left of the dict is what the ranking keeps. *)
Lemma trimmed_is_kept (recent : list (string * Z)) :
  NoDup recent.*1 ->
  List.filter
    (fun e => negb (existsb (String.eqb (fst e))
                      (List.map fst (drop 21 (sorted_desc recent)))))
    recent
  ≡ₚ take 21 (sorted_desc recent).
Proof.
  intros Hnd.
  pose proof (sorted_desc_perm recent) as Hp.
  assert (Hsplit : (take 21 (sorted_desc recent)
                    ++ drop 21 (sorted_desc recent))%list
                   = sorted_desc recent) by apply take_drop.
  set (kept := take 21 (sorted_desc recent)) in *.
  set (dropped := drop 21 (sorted_desc recent)) in *.
  assert (Hndk : NoDup (kept.*1 ++ dropped.*1)%list).
  { rewrite <- fmap_app, Hsplit, Hp. exact Hnd. }
  apply NoDup_app in Hndk as (Hk1 & Hdisj & Hd1).
  apply NoDup_Permutation.
  - apply NoDup_ListNoDup, List.NoDup_filter, NoDup_ListNoDup.
    apply (NoDup_fmap_1 fst). exact Hnd.
  - apply (NoDup_fmap_1 fst). exact Hk1.
  - intros e. rewrite elem_of_filter_list, negb_true_iff.
    rewrite <- not_true_iff_false, existsb_eqb_elem.
    change (List.map fst dropped) with (dropped.*1).
    rewrite <- Hp, <- Hsplit, elem_of_app. split.
    + intros [[Hk|Hd] Hn]; [exact Hk|].
      exfalso. apply Hn. apply list_elem_of_fmap_2. exact Hd.
    + intros Hk. split; [left; exact Hk|].
      apply Hdisj. apply list_elem_of_fmap_2. exact Hk.
Qed.

Section VisitTheorems.

Context {R : Rounding}.

Lemma resort_recent_visit_state (recent : list (string * Z)) :
  vs_recent (snd (resort_recent_visit recent))
  = List.filter
      (fun e => negb (existsb (String.eqb (fst e))
                        (List.map fst (drop 21 (sorted_desc recent)))))
      recent
  /\ (vs_recent_users (snd (resort_recent_visit recent))).*1
     = (take 21 (sorted_desc recent)).*1.
Proof.
  destruct (resort_recent_visit_cases recent) as [[_ ->]|[(_ & _ & ->)|[-> ->]]];
    simpl; split; try reflexivity;
    rewrite <- list_fmap_compose; reflexivity.
Qed.

(** X19: the function keeps at most 21 addresses: the session list has
    min(21, n) entries, and the trimmed dict holds exactly the
    addresses of the session list, each with the visits it had. *)
Theorem resort_recent_visit_trims (recent : list (string * Z))
    (Hkeys : NoDup recent.*1) :
  let st := snd (resort_recent_visit recent) in
  List.length (vs_recent_users st) = Nat.min 21 (List.length recent)
  /\ (vs_recent st).*1 ≡ₚ (vs_recent_users st).*1
  /\ forall e, e ∈ vs_recent st -> e ∈ recent.
Proof.
  intros st. unfold st.
  destruct (resort_recent_visit_state recent) as [Hr Hu].
  pose proof (trimmed_is_kept recent Hkeys) as Hk. rewrite <- Hr in Hk.
  split; [|split].
  - rewrite <- (length_fmap fst), Hu, length_fmap, length_take.
    rewrite (Permutation_length (sorted_desc_perm recent)). reflexivity.
  - rewrite Hu, Hk. reflexivity.
  - intros e. rewrite Hr, elem_of_filter_list. tauto.
Qed.

(** X20: the addresses that are kept are the most visited: no address
    that is deleted from the dict has more visits than one that
    stays. *)
Theorem resort_recent_visit_most_visited (recent : list (string * Z))
    (Hkeys : NoDup recent.*1) (e d : string * Z)
    (He : e ∈ vs_recent (snd (resort_recent_visit recent)))
    (Hd : d ∈ recent)
    (Hgone : d ∉ vs_recent (snd (resort_recent_visit recent))) :
  snd d <= snd e.
Proof.
  destruct (resort_recent_visit_state recent) as [Hr _].
  pose proof (trimmed_is_kept recent Hkeys) as Hk. rewrite <- Hr in Hk.
  rewrite Hk in He, Hgone.
  pose proof (sorted_desc_sorted recent) as Hs.
  rewrite <- (take_drop 21 (sorted_desc recent)) in Hs.
  apply StronglySorted_app in Hs as (Hcross & _ & _).
  apply (Hcross e d He).
  rewrite <- (sorted_desc_perm recent), <- (take_drop 21 (sorted_desc recent))
    in Hd.
  apply elem_of_app in Hd as [Hd|Hd]; [contradiction | exact Hd].
Qed.

End VisitTheorems.

Lemma sum_visits_nonneg (l : list (string * Z)) :
  (forall e, e ∈ l -> 0 <= snd e) -> 0 <= sum_visits l.
Proof.
  induction l as [|t l IH]; intros H; [reflexivity|].
  rewrite sum_visits_cons.
  assert (0 <= snd t) by (apply H; left).
  assert (0 <= sum_visits l) by (apply IH; intros e He; apply H; right; exact He).
  lia.
Qed.

Lemma sum_visits_bound (l : list (string * Z)) (t : string * Z) :
  (forall e, e ∈ l -> 0 <= snd e) -> t ∈ l -> snd t <= sum_visits l.
Proof.
  induction l as [|x l IH]; intros H Ht; [inversion Ht|].
  rewrite sum_visits_cons.
  assert (0 <= snd x) by (apply H; left).
  assert (Hl : forall e, e ∈ l -> 0 <= snd e) by (intros e He; apply H; right; exact He).
  pose proof (sum_visits_nonneg l Hl).
  apply elem_of_cons in Ht as [->|Ht]; [lia|].
  specialize (IH Hl Ht). lia.
Qed.

Lemma sum_visits_zero (l : list (string * Z)) :
  (forall e, e ∈ l -> 0 <= snd e) ->
  sum_visits l = 0 <-> forall e, e ∈ l -> snd e = 0.
Proof.
  intros H. split.
  - intros E e He. pose proof (sum_visits_bound l e H He). specialize (H e He). lia.
  - intros Hz. clear H. induction l as [|x l IH]; [reflexivity|].
    rewrite sum_visits_cons, (Hz x) by left.
    rewrite IH; [reflexivity|]. intros e He. apply Hz. right. exact He.
Qed.

Lemma kept_in_recent (recent : list (string * Z)) (e : string * Z) :
  e ∈ take 21 (sorted_desc recent) -> e ∈ recent.
Proof.
  intros He. rewrite <- (sorted_desc_perm recent).
  rewrite <- (take_drop 21 (sorted_desc recent)). apply elem_of_app. left. exact He.
Qed.

Lemma kept_nil (recent : list (string * Z)) :
  take 21 (sorted_desc recent) = [] -> recent = [].
Proof.
  intros E. pose proof (sorted_desc_perm recent) as Hp.
  destruct (sorted_desc recent) as [|x s].
  - apply Permutation_nil_l in Hp. congruence.
  - discriminate.
Qed.

Lemma sum_entries_exact (total : Q) (l : list (string * Z)) :
  (sum_entries (List.map (fun t => (fst t, PyFloat (inject_Z (snd t) / total)%Q)) l)
   == inject_Z (sum_visits l) / total)%Q.
Proof.
  induction l as [|t l IH]; simpl.
  - unfold sum_visits. simpl. unfold Qdiv. rewrite Qmult_0_l. reflexivity.
  - rewrite IH, sum_visits_cons, inject_Z_plus. unfold entry_value. simpl.
    unfold Qdiv. ring.
Qed.

Lemma sum_entries_ext (l : list (string * Z)) (f g : Z -> Q) :
  (forall z, (f z == g z)%Q) ->
  (sum_entries (List.map (fun t => (fst t, PyFloat (f (snd t)))) l)
   == sum_entries (List.map (fun t => (fst t, PyFloat (g (snd t)))) l))%Q.
Proof.
  intros H. induction l as [|t l IH]; simpl; [reflexivity|].
  rewrite IH. unfold entry_value. simpl. rewrite H. reflexivity.
Qed.

Section VisitFractions.

Context {R : Rounding}.

Lemma fractions_sorted {L : RoundingLaws} (d : Q) (k : list (string * Z)) :
  (0 < d)%Q -> StronglySorted visits_ge k ->
  StronglySorted (fun a b => (entry_value b <= entry_value a)%Q)
    (List.map (fun t => (fst t, PyFloat (fquot (float (snd t)) d))) k).
Proof.
  intros Hd Hs. induction Hs as [|t k Hk IH Ht]; simpl; constructor.
  - exact IH.
  - rewrite Forall_forall in Ht. rewrite Forall_forall. intros e He.
    apply list_elem_of_fmap in He as (u & -> & Hu).
    unfold entry_value. simpl. unfold fquot. apply rnd_mono.
    unfold Qdiv. apply Qmult_le_compat_r.
    + apply float_mono. apply (Ht u Hu).
    + apply Qlt_le_weak, Qinv_lt_0_compat, Hd.
Qed.

(** X21: when no visit count is negative and the rounding of the floats
    is monotone and exact at 0 and 1, every entry of the session list
    that the function completes holds a fraction between 0 and 1, and
    the list runs from the largest fraction to the smallest. *)
Theorem resort_recent_visit_fractions {L : RoundingLaws}
    (recent : list (string * Z))
    (Hnn : forall e, e ∈ recent -> 0 <= snd e)
    (Hok : fst (resort_recent_visit recent) = Ok tt) :
  let users := vs_recent_users (snd (resort_recent_visit recent)) in
  (forall e, e ∈ users ->
     exists q, snd e = PyFloat q /\ (0 <= q <= 1)%Q)
  /\ StronglySorted (fun a b => (entry_value b <= entry_value a)%Q) users.
Proof.
  intros users. unfold users. clear users.
  assert (Hkn : forall e, e ∈ take 21 (sorted_desc recent) -> 0 <= snd e).
  { intros e He. apply Hnn, kept_in_recent, He. }
  destruct (resort_recent_visit_cases recent)
    as [[Hne ->]|[(_ & _ & E)|[-> ->]]]; simpl.
  - set (kept := take 21 (sorted_desc recent)) in *.
    assert (Hpos : 0 < sum_visits kept).
    { pose proof (sum_visits_nonneg kept Hkn). lia. }
    split.
    + intros e He. apply list_elem_of_fmap in He as (t & -> & Ht).
      eexists. split; [reflexivity|].
      replace (sum_visits kept) with (snd t + (sum_visits kept - snd t)) by lia.
      apply share_of_total_range.
      * apply Hkn, Ht.
      * pose proof (sum_visits_bound kept t Hkn Ht). lia.
      * lia.
    + assert (Hs : StronglySorted visits_ge kept).
      { pose proof (sorted_desc_sorted recent) as Hs.
        rewrite <- (take_drop 21 (sorted_desc recent)) in Hs.
        apply StronglySorted_app in Hs as (_ & Hs & _). exact Hs. }
      assert (Hden : (0 < float (sum_visits kept))%Q).
      { apply Qlt_le_trans with 1%Q; [reflexivity|]. apply float_ge_1. lia. }
      apply fractions_sorted; assumption.
  - rewrite E in Hok. discriminate.
  - split; [intros e He; inversion He | constructor].
Qed.

(** X22: with arithmetic that has no rounding error, the fractions of a
    non-empty list that the function completes add up to 1. *)
Theorem resort_recent_visit_fractions_sum (recent : list (string * Z))
    (Hex : exact_rounding)
    (Hne : recent <> [])
    (Hok : fst (resort_recent_visit recent) = Ok tt) :
  (sum_entries (vs_recent_users (snd (resort_recent_visit recent))) == 1)%Q.
Proof.
  destruct (resort_recent_visit_cases recent)
    as [[Hs ->]|[(_ & _ & E)|[-> _]]]; simpl.
  - set (kept := take 21 (sorted_desc recent)) in *.
    apply Qeq_trans with
      (sum_entries
         (List.map
            (fun t => (fst t,
                       PyFloat (inject_Z (snd t)
                                / inject_Z (sum_visits kept))%Q)) kept)).
    2: { rewrite sum_entries_exact. apply Qmult_inv_r.
      intros H. apply Hs. unfold Qeq in H. simpl in H. lia. }
    apply (sum_entries_ext kept
             (fun z => fquot (float z) (float (sum_visits kept)))
             (fun z => (inject_Z z / inject_Z (sum_visits kept))%Q)).
    intros z. unfold fquot, float. unfold exact_rounding in Hex.
    rewrite !Hex. reflexivity.
  - rewrite E in Hok. discriminate.
  - contradiction.
Qed.

(** X23: the only exception of the function is ZeroDivisionError; for
    visit counts that are not negative it is raised exactly when the
    dict is not empty and every address has zero visits. *)
Theorem resort_recent_visit_zero_division (recent : list (string * Z))
    (Hnn : forall e, e ∈ recent -> 0 <= snd e) :
  (fst (resort_recent_visit recent) = Raise ZeroDivisionError
   <-> recent <> [] /\ forall e, e ∈ recent -> snd e = 0)
  /\ (fst (resort_recent_visit recent) = Ok tt
      \/ fst (resort_recent_visit recent) = Raise ZeroDivisionError).
Proof.
  assert (Hkn : forall e, e ∈ take 21 (sorted_desc recent) -> 0 <= snd e).
  { intros e He. apply Hnn, kept_in_recent, He. }
  destruct (resort_recent_visit_cases recent)
    as [[Hs ->]|[(Hz & Hk & ->)|[-> ->]]]; simpl.
  - split; [|left; reflexivity]. split; [discriminate|].
    intros [_ Hall]. exfalso. apply Hs. apply sum_visits_zero; [exact Hkn|].
    intros e He. apply Hall, kept_in_recent, He.
  - split; [|right; reflexivity]. split; [|reflexivity]. intros _. split.
    + intros ->. apply Hk. reflexivity.
    + intros d Hd.
      pose proof (proj1 (sum_visits_zero _ Hkn) Hz) as Hall.
      pose proof (sorted_desc_sorted recent) as Hsort.
      rewrite <- (take_drop 21 (sorted_desc recent)) in Hsort.
      apply StronglySorted_app in Hsort as (Hcross & _ & _).
      rewrite <- (sorted_desc_perm recent),
        <- (take_drop 21 (sorted_desc recent)) in Hd.
      apply elem_of_app in Hd as [Hd|Hd]; [apply Hall, Hd|].
      destruct (take 21 (sorted_desc recent)) as [|t k] eqn:Ek;
        [contradiction|].
      assert (Ht : t ∈ t :: k) by left.
      specialize (Hcross t d Ht Hd). unfold visits_ge in Hcross.
      rewrite (Hall t Ht) in Hcross.
      assert (0 <= snd d).
      { apply Hnn. rewrite <- (sorted_desc_perm recent),
          <- (take_drop 21 (sorted_desc recent)).
        apply elem_of_app. right. exact Hd. }
      lia.
  - split; [|left; reflexivity]. split; [discriminate|]. intros [H _].
    contradiction.
Qed.

End VisitFractions.

Lemma resort_recent_visit_trims_witness :
  List.length
    (vs_recent_users (snd (resort_recent_visit (R := exact) example_crowd)))
  = Nat.min 21 (List.length example_crowd)
  /\ (vs_recent (snd (resort_recent_visit (R := exact) example_crowd))).*1
     ≡ₚ (vs_recent_users
           (snd (resort_recent_visit (R := exact) example_crowd))).*1
  /\ forall e,
       e ∈ vs_recent (snd (resort_recent_visit (R := exact) example_crowd)) ->
       e ∈ example_crowd.
Proof.
  apply (resort_recent_visit_trims (R := exact) example_crowd).
  apply (bool_decide_unpack _). vm_compute. exact I.
Defined.

Lemma resort_recent_visit_most_visited_witness :
  snd ("addr_d", 1) <= snd ("addr_f", 2).
Proof.
  apply (resort_recent_visit_most_visited (R := exact) example_crowd).
  - apply (bool_decide_unpack _). vm_compute. exact I.
  - apply (bool_decide_unpack _). vm_compute. exact I.
  - apply (bool_decide_unpack _). vm_compute. exact I.
  - apply (bool_decide_unpack _). vm_compute. exact I.
Defined.

Lemma resort_recent_visit_fractions_witness :
  (forall e,
     e ∈ vs_recent_users (snd (resort_recent_visit (R := grid) example_recent)) ->
     exists q, snd e = PyFloat q /\ (0 <= q <= 1)%Q)
  /\ StronglySorted (fun a b => (entry_value b <= entry_value a)%Q)
       (vs_recent_users (snd (resort_recent_visit (R := grid) example_recent))).
Proof.
  apply (resort_recent_visit_fractions (R := grid) (L := grid_laws)
           example_recent).
  - intros e He. unfold example_recent in He.
    repeat (apply elem_of_cons in He as [->|He]; [simpl; lia|]).
    inversion He.
  - vm_compute. reflexivity.
Defined.

Lemma resort_recent_visit_fractions_sum_witness :
  (sum_entries
     (vs_recent_users (snd (resort_recent_visit (R := exact) example_recent)))
   == 1)%Q.
Proof.
  apply (resort_recent_visit_fractions_sum (R := exact) example_recent).
  - exact exact_is_exact.
  - discriminate.
  - vm_compute. reflexivity.
Defined.

Lemma resort_recent_visit_zero_division_witness :
  fst (resort_recent_visit (R := exact) [("addrA", 0); ("addrB", 0)])
  = Raise ZeroDivisionError.
Proof.
  apply (resort_recent_visit_zero_division (R := exact)
           [("addrA", 0); ("addrB", 0)]).
  - intros e He.
    repeat (apply elem_of_cons in He as [->|He]; [simpl; lia|]).
    inversion He.
  - split; [discriminate|]. intros e He.
    repeat (apply elem_of_cons in He as [->|He]; [reflexivity|]).
    inversion He.
Defined.

(** ** validate_message_vals, further *)

Lemma quantize_hundredths_ok d d' :
  quantize_hundredths d = Ok d' ->
  d' = DNaN false \/ exists neg c, d' = DFinite neg c (-2).
Proof.
  unfold quantize_hundredths. destruct d as [neg c e0|neg|[|]];
    try discriminate.
  - repeat match goal with
           | |- context [if ?c then _ else _] => destruct c
           end; try discriminate; intros [= <-]; right; eauto.
  - intros [= <-]. left. reflexivity.
Qed.

Lemma convert_donate_perc_ok v d :
  convert_donate_perc v = Ok d ->
  d = DNaN false \/ exists neg c e, d = DFinite neg c e /\ -4 <= e <= -2.
Proof.
  unfold convert_donate_perc.
  destruct (Decimal_new v) as [d0|e0]; simpl; [|destruct e0; discriminate].
  destruct (quantize_hundredths d0) as [d1|e1] eqn:Eq; simpl;
    [|destruct e1; discriminate].
  apply quantize_hundredths_ok in Eq as [->|(neg & c & ->)]; simpl.
  - intros [= <-]. left. reflexivity.
  - destruct (N.eqb c 0).
    + intros [= <-]. right. exists neg, 0%N, (-2). split; [reflexivity | lia].
    + unfold strip_zero.
      repeat match goal with
             | |- context [if ?b then _ else _] => destruct b
             end;
        intros [= <-]; right; eexists _, _, _; (split; [reflexivity | lia]).
Qed.

(** A loop that completes has either had nothing to check or a helper
    to check with. *)
Lemma check_addrs_completes (binding : global_name)
    (items : list (string * string)) :
  check_addrs binding items = Ok tt ->
  forall item, item ∈ items ->
    exists helper, binding = Some helper /\ address_passes helper item.2.
Proof.
  intros Hok item Hin. destruct binding as [helper|].
  - exists helper. split; [reflexivity|].
    apply check_addrs_ok in Hok. rewrite Forall_forall in Hok.
    apply Hok, Hin.
  - destruct items as [|[curr addr] items]; [inversion Hin | discriminate Hok].
Qed.

Section ValidationOutcome.

Variable check_valid_currency : global_name.

(** X24: what a successful validation returns: the addresses to set and
    to delete and the anonymity flag exactly as the message gave them;
    every address to set is 34 characters long and known to the
    currency check, which is then bound; and the donation is a finite
    decimal with two to four decimal places whose value lies between 0
    and 100. *)
Theorem validate_message_vals_accepts (kwargs : update_dict)
    (args : message_vals)
    (Hok : validate_message_vals check_valid_currency kwargs = Ok args) :
  mv_set_addrs args = SETADDR kwargs
  /\ mv_del_addrs args = DELADDR kwargs
  /\ mv_anon args = MAKEANON kwargs
  /\ (forall curr addr,
        SETADDR kwargs !! curr = Some addr ->
        exists check,
          check_valid_currency = Some check /\ address_passes check addr)
  /\ exists neg c e,
       mv_donate_perc args = DFinite neg c e
       /\ -4 <= e <= -2
       /\ (0 <= decimal_value neg c e <= 100)%Q.
Proof.
  unfold validate_message_vals in Hok.
  destruct (check_addrs check_valid_currency (map_to_list (SETADDR kwargs)))
    as [[]|e0] eqn:Ea; [|discriminate]. simpl in Hok.
  destruct (convert_donate_perc (SETDONATE kwargs)) as [d|e0] eqn:Ec;
    [|discriminate]. simpl in Hok.
  apply convert_donate_perc_ok in Ec as [->|(neg & c & e & -> & He)];
    [discriminate|]. simpl in Hok.
  destruct (Qlt_bool 100 (decimal_value neg c e)) eqn:Hgt; simpl in Hok;
    [discriminate|].
  destruct (Qlt_bool (decimal_value neg c e) 0) eqn:Hlt; simpl in Hok;
    [discriminate|].
  injection Hok as <-. simpl.
  split; [reflexivity|]. split; [reflexivity|]. split; [reflexivity|]. split.
  - intros curr addr Hin.
    apply (check_addrs_completes _ _ Ea (curr, addr)).
    apply elem_of_map_to_list. exact Hin.
  - exists neg, c, e. repeat split; try lia.
    + apply Qnot_lt_le. intros H. apply Qlt_bool_iff in H. congruence.
    + apply Qnot_lt_le. intros H. apply Qlt_bool_iff in H. congruence.
Qed.

(** X25: the exceptions of [validate_message_vals]: the three
    [CommandException]s of its text; the decimal module's
    [InvalidOperation], which its handler does not catch; and
    [NameError], when the message sets an address and the name
    [check_valid_currency] is unbound, as it is in the module as
    written. *)
Theorem validate_message_vals_exceptions (kwargs : update_dict) (e : exn)
    (Hraise : validate_message_vals check_valid_currency kwargs = Raise e) :
  e = CommandException msg_invalid_address
  \/ e = CommandException msg_donate_convert
  \/ e = CommandException msg_donate_bounds
  \/ e = InvalidOperation
  \/ (e = NameError /\ check_valid_currency = None
      /\ SETADDR kwargs <> ∅).
Proof.
  unfold validate_message_vals in Hraise.
  destruct (check_addrs check_valid_currency (map_to_list (SETADDR kwargs)))
    as [[]|e0] eqn:Ea; simpl in Hraise.
  - destruct (convert_donate_perc (SETDONATE kwargs)) as [d|e1] eqn:Ec;
      simpl in Hraise.
    + destruct d as [neg c e1|neg|sig]; simpl in Hraise.
      * destruct (Qlt_bool 100 _); simpl in Hraise;
          [injection Hraise as <-; auto|].
        destruct (Qlt_bool _ 0); [injection Hraise as <-; auto | discriminate].
      * destruct neg; simpl in Hraise; injection Hraise as <-; auto.
      * injection Hraise as <-. auto.
    + injection Hraise as <-.
      apply convert_donate_perc_raises in Ec as [-> | ->]; auto.
  - injection Hraise as <-.
    apply check_addrs_raises in Ea as [->|(-> & Hb & Hne)]; [auto|].
    do 4 right. repeat split; [exact Hb|].
    intros E. apply Hne. rewrite E. apply map_to_list_empty.
Qed.

End ValidationOutcome.

(** In the module as it is written, on a message that sets the
    donation; and with a helper supplied, on one that sets an
    address. *)
Lemma validate_message_vals_accepts_witness :
  (exists neg c e,
      DFinite false 5 (-2) = DFinite neg c e
      /\ -4 <= e <= -2
      /\ (0 <= decimal_value neg c e <= 100)%Q)
  /\ forall curr addr,
       SETADDR (address_only "BTC" "1A1zP1eP5QGefi2DMPTfTL5SLmv7DivfNa")
         !! curr = Some addr ->
       exists check,
         Some every_address_valid = Some check /\ address_passes check addr.
Proof.
  split.
  - destruct (validate_message_vals_accepts unbound
                (donation_only (VStr "5"))
                {| mv_set_addrs := ∅; mv_del_addrs := [];
                   mv_donate_perc := DFinite false 5 (-2);
                   mv_anon := VBool false |})
      as (_ & _ & _ & _ & H5).
    + vm_compute. reflexivity.
    + exact H5.
  - destruct (validate_message_vals_accepts (Some every_address_valid)
                (address_only "BTC" "1A1zP1eP5QGefi2DMPTfTL5SLmv7DivfNa")
                {| mv_set_addrs :=
                     {[ "BTC" := "1A1zP1eP5QGefi2DMPTfTL5SLmv7DivfNa" ]};
                   mv_del_addrs := []; mv_donate_perc := DFinite false 0 (-2);
                   mv_anon := VBool false |})
      as (_ & _ & _ & H4 & _).
    + vm_compute. reflexivity.
    + exact H4.
Defined.

Lemma validate_message_vals_exceptions_witness :
  NameError = CommandException msg_invalid_address
  \/ NameError = CommandException msg_donate_convert
  \/ NameError = CommandException msg_donate_bounds
  \/ NameError = InvalidOperation
  \/ (NameError = NameError /\ unbound = None
      /\ SETADDR (address_only "BTC" "1A1zP1eP5QGefi2DMPTfTL5SLmv7DivfNa")
         <> ∅).
Proof.
  apply (validate_message_vals_exceptions unbound
           (address_only "BTC" "1A1zP1eP5QGefi2DMPTfTL5SLmv7DivfNa")).
  reflexivity.
Defined.

(** ** verify_message, further *)

Lemma split_not_nil (sep : ascii) (s : string) : split sep s <> [].
Proof.
  induction s as [|c s IH]; simpl; [discriminate|].
  destruct (Ascii.eqb c sep); [discriminate|].
  destruct (split sep s); discriminate.
Qed.

Lemma index_first_word (line : string) :
  index (split " " line) 0 = Ok (first_word line).
Proof.
  unfold index, first_word. pose proof (split_not_nil " " line) as H.
  destruct (split " " line); [contradiction | reflexivity].
Qed.

Lemma index_raises (parts : list string) (i : nat) (e : exn) :
  index parts i = Raise e -> e = IndexError.
Proof. unfold index. destruct (parts !! i); [discriminate | congruence]. Qed.

Section ParseFacts.

Variable strptime : string -> option datetime.

(** What a line does to the stamp and the site. *)
Lemma parse_line_ok (st st' : parse_state) (line : string) :
  parse_line strptime st line = Ok st' ->
  (first_word line <> "Generated" -> ps_stamp st' = ps_stamp st)
  /\ (first_word line <> "Only" -> ps_site st' = ps_site st).
Proof.
  unfold parse_line. rewrite index_first_word. simpl.
  repeat match goal with
         | |- context [String.eqb (first_word line) ?w] =>
             destruct (String.eqb_spec (first_word line) w)
         end;
    repeat match goal with
           | |- context [index ?p ?i] => destruct (index p i); simpl
           end;
    try discriminate;
    try (intros [= <-]; simpl; split; intros; congruence).
  destruct (strptime _); [|discriminate].
  intros [= <-]; simpl; split; intros; congruence.
Qed.

Lemma parse_line_raises (st : parse_state) (line : string) (e : exn) :
  parse_line strptime st line = Raise e ->
  e = IndexError \/ e = ValueError
  \/ e = CommandException msg_invalid_command.
Proof.
  unfold parse_line. rewrite index_first_word. simpl.
  repeat match goal with
         | |- context [String.eqb (first_word line) ?w] =>
             destruct (String.eqb (first_word line) w)
         end;
    repeat match goal with
           | |- context [index ?p ?i] =>
               let E := fresh "E" in
               destruct (index p i) eqn:E; simpl;
               [|apply index_raises in E; subst; intros [= <-]; auto]
           end;
    try discriminate;
    try (intros [= <-]; auto).
  destruct (strptime _); [discriminate|]. intros [= <-]; auto.
Qed.

Lemma parse_lines_ok (lines : list string) (st st' : parse_state) :
  parse_lines strptime st lines = Ok st' ->
  ((forall line, line ∈ lines -> first_word line <> "Generated") ->
   ps_stamp st' = ps_stamp st)
  /\ ((forall line, line ∈ lines -> first_word line <> "Only") ->
      ps_site st' = ps_site st).
Proof.
  revert st. induction lines as [|line lines IH]; intros st; simpl.
  - intros [= <-]. split; reflexivity.
  - destruct (parse_line strptime st line) as [st1|e] eqn:E1; simpl;
      [|discriminate].
    intros H. apply IH in H as [Hs Ho].
    apply parse_line_ok in E1 as [Ls Lo]. split; intros Hall.
    + rewrite Hs by (intros l Hl; apply Hall; right; exact Hl).
      apply Ls, Hall. left.
    + rewrite Ho by (intros l Hl; apply Hall; right; exact Hl).
      apply Lo, Hall. left.
Qed.

Lemma parse_lines_raises (lines : list string) (st : parse_state) (e : exn) :
  parse_lines strptime st lines = Raise e ->
  e = IndexError \/ e = ValueError
  \/ e = CommandException msg_invalid_command.
Proof.
  revert st. induction lines as [|line lines IH]; intros st; simpl;
    [discriminate|].
  destruct (parse_line strptime st line) as [st1|e1] eqn:E1; simpl.
  - apply IH.
  - intros [= <-]. apply (parse_line_raises st line), E1.
Qed.

Lemma parse_message_raises (message : string) (e : exn) :
  parse_message strptime message = Raise e ->
  e = CommandException msg_invalid_information
  \/ e = CommandException msg_invalid_command.
Proof.
  unfold parse_message.
  destruct (parse_lines strptime initial_parse_state (split "009" message))
    as [st|e0] eqn:E; [discriminate|].
  apply parse_lines_raises in E as [->|[->| ->]]; intros [= <-]; auto.
Qed.

Lemma parse_message_ok (message : string) (st : parse_state) :
  parse_message strptime message = Ok st ->
  (~ has_line "Generated" message -> ps_stamp st = None)
  /\ (~ has_line "Only" message -> ps_site st = None).
Proof.
  unfold parse_message.
  destruct (parse_lines strptime initial_parse_state (split "009" message))
    as [st0|e0] eqn:E; [|destruct e0; discriminate].
  intros [= <-]. apply parse_lines_ok in E as [Hs Ho].
  split; intros Hno; [apply Hs | apply Ho];
    intros line Hl Hw; apply Hno; exists line; auto.
Qed.

Lemma check_site_ok (cfg : Config) (site : option string) :
  check_site cfg site = Ok tt ->
  exists title,
    site = Some title /\ cfg_site_title cfg = Some title /\ title <> "".
Proof.
  unfold check_site. destruct site as [s|]; [|discriminate].
  destruct (String.eqb_spec s "") as [->|Hne]; [discriminate|].
  destruct (cfg_site_title cfg) as [title|]; [|discriminate].
  destruct (String.eqb_spec s title) as [->|]; [|discriminate].
  intros _. exists title. auto.
Qed.

Lemma check_site_raises (cfg : Config) (site : option string) (e : exn) :
  check_site cfg site = Raise e ->
  e = CommandException msg_invalid_website
  \/ (e = KeyError /\ cfg_site_title cfg = None).
Proof.
  unfold check_site. destruct site as [s|]; [|intros [= <-]; auto].
  destruct (String.eqb s ""); [intros [= <-]; auto|].
  destruct (cfg_site_title cfg) as [title|]; [|intros [= <-]; auto].
  destruct (String.eqb s title); [discriminate | intros [= <-]; auto].
Qed.

Lemma check_message_ok (cfg : Config) (now : datetime) (message : string)
    (d : update_dict) :
  check_message strptime cfg now message = Ok d ->
  exists st stamp title,
    parse_message strptime message = Ok st
    /\ ps_dict st = d
    /\ ps_stamp st = Some stamp
    /\ too_old cfg now stamp = false
    /\ ps_site st = Some title
    /\ cfg_site_title cfg = Some title
    /\ title <> "".
Proof.
  unfold check_message.
  destruct (parse_message strptime message) as [st|e] eqn:Ep; [|discriminate].
  simpl. destruct (ps_stamp st) as [stamp|] eqn:Es; [|discriminate].
  destruct (too_old cfg now stamp) eqn:Eo; [discriminate|].
  destruct (check_site cfg (ps_site st)) as [[]|e] eqn:Ec; [|discriminate].
  simpl. intros [= <-].
  apply check_site_ok in Ec as (title & H1 & H2 & H3).
  exists st, stamp, title. auto 10.
Qed.

Lemma check_message_raises (cfg : Config) (now : datetime) (message : string)
    (e : exn) :
  check_message strptime cfg now message = Raise e ->
  (exists m, e = CommandException m)
  \/ (e = KeyError /\ cfg_site_title cfg = None).
Proof.
  unfold check_message.
  destruct (parse_message strptime message) as [st|e0] eqn:Ep; simpl.
  - destruct (ps_stamp st) as [stamp|]; [|intros [= <-]; eauto].
    destruct (too_old cfg now stamp); [intros [= <-]; eauto|].
    destruct (check_site cfg (ps_site st)) as [[]|e0] eqn:Ec; [discriminate|].
    simpl. intros [= <-].
    apply check_site_raises in Ec as [->|[-> H]]; eauto.
  - intros [= <-]. apply parse_message_raises in Ep as [->| ->]; eauto.
Qed.

(** A message that lacks the stamp line or the site line does not pass
    the checks, and what it raises is a [CommandException]. *)
Lemma check_message_incomplete (cfg : Config) (now : datetime)
    (message : string) :
  ~ has_line "Generated" message \/ ~ has_line "Only" message ->
  exists m, check_message strptime cfg now message
            = Raise (CommandException m).
Proof.
  intros Hno. unfold check_message.
  destruct (parse_message strptime message) as [st|e0] eqn:Ep; simpl.
  - apply parse_message_ok in Ep as [Hs Ho].
    destruct (ps_stamp st) as [stamp|] eqn:Es; [|eauto].
    destruct (too_old cfg now stamp); [eauto|].
    destruct Hno as [Hno|Hno].
    + specialize (Hs Hno). discriminate.
    + rewrite (Ho Hno). simpl. eauto.
  - apply parse_message_raises in Ep as [->| ->]; eauto.
Qed.

End ParseFacts.

(** What the validation raises, by kind. *)
Lemma validate_message_vals_raises_kind (binding : global_name)
    (kwargs : update_dict) (e : exn) :
  validate_message_vals binding kwargs = Raise e ->
  (exists m, e = CommandException m) \/ e = InvalidOperation
  \/ (e = NameError /\ binding = None).
Proof.
  unfold validate_message_vals.
  destruct (check_addrs binding (map_to_list (SETADDR kwargs))) as [[]|e0]
    eqn:Ea; simpl.
  - destruct (convert_donate_perc (SETDONATE kwargs)) as [d|e1] eqn:Ec; simpl.
    + destruct d as [neg c e1|[|]|sig]; simpl;
        repeat match goal with
               | |- context [if ?b then _ else _] => destruct b; simpl
               end;
        try discriminate; intros [= <-]; eauto.
    + intros [= <-].
      apply convert_donate_perc_raises in Ec as [-> | ->]; eauto.
  - intros [= <-].
    apply check_addrs_raises in Ea as [->|(-> & Hb & _)]; eauto.
Qed.

Section VerifyOutcome.

Variable strptime : string -> option datetime.
Variable check_valid_currency : global_name.
Variable Settings : Type.
Variable verifymessage : string -> string -> string -> oracle_reply.
Variable UserSettings_update :
  string -> message_vals -> Settings -> result unit * Settings.
Variable commit_outcome : Settings -> result unit.

(** X26: what an accepted message has passed: it parsed, it carries a
    stamp that the age test lets through, its site is the configured
    title, the coin daemon verified the signature, its values
    validated, the update raised nothing and the database took the
    commit; and the session that is left is the update's, committed. *)
Theorem verify_message_accepted (cfg : Config) (now : datetime)
    (address message signature : string) (s s' : db_session Settings)
    (Hok : verify_message strptime check_valid_currency verifymessage
             UserSettings_update commit_outcome cfg now address message
             signature s
           = (Ok tt, s')) :
  exists st stamp title args,
    parse_message strptime message = Ok st
    /\ ps_stamp st = Some stamp
    /\ too_old cfg now stamp = false
    /\ ps_site st = Some title
    /\ cfg_site_title cfg = Some title
    /\ verifymessage address signature message = Verified true
    /\ validate_message_vals check_valid_currency (ps_dict st) = Ok args
    /\ UserSettings_update address args (pending s) = (Ok tt, committed s')
    /\ commit_outcome (committed s') = Ok tt
    /\ pending s' = committed s'.
Proof.
  apply verify_message_ok_commits in Hok
    as (d & args & Hc & Hv & Ha & Hu & Hco & Hp).
  apply check_message_ok in Hc
    as (st & stamp & title & H1 & <- & H3 & H4 & H5 & H6 & _).
  exists st, stamp, title, args. auto 12.
Qed.

(** X27: the exceptions of [verify_message]: a [CommandException]; the
    decimal module's [InvalidOperation], from the validation; a
    [KeyError], when no site title is configured; [NameError], when
    the name [check_valid_currency] is unbound, as it is in the module
    as written; what the update raised, if that is not a
    [SQLAlchemyError]; or what the commit raised after an update that
    went through, a [SQLAlchemyError] included, since the commit is
    outside every handler. *)
Theorem verify_message_exceptions (cfg : Config) (now : datetime)
    (address message signature : string) (s s' : db_session Settings)
    (e : exn)
    (Hraise : verify_message strptime check_valid_currency verifymessage
                UserSettings_update commit_outcome cfg now address message
                signature s
              = (Raise e, s')) :
  (exists m, e = CommandException m)
  \/ e = InvalidOperation
  \/ (e = KeyError /\ cfg_site_title cfg = None)
  \/ (e = NameError /\ check_valid_currency = None)
  \/ (e <> SQLAlchemyError
      /\ exists args p,
           UserSettings_update address args (pending s) = (Raise e, p))
  \/ (exists args p,
        UserSettings_update address args (pending s) = (Ok tt, p)
        /\ commit_outcome p = Raise e).
Proof.
  unfold verify_message in Hraise.
  destruct (check_message strptime cfg now message) as [d|e0] eqn:Ec.
  2: { injection Hraise as <- _.
       apply check_message_raises in Ec as [H|H]; auto. }
  destruct (verifymessage address signature message) as [[|]|reason|];
    try (injection Hraise as <- _; eauto; fail).
  destruct (validate_message_vals check_valid_currency d) as [args|e0] eqn:Ev.
  2: { injection Hraise as <- _.
       apply validate_message_vals_raises_kind in Ev
         as [[m ->]|[->|[-> Hb]]]; eauto 7. }
  destruct (UserSettings_update address args (pending s)) as [[[]|e0] p] eqn:Eu.
  - destruct (commit_cases _ commit_outcome
                {| committed := committed s; pending := p |})
      as [[_ Hc]|(e1 & Hco & Hc)]; rewrite Hc in Hraise;
      [discriminate|].
    injection Hraise as <- _. do 5 right. exists args, p. auto.
  - destruct e0; injection Hraise as <- _; eauto;
      do 4 right; left; (split; [discriminate | eauto]).
Qed.

(** X28: a message without a line that starts with [Generated], or
    without one that starts with [Only], is refused with a
    [CommandException] and the session is left as it was, whatever the
    coin daemon would answer. *)
Theorem verify_message_incomplete (cfg : Config) (now : datetime)
    (address message signature : string) (s : db_session Settings)
    (Hno : ~ has_line "Generated" message \/ ~ has_line "Only" message) :
  exists m,
    verify_message strptime check_valid_currency verifymessage
      UserSettings_update commit_outcome cfg now address message signature s
    = (Raise (CommandException m), s).
Proof.
  destruct (check_message_incomplete strptime cfg now message Hno) as [m Hm].
  exists m. unfold verify_message. rewrite Hm. reflexivity.
Qed.

End VerifyOutcome.

(** X29: the age test does not see whole days: a message is as old
    [k] days later, for any [k], as it is now. *)
Theorem too_old_whole_days (cfg : Config) (now stamp : datetime) (k : Z) :
  too_old cfg (now + days k) stamp = too_old cfg now stamp.
Proof.
  unfold too_old, td_seconds, days.
  replace (now + k * us_per_day - stamp) with (now - stamp + k * us_per_day)
    by lia.
  rewrite Z.mod_add by discriminate. reflexivity.
Qed.

Lemma verify_message_accepted_witness :
  exists st stamp title args,
    parse_message strptime_utc example_message_donation = Ok st
    /\ ps_stamp st = Some stamp
    /\ too_old example_config (t0 + hours 1) stamp = false
    /\ ps_site st = Some title
    /\ cfg_site_title example_config = Some title
    /\ oracle_accepts "addr1" "sig" example_message_donation = Verified true
    /\ validate_message_vals unbound (ps_dict st) = Ok args
    /\ example_update "addr1" args (pending example_session)
       = (Ok tt, example_donation_commit)
    /\ database_accepts example_donation_commit = Ok tt
    /\ example_donation_commit = example_donation_commit.
Proof.
  apply (verify_message_accepted strptime_utc unbound
           example_settings oracle_accepts example_update database_accepts
           example_config (t0 + hours 1) "addr1" example_message_donation
           "sig" example_session
           {| committed := example_donation_commit;
              pending := example_donation_commit |}).
  vm_compute. reflexivity.
Defined.

Lemma verify_message_exceptions_witness :
  ((exists m, NameError = CommandException m)
   \/ NameError = InvalidOperation
   \/ (NameError = KeyError /\ cfg_site_title example_config = None)
   \/ (NameError = NameError /\ unbound = None)
   \/ (NameError <> SQLAlchemyError
       /\ exists args p,
            example_update "addr1" args (pending example_session)
            = (Raise NameError, p))
   \/ (exists args p,
         example_update "addr1" args (pending example_session) = (Ok tt, p)
         /\ database_accepts p = Raise NameError))
  /\ ((exists m, SQLAlchemyError = CommandException m)
      \/ SQLAlchemyError = InvalidOperation
      \/ (SQLAlchemyError = KeyError /\ cfg_site_title example_config = None)
      \/ (SQLAlchemyError = NameError /\ unbound = None)
      \/ (SQLAlchemyError <> SQLAlchemyError
          /\ exists args p,
               example_update "addr1" args (pending example_session)
               = (Raise SQLAlchemyError, p))
      \/ (exists args p,
            example_update "addr1" args (pending example_session) = (Ok tt, p)
            /\ database_refuses p = Raise SQLAlchemyError)).
Proof.
  split.
  - apply (verify_message_exceptions strptime_utc unbound
             example_settings oracle_accepts example_update database_accepts
             example_config (t0 + hours 1) "addr1" example_message "sig"
             example_session example_session).
    vm_compute. reflexivity.
  - apply (verify_message_exceptions strptime_utc unbound
             example_settings oracle_accepts example_update database_refuses
             example_config (t0 + hours 1) "addr1" example_message_donation
             "sig" example_session
             {| committed := []; pending := example_donation_commit |}).
    vm_compute. reflexivity.
Defined.

Lemma verify_message_incomplete_witness :
  exists m,
    verify_message strptime_utc unbound oracle_accepts
      example_update database_accepts example_config t0 "addr1"
      "Only valid for PoolSite" "sig" example_session
    = (Raise (CommandException m), example_session).
Proof.
  apply (verify_message_incomplete strptime_utc unbound
           example_settings oracle_accepts example_update database_accepts
           example_config t0 "addr1" "Only valid for PoolSite" "sig"
           example_session).
  left. intros (line & Hl & Hw).
  apply list_elem_of_In in Hl. vm_compute in Hl.
  destruct Hl as [<-|[]]. vm_compute in Hw. discriminate Hw.
Defined.
